(** * Double Strike puzzle generator (ChessPrac): model and verification

    A shallow embedding of [DoubleStrikeChessGenerator] (double-strike.ts)
    and of the Double Strike page (double-strike-chess.tsx): its helpers,
    [fenToBoard] among them, and its callbacks as functions of the game
    state.

    Conventions of the model.
    - JavaScript integers (coordinates, counters) are [Z].
    - [Math.random()] is the next element of a stream [random : N -> number]
      of exact rationals; the generator state carries the number of draws made
      so far.  Floating point rounding of products such as [r * 8] and of
      the weights of [getRandomPiece] is not modelled: arithmetic on samples
      is exact, and the literal [0.3] is the double it denotes.  The
      properties do not depend on the rounding: they hold for every stream,
      or they keep clear of a threshold by a margin far above a rounding
      error.
    - A piece identity is the integer whose decimal rendering the code uses as
      a string key ([toString] is injective on integers).
    - A JavaScript [Map] is an insertion-ordered association list.
    - Exceptions are values: a computation returns [Ok a] or [Throw e] together
      with the state reached at that point (mutations made before a throw
      persist, as they do on the JavaScript object).
    - In the generator a read of a row the board does not have, a
      [TypeError] in JavaScript, is the answer [None] of [readCell], and
      [false] for [hasLineOfSight] and in the loop of [validateSolution].
      It does not occur on a board of 8 by 8 with squares of the board, and
      the properties that depend on the answer are stated there.  The page
      model keeps the [TypeError]. *)

From Stdlib Require Import String Ascii DecimalString DecimalZ FinFun.
From Stdlib Require Import ZArith QArith Qround List Bool Lia Lqa.
Import ListNotations.

Local Open Scope Z_scope.

(** JavaScript [number] when it holds a fraction (random samples, weights). *)
Definition number : Set := QArith_base.Q.

(** ** Data model *)

Module SimplePiece.

Inductive t : Set := K | Q | R | B | N | P.

Definition eqb (a b : t) : bool :=
  match a, b with
  | K, K | Q, Q | R, R | B, B | N, N | P, P => true
  | _, _ => false
  end.

(** The string a kind is at run time. *)
Definition letter (p : t) : ascii :=
  match p with
  | K => "K" | Q => "Q" | R => "R" | B => "B" | N => "N" | P => "P"
  end%char.

End SimplePiece.

Abbreviation SimplePiece := SimplePiece.t.

Module Position.

Record t : Set := mk { x : Z; y : Z }.

Definition eqb (p q : t) : bool := (x p =? x q) && (y p =? y q).

End Position.

Abbreviation Position := Position.t.

Definition PieceId : Set := Z.

Module Move.

Record t : Set := mk {
  from : Position;
  to : Position;
  captured : SimplePiece;
  piece : SimplePiece;
  pieceId : PieceId;
  wasPromotion : bool
}.

End Move.

Abbreviation Move := Move.t.

(** A cell is [null] ([None]) or a piece kind. *)
Definition Cell : Set := option SimplePiece.

Definition Board : Set := list (list Cell).

(** [Array(8).fill(null).map(() => Array(8).fill(null))] *)
Definition emptyBoard : Board := repeat (repeat None 8%nat) 8%nat.

(** Array indexing [a[i]]: [None] stands for [undefined]. *)
Definition index {A : Type} (a : list A) (i : Z) : option A :=
  if i <? 0 then None else nth_error a (Z.to_nat i).

(** [board[pos.y][pos.x]]; [None] when the access leaves the arrays. *)
Definition readCell (b : Board) (pos : Position) : option Cell :=
  match index b (Position.y pos) with
  | Some row => index row (Position.x pos)
  | None => None
  end.

(** In-place update of a list ([a[i] = v] for [i] inside the array). *)
Fixpoint setNth {A : Type} (a : list A) (i : nat) (v : A) : list A :=
  match a, i with
  | [], _ => []
  | _ :: t, O => v :: t
  | h :: t, S j => h :: setNth t j v
  end.

(** [board[pos.y][pos.x] = v].  The generator writes only to squares of the
    8x8 grid; a write outside the arrays is left out of the model (the board
    is returned unchanged). *)
Definition writeCell (b : Board) (pos : Position) (v : Cell) : Board :=
  if (Position.y pos <? 0) || (Position.x pos <? 0) then b
  else match nth_error b (Z.to_nat (Position.y pos)) with
       | Some row =>
           if Z.to_nat (Position.x pos) <? length row
           then setNth b (Z.to_nat (Position.y pos))
                  (setNth row (Z.to_nat (Position.x pos)) v)
           else b
       | None => b
       end%nat.

Definition isNull (c : Cell) : bool :=
  match c with None => true | Some _ => false end.

(** [board.flat().filter(cell => cell !== null)] *)
Definition remaining (b : Board) : list Cell :=
  filter (fun c => negb (isNull c)) (concat b).

Definition countPieces (b : Board) : Z := Z.of_nat (length (remaining b)).

(** [board.flat().some(cell => cell === 'K')] *)
Definition hasKing (b : Board) : bool :=
  existsb (fun c => match c with Some SimplePiece.K => true | _ => false end)
          (concat b).

Definition onBoard (p : Position) : Prop :=
  0 <= Position.x p < 8 /\ 0 <= Position.y p < 8.

Definition wfBoard (b : Board) : Prop :=
  length b = 8%nat /\ Forall (fun row => length row = 8%nat) b.

(** ** Move legality *)

(** Outcome of the scan of [hasLineOfSight]: a boolean, or the scan left the
    board arrays, or the step budget of the model ran out. *)
Inductive Sight : Set :=
| Seen (clear : bool)
| OffBoard
| NoFuel.

(** The [while] loop of [hasLineOfSight], at most [fuel] iterations of its
    body.  The second component lists the cells the loop has read. *)
Fixpoint sightLoop (fuel : nat) (b : Board) (x y stepX stepY tx ty : Z)
  : Sight * list Position :=
  if negb (x =? tx) || negb (y =? ty) then
    match fuel with
    | O => (NoFuel, [])
    | S fuel' =>
        match readCell b (Position.mk x y) with
        | None => (OffBoard, [Position.mk x y])
        | Some (Some _) => (Seen false, [Position.mk x y])
        | Some None =>
            let '(r, seen) :=
              sightLoop fuel' b (x + stepX) (y + stepY) stepX stepY tx ty in
            (r, Position.mk x y :: seen)
        end
    end
  else (Seen true, []).

(** [dx === 0 ? 0 : dx / Math.abs(dx)] *)
Definition stepOf (d : Z) : Z := if d =? 0 then 0 else d / Z.abs d.

Definition sightTrace (b : Board) (from to : Position) : Sight * list Position :=
  let dx := Position.x to - Position.x from in
  let dy := Position.y to - Position.y from in
  let stepX := stepOf dx in
  let stepY := stepOf dy in
  sightLoop 7 b (Position.x from + stepX) (Position.y from + stepY)
            stepX stepY (Position.x to) (Position.y to).

Definition sightResult (b : Board) (from to : Position) : Sight :=
  fst (sightTrace b from to).

(** [hasLineOfSight] as the boolean the callers use. *)
Definition hasLineOfSight (b : Board) (from to : Position) : bool :=
  match sightResult b from to with Seen true => true | _ => false end.

Arguments hasLineOfSight : simpl never.

Arguments sightTrace : simpl never.

(** The delta test that guards the call of [hasLineOfSight] in the bishop,
    rook and queen branches of [isValidMove] ([&&] evaluates its right
    operand only when the left one is true). *)
Definition sightGuard (from to : Position) (piece : option SimplePiece) : bool :=
  let dx := Z.abs (Position.x from - Position.x to) in
  let dy := Position.y to - Position.y from in
  match piece with
  | Some SimplePiece.B => dx =? Z.abs dy
  | Some SimplePiece.R => (dx =? 0) || (Z.abs dy =? 0)
  | Some SimplePiece.Q => (dx =? Z.abs dy) || (dx =? 0) || (Z.abs dy =? 0)
  | _ => false
  end.

(** [isValidMove]; [piece] is the run-time value, which is [null] when the
    generator reads an empty square ([default: return false]). *)
Definition isValidMove (b : Board) (from to : Position)
           (piece : option SimplePiece) (isBackwardGeneration : bool) : bool :=
  let dx := Z.abs (Position.x from - Position.x to) in
  let dy := Position.y to - Position.y from in
  match piece with
  | Some SimplePiece.P =>
      if isBackwardGeneration then (dx =? 1) && (dy =? 1)
      else (dx =? 1) && (dy =? -1)
  | Some SimplePiece.N =>
      ((dx =? 2) && (Z.abs dy =? 1)) || ((dx =? 1) && (Z.abs dy =? 2))
  | Some SimplePiece.B =>
      (dx =? Z.abs dy) && hasLineOfSight b from to
  | Some SimplePiece.R =>
      ((dx =? 0) || (Z.abs dy =? 0)) && hasLineOfSight b from to
  | Some SimplePiece.Q =>
      ((dx =? Z.abs dy) || (dx =? 0) || (Z.abs dy =? 0))
      && hasLineOfSight b from to
  | Some SimplePiece.K => (dx <=? 1) && (Z.abs dy <=? 1)
  | None => false
  end.

(** ** JavaScript [Map] with integer-rendered keys

    Insertion-ordered: [set] on a present key updates the entry in place, on
    an absent key appends one. *)

Definition JsMap (V : Type) : Type := list (PieceId * V).

Fixpoint mapGet {V : Type} (m : JsMap V) (k : PieceId) : option V :=
  match m with
  | [] => None
  | (k', v) :: rest => if k' =? k then Some v else mapGet rest k
  end.

Fixpoint mapSet {V : Type} (m : JsMap V) (k : PieceId) (v : V) : JsMap V :=
  match m with
  | [] => [(k, v)]
  | (k', v') :: rest =>
      if k' =? k then (k', v) :: rest else (k', v') :: mapSet rest k v
  end.

(** ** Generator state *)

Record Generator : Type := mkGenerator {
  board : Board;
  solution : list Move;
  pieceCount : Z;
  moveCounts : JsMap Z;
  nextPieceId : Z;
  pieceLocations : JsMap Position;
  finalPiece : SimplePiece;
  lastUsedPiece : option SimplePiece;
  draws : N  (* calls of Math.random() made so far *)
}.

Definition withBoard (b : Board) (g : Generator) : Generator :=
  mkGenerator b (solution g) (pieceCount g) (moveCounts g) (nextPieceId g)
              (pieceLocations g) (finalPiece g) (lastUsedPiece g) (draws g).

Definition withSolution (l : list Move) (g : Generator) : Generator :=
  mkGenerator (board g) l (pieceCount g) (moveCounts g) (nextPieceId g)
              (pieceLocations g) (finalPiece g) (lastUsedPiece g) (draws g).

Definition withPieceCount (n : Z) (g : Generator) : Generator :=
  mkGenerator (board g) (solution g) n (moveCounts g) (nextPieceId g)
              (pieceLocations g) (finalPiece g) (lastUsedPiece g) (draws g).

Definition withMoveCounts (m : JsMap Z) (g : Generator) : Generator :=
  mkGenerator (board g) (solution g) (pieceCount g) m (nextPieceId g)
              (pieceLocations g) (finalPiece g) (lastUsedPiece g) (draws g).

Definition withNextPieceId (n : Z) (g : Generator) : Generator :=
  mkGenerator (board g) (solution g) (pieceCount g) (moveCounts g) n
              (pieceLocations g) (finalPiece g) (lastUsedPiece g) (draws g).

Definition withPieceLocations (m : JsMap Position) (g : Generator) : Generator :=
  mkGenerator (board g) (solution g) (pieceCount g) (moveCounts g)
              (nextPieceId g) m (finalPiece g) (lastUsedPiece g) (draws g).

Definition withFinalPiece (p : SimplePiece) (g : Generator) : Generator :=
  mkGenerator (board g) (solution g) (pieceCount g) (moveCounts g)
              (nextPieceId g) (pieceLocations g) p (lastUsedPiece g) (draws g).

Definition withLastUsedPiece (p : option SimplePiece) (g : Generator) : Generator :=
  mkGenerator (board g) (solution g) (pieceCount g) (moveCounts g)
              (nextPieceId g) (pieceLocations g) (finalPiece g) p (draws g).

Definition withDraws (n : N) (g : Generator) : Generator :=
  mkGenerator (board g) (solution g) (pieceCount g) (moveCounts g)
              (nextPieceId g) (pieceLocations g) (finalPiece g)
              (lastUsedPiece g) n.

(** ** Computations of the generator: state and exceptions *)

Inductive Error : Set :=
| InvalidPawnPlacement          (* 'Invalid pawn placement' *)
| InvalidFinalPiecePlacement    (* 'Invalid final piece placement' *)
| GenerationAttemptFailed       (* 'Generation attempt failed' *)
| CouldNotGenerate              (* 'Could not generate a valid puzzle after maximum attempts' *)
| TypeError.                    (* destructuring or dereferencing [undefined] *)

Inductive Result (A : Type) : Type :=
| Ok (a : A)
| Throw (e : Error).

Arguments Ok {A} a.

Arguments Throw {A} e.

Definition M (A : Type) : Type := Generator -> Result A * Generator.

Definition ret {A : Type} (a : A) : M A := fun g => (Ok a, g).

Definition bind {A B : Type} (m : M A) (f : A -> M B) : M B :=
  fun g =>
    match m g with
    | (Ok a, g') => f a g'
    | (Throw e, g') => (Throw e, g')
    end.

Definition throw {A : Type} (e : Error) : M A := fun g => (Throw e, g).

(** [try { m } catch (e) { h }] *)
Definition catch {A : Type} (m : M A) (h : Error -> M A) : M A :=
  fun g =>
    match m g with
    | (Ok a, g') => (Ok a, g')
    | (Throw e, g') => h e g'
    end.

Definition gets {A : Type} (f : Generator -> A) : M A := fun g => (Ok (f g), g).

Definition modify (f : Generator -> Generator) : M unit := fun g => (Ok tt, f g).

Declare Scope gen_scope.

Delimit Scope gen_scope with gen.

Notation "x <- m ;; k" := (bind m (fun x => k))
  (at level 61, m at next level, right associativity) : gen_scope.

Notation "m ;; k" := (bind m (fun _ => k))
  (at level 61, right associativity) : gen_scope.

Local Open Scope gen_scope.

(** [Math.floor] of a fraction. *)
Definition floor (q : number) : Z := Qfloor q.

(** [a < b] and [a <= b] on fractions. *)
Definition Qltb (a b : number) : bool := negb (Qle_bool b a).

Definition Qleb (a b : number) : bool := Qle_bool a b.

(** The value of the literal [0.3]: the double nearest to three tenths,
    5404319552844595 / 2^54. *)
Definition double_0_3 : number := 5404319552844595 # 18014398509481984.

(** [PIECE_WEIGHTS], in the key order of the object literal. *)
Definition PIECE_WEIGHTS : list (SimplePiece * number) :=
  [ (SimplePiece.K, 100%Q); (SimplePiece.P, 3%Q); (SimplePiece.N, 4%Q);
    (SimplePiece.B, 4%Q); (SimplePiece.R, 2%Q); (SimplePiece.Q, 1%Q) ].

Definition sameKind (p : SimplePiece) (o : option SimplePiece) : bool :=
  match o with Some q => SimplePiece.eqb p q | None => false end.

(** The weight table [getRandomPiece] builds with [filter] and [reduce]. *)
Definition weightsFor (excludeKing : bool) (lastUsed : option SimplePiece)
  : list (SimplePiece * number) :=
  map (fun pw : SimplePiece * number =>
         (fst pw, if sameKind (fst pw) lastUsed then (snd pw * (1 # 10))%Q
                  else snd pw))
      (filter (fun pw : SimplePiece * number =>
                 negb excludeKing || negb (SimplePiece.eqb (fst pw) SimplePiece.K))
              PIECE_WEIGHTS).

Definition totalWeight (weights : list (SimplePiece * number)) : number :=
  fold_left (fun sum w => (sum + w)%Q) (map snd weights) 0%Q.

(** The selection loop of [getRandomPiece]: the first kind at which the
    running value drops to zero or below; [None] when the loop falls
    through to the fallback. *)
Fixpoint pickWeighted (weights : list (SimplePiece * number)) (rnd : number)
  : option SimplePiece :=
  match weights with
  | [] => None
  | (p, w) :: rest =>
      let rnd' := (rnd - w)%Q in
      if Qleb rnd' 0%Q then Some p else pickWeighted rest rnd'
  end.

(** The squares in the order the nested [for] loops of
    [findValidCapturePosition] visit them: [y] outside, [x] inside. *)
Definition range8 : list Z := [0; 1; 2; 3; 4; 5; 6; 7].

Definition allSquares : list Position :=
  flat_map (fun y => map (fun x => Position.mk x y) range8) range8.

Definition isKingAt (b : Board) (pos : Position) : bool :=
  match readCell b pos with
  | Some (Some SimplePiece.K) => true
  | _ => false
  end.

(** [this.board[pos.y][pos.x] === null] *)
Definition isSquareEmpty (b : Board) (pos : Position) : bool :=
  match readCell b pos with
  | Some None => true
  | _ => false
  end.

Definition isPawn (piece : option SimplePiece) : bool :=
  match piece with Some SimplePiece.P => true | _ => false end.

(** The squares that pass the tests of the scan (not a king, empty, a valid
    backward move), before they are split in two arrays. *)
Definition reachableEmpty (b : Board) (from : Position)
           (piece : option SimplePiece) : list Position :=
  filter (fun to => negb (isKingAt b to) && isSquareEmpty b to
                    && isValidMove b from to piece true)
         allSquares.

Definition isPromotionSquare (piece : option SimplePiece) (to : Position) : bool :=
  isPawn piece && (Position.y to =? 0).

Definition promotionCandidates (b : Board) (from : Position)
           (piece : option SimplePiece) : list Position :=
  filter (isPromotionSquare piece) (reachableEmpty b from piece).

Definition candidates (b : Board) (from : Position)
           (piece : option SimplePiece) : list Position :=
  filter (fun to => negb (isPromotionSquare piece to)) (reachableEmpty b from piece).

Definition promotionPieces : list SimplePiece :=
  [SimplePiece.Q; SimplePiece.R; SimplePiece.B; SimplePiece.N].

(** [moveCounts.get(pieceId) || 0] *)
Definition moveCountOf (m : JsMap Z) (pieceId : PieceId) : Z :=
  match mapGet m pieceId with
  | Some n => n
  | None => 0
  end.

Definition hasExceededMoveLimit (g : Generator) (pieceId : PieceId) : bool :=
  2 <=? moveCountOf (moveCounts g) pieceId.

Definition incrementMoveCount (pieceId : PieceId) : M unit :=
  modify (fun g =>
    withMoveCounts
      (mapSet (moveCounts g) pieceId (moveCountOf (moveCounts g) pieceId + 1)) g).

Definition removePiece (position : Position) : M unit :=
  modify (fun g =>
    withPieceCount (pieceCount g - 1)
      (withBoard (writeCell (board g) position None) g)).

Definition setLocation (pieceId : PieceId) (pos : Position) : M unit :=
  modify (fun g =>
    withPieceLocations (mapSet (pieceLocations g) pieceId pos) g).

Definition generatePieceId : M PieceId :=
  fun g => (Ok (nextPieceId g), withNextPieceId (nextPieceId g + 1) g).

Definition placePiece (piece : SimplePiece) (position : Position) : M PieceId :=
  if SimplePiece.eqb piece SimplePiece.P && (Position.y position =? 0)
  then throw InvalidPawnPlacement
  else
    pieceId <- generatePieceId ;;
    modify (fun g => withBoard (writeCell (board g) position (Some piece)) g) ;;
    modify (fun g => withPieceCount (pieceCount g + 1) g) ;;
    modify (fun g => withMoveCounts (mapSet (moveCounts g) pieceId 0) g) ;;
    ret pieceId.

(** Forward replay of one move on the copy of the board. *)
Definition applyMove (boardCopy : Board) (move : Move) : Board :=
  writeCell (writeCell boardCopy (Move.to move) (Some (Move.piece move)))
            (Move.from move) None.

Definition cellIs (c : option Cell) (p : SimplePiece) : bool :=
  match c with
  | Some (Some q) => SimplePiece.eqb q p
  | _ => false
  end.

(** The [for] loop of [validateSolution]: [None] is an early [return false],
    [Some boardCopy] the copy after all moves.  Legality is asked of
    [isValidMove], which reads [this.board], not the copy. *)
Fixpoint validateMoves (thisBoard boardCopy : Board) (counts : JsMap Z)
         (moves : list Move) : option Board :=
  match moves with
  | [] => Some boardCopy
  | move :: rest =>
      let fromPiece := readCell boardCopy (Move.from move) in
      let toPiece := readCell boardCopy (Move.to move) in
      if negb (cellIs fromPiece (Move.piece move))
         || negb (cellIs toPiece (Move.captured move))
      then None
      else if negb (isValidMove thisBoard (Move.from move) (Move.to move)
                                (Some (Move.piece move)) false)
      then None
      else
        let moveCount := moveCountOf counts (Move.pieceId move) in
        if 2 <=? moveCount then None
        else validateMoves thisBoard (applyMove boardCopy move)
                           (mapSet counts (Move.pieceId move) (moveCount + 1))
                           rest
  end.

Definition validateBoards (thisBoard : Board) (moves : list Move) : bool :=
  match validateMoves thisBoard thisBoard [] moves with
  | None => false
  | Some boardCopy =>
      match remaining boardCopy with
      | [survivor] =>
          negb (hasKing thisBoard && negb (cellIs (Some survivor) SimplePiece.K))
      | _ => false
      end
  end.

Definition validateSolution (g : Generator) : bool :=
  validateBoards (board g) (solution g).

(** ** Operations that draw random numbers *)

Section Generation.

(** [random i] is the value of the [i]-th call of [Math.random()]. *)
Variable random : N -> number.

Definition Math_random : M number :=
  fun g => (Ok (random (draws g)), withDraws (N.succ (draws g)) g).

(** [Math.floor(Math.random() * n)] *)
Definition randomBelow (n : Z) : M Z :=
  r <- Math_random ;;
  ret (floor (r * inject_Z n)%Q).

(** [array[Math.floor(Math.random() * array.length)]], used where the code
    goes on to destructure or dereference the element: an index outside the
    array (no sample in [0,1) gives one) is a [TypeError]. *)
Definition randomElement {A : Type} (array : list A) : M A :=
  i <- randomBelow (Z.of_nat (length array)) ;;
  match index array i with
  | Some a => ret a
  | None => throw TypeError
  end.

Definition getRandomQuadrant : M Position :=
  quadrant <- randomBelow 4 ;;
  rx <- randomBelow 4 ;;
  let x := rx + (Z.rem quadrant 2) * 4 in
  ry <- randomBelow 4 ;;
  let y := ry + (quadrant / 2) * 4 in
  ret (Position.mk x y).

Definition randomPosition : M Position :=
  r <- Math_random ;;
  if Qltb r double_0_3 then getRandomQuadrant
  else
    x <- randomBelow 8 ;;
    y <- randomBelow 8 ;;
    ret (Position.mk x y).

Definition getRandomPiece (excludeKing : bool) : M SimplePiece :=
  lastUsed <- gets lastUsedPiece ;;
  let weights := weightsFor excludeKing lastUsed in
  r <- Math_random ;;
  match pickWeighted weights (r * totalWeight weights)%Q with
  | Some piece =>
      modify (withLastUsedPiece (Some piece)) ;;
      ret piece
  | None => ret SimplePiece.P   (* fallback *)
  end.

(** [promotionPieces[Math.floor(Math.random() * promotionPieces.length)]] *)
Definition randomPromotion : M (option SimplePiece) :=
  i <- randomBelow (Z.of_nat (length promotionPieces)) ;;
  ret (index promotionPieces i).

(** The result is [null] ([None]) or [{ position, promotedPiece? }]. *)
Definition findValidCapturePosition (from : Position)
           (piece : option SimplePiece)
  : M (option (Position * option SimplePiece)) :=
  b <- gets board ;;
  let cands := candidates b from piece in
  let promos := promotionCandidates b from piece in
  if isPawn piece && negb (length promos =? 0)%nat then
    position <- randomElement promos ;;
    promotedPiece <- randomPromotion ;;
    ret (Some (position, promotedPiece))
  else if (length cands =? 0)%nat && (length promos =? 0)%nat then ret None
  else
    position <- randomElement (cands ++ promos) ;;
    if isPawn piece && (Position.y position =? 0) then
      promotedPiece <- randomPromotion ;;
      ret (Some (position, promotedPiece))
    else ret (Some (position, None)).

(** The constructor; [None] is an omitted argument. *)
Definition fieldInitializers : Generator :=
  mkGenerator emptyBoard [] 0 [] 1 [] SimplePiece.P None 0.

Definition construct (finalPiece : option SimplePiece) : Generator :=
  match finalPiece with
  | Some p => withFinalPiece p fieldInitializers
  | None =>
      match getRandomPiece false fieldInitializers with
      | (Ok p, g) => withFinalPiece p g
      | (Throw _, g) => g
      end
  end.

(** The inner [while (placementAttempts < 20)] loop. *)
Fixpoint placementLoop (attemptsLeft : nat) : M unit :=
  match attemptsLeft with
  | O => ret tt
  | S attemptsLeft' =>
      newPos <- randomPosition ;;
      empty <- gets (fun g => isSquareEmpty (board g) newPos) ;;
      if empty then
        newPiece <- getRandomPiece true ;;
        newPieceId <- placePiece newPiece newPos ;;
        setLocation newPieceId newPos
      else placementLoop attemptsLeft'
  end.

Definition movablePieces (g : Generator) : list (PieceId * Position) :=
  filter (fun entry => negb (hasExceededMoveLimit g (fst entry)))
         (pieceLocations g).

Definition pushMove (move : Move) : M unit :=
  modify (fun g => withSolution (solution g ++ [move]) g).

(** The rest of the loop body once a capture square is found ("Update piece
    tracking" down to [this.solution.push]): the mover [current], known by
    [selectedPieceId], leaves [currentPos] for [position], and a new piece
    takes [currentPos]. *)
Definition relocate (selectedPieceId : PieceId) (currentPos : Position)
           (current : SimplePiece) (position : Position)
           (promotedPiece : option SimplePiece) : M unit :=
  removePiece currentPos ;;
  let movingPiece :=
    match promotedPiece with Some q => q | None => current end in
  _ <- placePiece movingPiece position ;;
  setLocation selectedPieceId position ;;
  incrementMoveCount selectedPieceId ;;
  newPiece <- getRandomPiece true ;;
  newPieceId <- placePiece newPiece currentPos ;;
  setLocation newPieceId currentPos ;;
  pushMove (Move.mk position currentPos newPiece movingPiece
                    selectedPieceId (negb (isNull promotedPiece))).

(** [this.board[currentPos.y][currentPos.x]!]: the value read, [null] also
    standing for a read outside the arrays (the positions kept in
    [pieceLocations] are squares of the board). *)
Definition pieceAt (g : Generator) (pos : Position) : option SimplePiece :=
  match readCell (board g) pos with
  | Some c => c
  | None => None
  end.

(** One pass through the body of the loop
    [while (this.pieceCount < numPieces && localAttempts < maxLocalAttempts)];
    each [continue] ends the pass.  A capture result comes with a non-null
    [currentPiece] ([findValidCapturePosition] finds no square for [null]),
    so the remaining combination is a [continue] as well. *)
Definition localIteration : M unit :=
  movable <- gets movablePieces ;;
  if (length movable =? 0)%nat then placementLoop 20
  else
    selected <- randomElement movable ;;
    let '(selectedPieceId, currentPos) := selected in
    currentPiece <- gets (fun g => pieceAt g currentPos) ;;
    captureResult <- findValidCapturePosition currentPos currentPiece ;;
    match captureResult, currentPiece with
    | Some (position, promotedPiece), Some current =>
        relocate selectedPieceId currentPos current position promotedPiece
    | _, _ => ret tt
    end.

(** The inner loop, with [attemptsLeft = maxLocalAttempts - localAttempts]. *)
Fixpoint localLoop (numPieces : Z) (attemptsLeft : nat) : M unit :=
  fun g =>
    if pieceCount g <? numPieces then
      match attemptsLeft with
      | O => (Ok tt, g)
      | S attemptsLeft' =>
          (localIteration ;; localLoop numPieces attemptsLeft') g
      end
    else (Ok tt, g).

Definition maxGlobalAttempts : nat := Z.to_nat 10000.

Definition maxLocalAttempts : nat := 100.

Arguments maxGlobalAttempts : simpl never.

Arguments maxLocalAttempts : simpl never.

(** "Reset everything for a fresh attempt": the six assignments at the top
    of the outer loop. *)
Definition resetAttempt (g : Generator) : Generator :=
  mkGenerator emptyBoard [] 0 [] 1 (pieceLocations g) (finalPiece g) None
              (draws g).

(** The body of the [try] block. *)
Definition attemptBody (numPieces : Z) : M unit :=
  finalPosition <- randomPosition ;;
  final <- gets finalPiece ;;
  if SimplePiece.eqb final SimplePiece.P
     && ((Position.y finalPosition =? 0) || (Position.y finalPosition =? 7))
  then throw InvalidFinalPiecePlacement
  else
    finalPieceId <- placePiece final finalPosition ;;
    setLocation finalPieceId finalPosition ;;
    localLoop numPieces maxLocalAttempts ;;
    count <- gets pieceCount ;;
    if count =? numPieces then
      modify (fun g => withSolution (rev (solution g)) g) ;;
      valid <- gets validateSolution ;;
      if valid then ret tt   (* Success! *)
      else throw GenerationAttemptFailed
    else throw GenerationAttemptFailed.

(** One global attempt: the reset, then the [try] block. *)
Definition attempt (numPieces : Z) : M unit :=
  modify resetAttempt ;; attemptBody numPieces.

(** The outer loop, with [attemptsLeft = maxGlobalAttempts - globalAttempts];
    the [catch] clause turns every exception of the [try] block into the
    next pass. *)
Fixpoint generateLoop (numPieces : Z) (attemptsLeft : nat) : M unit :=
  match attemptsLeft with
  | O => throw CouldNotGenerate
  | S attemptsLeft' =>
      catch (attempt numPieces)
            (fun _ => generateLoop numPieces attemptsLeft')
  end.

Definition generate (numPieces : Z) : M unit :=
  generateLoop numPieces maxGlobalAttempts.

End Generation.

(** ** Serialization *)

Local Open Scope string_scope.

(** [n.toString()] of an integer. *)
Definition toString (n : Z) : string := NilZero.string_of_int (Z.to_int n).

(** [String.fromCharCode(code)] for a code below 256 (the files of the
    board are 97 to 104). *)
Definition fromCharCode (code : Z) : string :=
  String (ascii_of_N (Z.to_N code)) EmptyString.

Definition positionToAlgebraic (pos : Position) : string :=
  let file := fromCharCode (97 + Position.x pos) in
  let rank := toString (8 - Position.y pos) in
  file ++ rank.

(** [s[0]] inside a template literal. *)
Definition firstChar (s : string) : string :=
  match s with
  | String c _ => String c EmptyString
  | EmptyString => "undefined"
  end.

(** A kind inside a template literal. *)
Definition kindString (p : SimplePiece) : string :=
  String (SimplePiece.letter p) EmptyString.

(** The callback of [this.solution.map] in [getSolution]. *)
Definition notationOf (move : Move) : string :=
  let from := positionToAlgebraic (Move.from move) in
  let to := positionToAlgebraic (Move.to move) in
  if SimplePiece.eqb (Move.piece move) SimplePiece.P then
    let notation := firstChar from ++ "x" ++ to in
    if Move.wasPromotion move
    then notation ++ "=" ++ kindString (Move.piece move)
    else notation
  else kindString (Move.piece move) ++ from ++ "x" ++ to.

Definition getSolution (g : Generator) : list string :=
  map notationOf (solution g).

(** [cell ? cell : '1'] *)
Definition cellString (c : Cell) : string :=
  match c with
  | Some p => kindString p
  | None => "1"
  end.

(** [row.map(cell => cell ? cell : '1').join('')] *)
Definition rowString (row : list Cell) : string :=
  String.concat EmptyString (map cellString row).

(** The text a run of [run] ones is replaced by ([match.length.toString()]);
    no run, no text. *)
Definition runText (run : nat) : string :=
  match run with
  | O => EmptyString
  | S _ => toString (Z.of_nat run)
  end.

(** [s.replace(/1+/g, match => match.length.toString())], scanning [s] with
    the length of the run of ones read so far. *)
Fixpoint replaceRuns (run : nat) (s : string) : string :=
  match s with
  | EmptyString => runText run
  | String c rest =>
      if Ascii.eqb c "1" then replaceRuns (S run) rest
      else runText run ++ String c (replaceRuns O rest)
  end.

Definition rankString (row : list Cell) : string :=
  replaceRuns 0 (rowString row).

Definition getFEN (g : Generator) : string :=
  String.concat "/" (map rankString (board g)).

(** [s.split(sep)] for a separator of one character. *)
Fixpoint split (sep : ascii) (s : string) : list string :=
  match s with
  | EmptyString => [EmptyString]
  | String c rest =>
      if Ascii.eqb c sep then EmptyString :: split sep rest
      else match split sep rest with
           | head :: tail => String c head :: tail
           | [] => [String c EmptyString]
           end
  end.

(** [parseInt(char)] of one character: [None] is [NaN]. *)
Definition parseInt (char : ascii) : option Z :=
  let n := Z.of_N (N_of_ascii char) in
  if ((48 <=? n) && (n <=? 57))%Z then Some (n - 48)%Z else None.

Module TrackedPiece.

Record t : Set := mk { id : string; type : ascii }.

End TrackedPiece.

Abbreviation TrackedPiece := TrackedPiece.t.

(** The [for (const char of row)] loop of [fenToBoard]: the cells of one
    row and the piece counter after it. *)
Fixpoint rowCells (pieceCounter : Z) (row : string)
  : list (option TrackedPiece) * Z :=
  match row with
  | EmptyString => ([], pieceCounter)
  | String char rest =>
      match parseInt char with
      | None =>
          let '(cells, counter) := rowCells (pieceCounter + 1)%Z rest in
          (Some (TrackedPiece.mk ("piece_" ++ toString pieceCounter) char)
             :: cells, counter)
      | Some n =>
          let '(cells, counter) := rowCells pieceCounter rest in
          ((repeat None (Z.to_nat n) ++ cells)%list, counter)
      end
  end.

(** [rows.map(row => ...)] with the counter shared by the rows. *)
Fixpoint rowsCells (pieceCounter : Z) (rows : list string)
  : list (list (option TrackedPiece)) :=
  match rows with
  | [] => []
  | row :: rest =>
      let '(cells, counter) := rowCells pieceCounter row in
      cells :: rowsCells counter rest
  end.

Definition fenToBoard (fen : string) : list (list (option TrackedPiece)) :=
  let rows := split "/" (hd EmptyString (split " " fen)) in
  rowsCells 0 rows.

Local Close Scope string_scope.

(** ** The Double Strike page (double-strike-chess.tsx)

    The helpers of the page and its callbacks, as functions of the game
    state.  Strings are sequences of code units below 256; a number that
    may be [NaN] is an [option Z]. *)

Local Open Scope string_scope.

(** [Piece] of react-chessboard: 'wP', 'wB', ..., 'bK'. *)
Module Piece.

Inductive Color : Set := White | Black.

Record t : Set := mk { color : Color; kind : SimplePiece }.

Definition toString (piece : t) : string :=
  String (match color piece with White => "w" | Black => "b" end)%char
         (String (SimplePiece.letter (kind piece)) EmptyString).

End Piece.

Abbreviation Piece := Piece.t.

(** [c.toUpperCase()] of an ASCII character and [c.toLowerCase()] of a
    character below 256. *)
Definition toUpperCase (c : ascii) : ascii :=
  let n := N_of_ascii c in
  if ((97 <=? n) && (n <=? 122))%N then ascii_of_N (n - 32) else c.

Definition toLowerCase (c : ascii) : ascii :=
  let n := N_of_ascii c in
  if (((65 <=? n) && (n <=? 90))
      || ((192 <=? n) && (n <=? 222) && negb (n =? 215)))%N
  then ascii_of_N (n + 32) else c.

(** [piece.split('')[1].toUpperCase()] (double-strike.ts); every [Piece]
    has two characters. *)
Definition pieceToSimplePiece (piece : Piece) : ascii :=
  match Piece.toString piece with
  | String _ (String c _) => toUpperCase c
  | _ => "?"%char
  end.

Module GameState.

Record t : Type := mk {
  board : list (list (option TrackedPiece));
  moveCount : list (string * Z)      (* Map<string, number>, insertion ordered *)
}.

End GameState.

Abbreviation GameState := GameState.t.

Module Page.

(** [Map.get] and [Map.set] on string keys. *)
Fixpoint get (m : list (string * Z)) (k : string) : option Z :=
  match m with
  | [] => None
  | (k', v) :: rest => if String.eqb k' k then Some v else get rest k
  end.

Fixpoint set (m : list (string * Z)) (k : string) (v : Z) : list (string * Z) :=
  match m with
  | [] => [(k, v)]
  | (k', v') :: rest =>
      if String.eqb k' k then (k', v) :: rest else (k', v') :: set rest k v
  end.

(** [moveCount.get(id) || 0] *)
Definition movesOf (m : list (string * Z)) (id : string) : Z :=
  match get m id with
  | Some n => n
  | None => 0%Z
  end.

(** [square.charCodeAt(0) - 97] and [8 - parseInt(square[1])]: the pair
    (x, y), each of them [NaN] when the character is missing or, for the
    rank, is not a digit. *)
Definition algebraicToPosition (square : string) : option Z * option Z :=
  let file :=
    match String.get 0 square with
    | Some c => Some (Z.of_N (N_of_ascii c) - 97)%Z
    | None => None
    end in
  let rank :=
    match String.get 1 square with
    | Some c => option_map (fun n => 8 - n)%Z (parseInt c)
    | None => None
    end in
  (file, rank).

(** [cell => { if (!cell) return '1'; return cell.type }] *)
Definition cellText (cell : option TrackedPiece) : string :=
  match cell with
  | None => "1"
  | Some piece => String (TrackedPiece.type piece) EmptyString
  end.

Definition positionToFen (board : list (list (option TrackedPiece)))
           (moveCount : list (string * Z)) : string :=
  String.concat "/"
    (map (fun row => replaceRuns 0 (String.concat EmptyString (map cellText row)))
         board).

(** The loop over the characters of a row in [isValidFen]. *)
Fixpoint countRow (count : Z) (row : string) : Z :=
  match row with
  | EmptyString => count
  | String char rest =>
      match parseInt char with
      | None => countRow (count + 1)%Z rest
      | Some n => countRow (count + n)%Z rest
      end
  end.

Definition inRange (lo hi c : ascii) : bool :=
  ((N_of_ascii lo <=? N_of_ascii c) && (N_of_ascii c <=? N_of_ascii hi))%N.

Fixpoint allChars (f : ascii -> bool) (s : string) : bool :=
  match s with
  | EmptyString => true
  | String c rest => f c && allChars f rest
  end.

(** [/^(-|[KQkqAHa-h]+)$/] *)
Definition castlingField (s : string) : bool :=
  String.eqb s "-"
  || (negb (String.eqb s EmptyString)
      && allChars (fun c => Ascii.eqb c "K" || Ascii.eqb c "Q" || Ascii.eqb c "k"
                            || Ascii.eqb c "q" || Ascii.eqb c "A" || Ascii.eqb c "H"
                            || inRange "a" "h" c) s).

(** [/^(-|[a-h][36])$/] *)
Definition enPassantField (s : string) : bool :=
  String.eqb s "-"
  || match s with
     | String f (String r EmptyString) =>
         inRange "a" "h" f && (Ascii.eqb r "3" || Ascii.eqb r "6")
     | _ => false
     end.

(** [/^\d+$/] *)
Definition digitsField (s : string) : bool :=
  negb (String.eqb s EmptyString) && allChars (inRange "0" "9") s.

Definition isValidFen (fen : string) : bool :=
  let parts := split " " fen in
  match parts with
  | [piecePlacement; turn; castling; enPassant; halfmove; fullmove] =>
      let rows := split "/" piecePlacement in
      if negb (length rows =? 8)%nat then false
      else
        let validPiecePlacement :=
          forallb (fun row => (countRow 0 row =? 8)%Z) rows in
        if negb validPiecePlacement then false
        else if negb (String.eqb turn "w") && negb (String.eqb turn "b") then false
        else if negb (castlingField castling) then false
        else if negb (enPassantField enPassant) then false
        else if negb (digitsField halfmove) then false
        else if negb (digitsField fullmove) then false
        else true
  | _ => false     (* parts.length !== 6 *)
  end.

(** [gameState.board.flat().filter(piece => piece !== null).length] *)
Definition remainingPieces (gs : GameState) : Z :=
  Z.of_nat (length (filter (fun piece : option TrackedPiece =>
                              match piece with Some _ => true | None => false end)
                           (concat (GameState.board gs)))).

(** The board handed to [positionToFen]: a piece that has moved twice is
    shown in lower case. *)
Definition positionFen (gs : GameState) : string :=
  positionToFen
    (map (map (fun cell : option TrackedPiece =>
                 match cell with
                 | None => None
                 | Some piece =>
                     if (2 <=? movesOf (GameState.moveCount gs) (TrackedPiece.id piece))%Z
                     then Some (TrackedPiece.mk (TrackedPiece.id piece)
                                  (toLowerCase (TrackedPiece.type piece)))
                     else Some piece
                 end))
         (GameState.board gs))
    (GameState.moveCount gs).

(** [s.padStart(2, '0')] *)
Definition padStart2 (s : string) : string :=
  match s with
  | EmptyString => "00"
  | String c EmptyString => String "0" s
  | _ => s
  end.

(** [formatTime] of a whole number of seconds. *)
Definition formatTime (seconds : Z) : string :=
  let minutes := (seconds / 60)%Z in
  let remainingSeconds := Z.rem seconds 60 in
  padStart2 (toString minutes) ++ ":" ++ padStart2 (toString remainingSeconds).

Local Close Scope string_scope.

(** [board[pos.y][pos.x]]: [RowMissing] when [board[pos.y]] is [undefined]
    (reading a cell of it is a [TypeError]), [Undefined] when the row has
    no such cell; a cell that is found comes with its square. *)
Inductive Lookup : Set :=
| RowMissing
| Undefined
| Found (pos : Position) (cell : option TrackedPiece).

Definition lookup (board : list (list (option TrackedPiece)))
           (pos : option Z * option Z) : Lookup :=
  match snd pos with
  | None => RowMissing
  | Some y =>
      match index board y with
      | None => RowMissing
      | Some row =>
          match fst pos with
          | None => Undefined
          | Some x =>
              match index row x with
              | None => Undefined
              | Some cell => Found (Position.mk x y) cell
              end
          end
      end
  end.

(** The [while] loop of the page's [hasLineOfSight]: a missing row is a
    [TypeError] ([OffBoard]), a missing cell is not [null] and blocks. *)
Fixpoint sightLoop (fuel : nat) (board : list (list (option TrackedPiece)))
         (x y stepX stepY tx ty : Z) : Sight :=
  if negb (x =? tx) || negb (y =? ty) then
    match fuel with
    | O => NoFuel
    | S fuel' =>
        match index board y with
        | None => OffBoard
        | Some row =>
            match index row x with
            | Some None =>
                sightLoop fuel' board (x + stepX) (y + stepY) stepX stepY tx ty
            | _ => Seen false
            end
        end
    end
  else Seen true.

(** A number of passes the loop cannot exceed on [board]: it goes on only
    over cells of the board, one step along a line at each pass. *)
Definition scanBound (board : list (list (option TrackedPiece))) : nat :=
  S (length board + length (concat board)).

Definition hasLineOfSight (from to : Position)
           (board : list (list (option TrackedPiece))) : Sight :=
  let dx := Position.x to - Position.x from in
  let dy := Position.y to - Position.y from in
  let stepX := stepOf dx in
  let stepY := stepOf dy in
  sightLoop (scanBound board) board
            (Position.x from + stepX) (Position.y from + stepY)
            stepX stepY (Position.x to) (Position.y to).

(** The scan as the value or the exception of the call. *)
Definition scanned (s : Sight) : Result bool :=
  match s with
  | Seen clear => Ok clear
  | OffBoard => Throw TypeError
  | NoFuel => Throw TypeError     (* not reached: [scanBound] passes are enough *)
  end.

Definition isValidMove (from to : Position) (piece : ascii)
           (board : list (list (option TrackedPiece))) : Result bool :=
  let dx := Z.abs (Position.x from - Position.x to) in
  let dy := Z.abs (Position.y from - Position.y to) in
  match index board (Position.y to) with
  | None => Throw TypeError
  | Some row =>
      let targetIsKing :=
        match index row (Position.x to) with
        | Some (Some targetPiece) => Ascii.eqb (TrackedPiece.type targetPiece) "K"
        | _ => false
        end in
      if targetIsKing then Ok false
      else if Ascii.eqb piece "P" then
        Ok ((dx =? 1) && (Position.y to - Position.y from =? -1))
      else if Ascii.eqb piece "N" then
        Ok (((dx =? 2) && (dy =? 1)) || ((dx =? 1) && (dy =? 2)))
      else if Ascii.eqb piece "B" then
        if dx =? dy then scanned (hasLineOfSight from to board) else Ok false
      else if Ascii.eqb piece "R" then
        if (dx =? 0) || (dy =? 0) then scanned (hasLineOfSight from to board)
        else Ok false
      else if Ascii.eqb piece "Q" then
        if (dx =? dy) || (dx =? 0) || (dy =? 0)
        then scanned (hasLineOfSight from to board)
        else Ok false
      else if Ascii.eqb piece "K" then Ok ((dx <=? 1) && (dy <=? 1))
      else Ok false
  end.

(** [newBoard[pos.y][pos.x] = v] on a cell that a lookup has found. *)
Definition store (board : list (list (option TrackedPiece))) (pos : Position)
           (v : option TrackedPiece) : list (list (option TrackedPiece)) :=
  match nth_error board (Z.to_nat (Position.y pos)) with
  | Some row =>
      setNth board (Z.to_nat (Position.y pos))
             (setNth row (Z.to_nat (Position.x pos)) v)
  | None => board
  end.

(** [onPieceDrop]: the value returned and the game state after the call
    ([setGameState] is called only on the path that returns [true]). *)
Definition onPieceDrop (sourceSquare targetSquare : string) (piece : Piece)
           (gs : GameState) : Result (bool * GameState) :=
  let fromPos := algebraicToPosition sourceSquare in
  let toPos := algebraicToPosition targetSquare in
  match lookup (GameState.board gs) fromPos with
  | RowMissing => Throw TypeError
  | source =>
      match lookup (GameState.board gs) toPos with
      | RowMissing => Throw TypeError
      | target =>
          match target, source with
          | Found to (Some targetPiece), Found from (Some sourcePiece) =>
              let currentMoves :=
                movesOf (GameState.moveCount gs) (TrackedPiece.id sourcePiece) in
              if 2 <=? currentMoves then Ok (false, gs)
              else
                match isValidMove from to (TrackedPiece.type sourcePiece)
                                  (GameState.board gs) with
                | Throw e => Throw e
                | Ok false => Ok (false, gs)
                | Ok true =>
                    let newPiece :=
                      TrackedPiece.mk (TrackedPiece.id sourcePiece)
                                      (pieceToSimplePiece piece) in
                    let newBoard :=
                      store (store (GameState.board gs) to (Some newPiece)) from None in
                    let newMoveCount :=
                      set (GameState.moveCount gs) (TrackedPiece.id sourcePiece)
                          (currentMoves + 1) in
                    Ok (true, GameState.mk newBoard newMoveCount)
                end
          | _, _ => Ok (false, gs)      (* !targetPiece || !sourcePiece *)
          end
      end
  end.

(** [newBoard[pos.y][pos.x] = v] where no lookup came first: a missing row
    is a [TypeError]; a write that would add a cell or a property to the
    row is outside the model (the boards of the page are rows of eight
    cells). *)
Inductive Stored : Type :=
| Written (board : list (list (option TrackedPiece)))
| StoreRowMissing
| StoreOutOfRow.

Definition storeAt (board : list (list (option TrackedPiece)))
           (pos : option Z * option Z) (v : option TrackedPiece) : Stored :=
  match snd pos with
  | None => StoreRowMissing
  | Some y =>
      match index board y with
      | None => StoreRowMissing
      | Some row =>
          match fst pos with
          | None => StoreOutOfRow
          | Some x =>
              match index row x with
              | None => StoreOutOfRow
              | Some _ => Written (store board (Position.mk x y) v)
              end
          end
      end
  end.

(** [!s] of a string. *)
Definition isEmptyString (s : string) : bool :=
  match s with EmptyString => true | String _ _ => false end.

(** [onPromotionPieceSelect]; [None] is an argument left out and, as the
    result, a write that leaves the model. *)
Definition onPromotionPieceSelect (piece : option Piece)
           (sourceSquare targetSquare : option string) (gs : GameState)
  : option (Result (bool * GameState)) :=
  match piece, sourceSquare, targetSquare with
  | Some piece, Some sourceSquare, Some targetSquare =>
      if isEmptyString sourceSquare || isEmptyString targetSquare
      then Some (Ok (false, gs))
      else
        let fromPos := algebraicToPosition sourceSquare in
        let toPos := algebraicToPosition targetSquare in
        match lookup (GameState.board gs) fromPos with
        | RowMissing => Some (Throw TypeError)
        | Found from (Some sourcePiece) =>
            let promotedPiece :=
              TrackedPiece.mk (TrackedPiece.id sourcePiece) (pieceToSimplePiece piece) in
            match storeAt (GameState.board gs) toPos (Some promotedPiece) with
            | StoreRowMissing => Some (Throw TypeError)
            | StoreOutOfRow => None
            | Written newBoard =>
                let currentMoves :=
                  movesOf (GameState.moveCount gs) (TrackedPiece.id sourcePiece) in
                Some (Ok (true,
                          GameState.mk
                            (store newBoard from None)
                            (set (GameState.moveCount gs)
                               (TrackedPiece.id sourcePiece) (currentMoves + 1))))
            end
        | _ => Some (Ok (false, gs))
        end
  | _, _, _ => Some (Ok (false, gs))
  end.

(** [square[1] === c] *)
Definition rankIs (square : string) (c : ascii) : bool :=
  match String.get 1 square with
  | Some r => Ascii.eqb r c
  | None => false
  end.

(** [piece === 'wP'] *)
Definition isWhitePawn (piece : Piece) : bool :=
  match Piece.color piece, Piece.kind piece with
  | Piece.White, SimplePiece.P => true
  | _, _ => false
  end.

Definition onPromotionCheck (sourceSquare targetSquare : string) (piece : Piece)
           (gs : GameState) : Result bool :=
  if isEmptyString sourceSquare || isEmptyString targetSquare then Ok false
  else
    let fromPos := algebraicToPosition sourceSquare in
    let toPos := algebraicToPosition targetSquare in
    match lookup (GameState.board gs) toPos with
    | RowMissing => Throw TypeError
    | Found to (Some targetPiece) =>
        match lookup (GameState.board gs) fromPos with
        | RowMissing => Throw TypeError
        | Found from (Some sourcePiece) =>
            let currentMoves :=
              movesOf (GameState.moveCount gs) (TrackedPiece.id sourcePiece) in
            if 2 <=? currentMoves then Ok false
            else
              let dx := Z.abs (Position.x from - Position.x to) in
              if negb (dx =? 1) then Ok false
              else if isWhitePawn piece && rankIs sourceSquare "7"
                      && rankIs targetSquare "8"
              then Ok true
              else Ok false
        | _ => Ok false
        end
    | _ => Ok false
    end.

Definition isDraggablePiece (sourceSquare : string) (gs : GameState) : Result bool :=
  if remainingPieces gs =? 1 then Ok false
  else
    match lookup (GameState.board gs) (algebraicToPosition sourceSquare) with
    | RowMissing => Throw TypeError
    | Found _ (Some sourcePiece) =>
        Ok (movesOf (GameState.moveCount gs) (TrackedPiece.id sourcePiece) <? 2)
    | _ => Ok false
    end.

(** [Math.floor(Math.random() * (range[1] - range[0] + 1)) + range[0]] in
    [generateNewPuzzle], for the sample [r]. *)
Definition randomPieceCount (r : number) (pieceCountRange : Z * Z) : Z :=
  floor (r * inject_Z (snd pieceCountRange - fst pieceCountRange + 1))%Q
  + fst pieceCountRange.

Definition MIN_PIECE_COUNT : Z := 3.

Definition MAX_PIECE_COUNT : Z := 27.

Local Open Scope string_scope.

(** [generateNewPuzzle]: [None] when [generate] raises (a notification is
    shown and the state is left as it is), otherwise the new FEN, the new
    solution and the new game state.  The constructor, the piece count and
    [generate] draw from the same stream, in this order. *)
Definition generateNewPuzzle (random : N -> number) (pieceCountRange : Z * Z)
  : option (string * list string * GameState) :=
  let gen := construct random None in
  let count := randomPieceCount (random (draws gen)) pieceCountRange in
  match generate random count (withDraws (N.succ (draws gen)) gen) with
  | (Throw _, _) => None
  | (Ok _, gen') =>
      let newFen := getFEN gen' ++ " w - - 0 1" in
      Some (newFen, getSolution gen', GameState.mk (fenToBoard newFen) [])
  end.

(** [handleFenChange]: [None] when the FEN is refused (a notification is
    shown and the state is left as it is), otherwise the FEN kept as the
    original one and the new game state. *)
Definition handleFenChange (newFen : string) : option (string * GameState) :=
  let parts := split " " newFen in
  let newFen := if (length parts =? 1)%nat then newFen ++ " w - - 0 1" else newFen in
  if negb (isValidFen newFen) then None
  else Some (newFen, GameState.mk (fenToBoard newFen) []).

End Page.

Local Close Scope string_scope.

(** * Vocabulary of the properties *)

(** The first [k] attempts from [g] all fail. *)
Fixpoint attemptsFail (random : N -> number) (numPieces : Z) (k : nat)
         (g : Generator) : bool :=
  match k with
  | O => true
  | S k' =>
      match attempt random numPieces g with
      | (Ok _, _) => false
      | (Throw _, g') => attemptsFail random numPieces k' g'
      end
  end.

(** ** Counting and lines *)

(** Number of elements that satisfy a test, as an integer. *)
Definition countIf {A : Type} (f : A -> bool) (l : list A) : Z :=
  Z.of_nat (length (filter f l)).

Definition occupied (c : Cell) : bool := negb (isNull c).

(** Horizontal, vertical or diagonal offset. *)
Definition aligned (from to : Position) : Prop :=
  let dx := Position.x to - Position.x from in
  let dy := Position.y to - Position.y from in
  dx = 0 \/ dy = 0 \/ Z.abs dx = Z.abs dy.

(** Number of king steps from [from] to [to] along the line. *)
Definition distance (from to : Position) : Z :=
  Z.max (Z.abs (Position.x to - Position.x from))
        (Z.abs (Position.y to - Position.y from)).

(** The [k]-th square on the line from [from] towards [to]. *)
Definition squareAt (from to : Position) (k : Z) : Position :=
  Position.mk
    (Position.x from + k * Z.sgn (Position.x to - Position.x from))
    (Position.y from + k * Z.sgn (Position.y to - Position.y from)).

(** The squares strictly between [from] and [to]. *)
Definition intermediate (from to p : Position) : Prop :=
  exists k, 0 < k < distance from to /\ p = squareAt from to k.

(** ** Invariants of the generator state *)

(** Every entry of the ledger is 0, 1 or 2. *)
Definition ledgerOk (m : JsMap Z) : Prop :=
  forall id n, mapGet m id = Some n -> 0 <= n <= 2.

(** What every recorded move satisfies: the captured kind is not the king,
    both squares are on the board and they differ, and a move flagged as a
    promotion is not recorded with the pawn as its piece. *)
Definition moveOk (m : Move) : Prop :=
  Move.captured m <> SimplePiece.K
  /\ onBoard (Move.from m) /\ onBoard (Move.to m)
  /\ Move.from m <> Move.to m
  /\ (Move.wasPromotion m = true -> Move.piece m <> SimplePiece.P).

Record Inv (g : Generator) : Prop := mkInv {
  inv_board : wfBoard (board g);
  inv_ledger : ledgerOk (moveCounts g);
  inv_solution : Forall moveOk (solution g)
}.

(** The counter agrees with the board. *)
Definition Counted (g : Generator) : Prop :=
  wfBoard (board g) /\ pieceCount g = countPieces (board g).

(** What the drawing operations change: the draw counter and, for
    [getRandomPiece], the last kind drawn. *)
Definition drawn (g g' : Generator) : Prop :=
  exists n l, g' = withDraws n (withLastUsedPiece l g).

(** The states the mutators produce. *)
Definition placed (piece : SimplePiece) (position : Position) (g : Generator)
  : Generator :=
  withMoveCounts (mapSet (moveCounts g) (nextPieceId g) 0)
    (withPieceCount (pieceCount g + 1)
       (withBoard (writeCell (board g) position (Some piece))
          (withNextPieceId (nextPieceId g + 1) g))).

Definition removed (position : Position) (g : Generator) : Generator :=
  withPieceCount (pieceCount g - 1)
    (withBoard (writeCell (board g) position None) g).

Definition located (pieceId : PieceId) (pos : Position) (g : Generator)
  : Generator :=
  withPieceLocations (mapSet (pieceLocations g) pieceId pos) g.

Definition incremented (pieceId : PieceId) (g : Generator) : Generator :=
  withMoveCounts
    (mapSet (moveCounts g) pieceId (moveCountOf (moveCounts g) pieceId + 1)) g.

Definition pushed (move : Move) (g : Generator) : Generator :=
  withSolution (solution g ++ [move]) g.

Definition kingCell (c : Cell) : bool :=
  match c with Some SimplePiece.K => true | _ => false end.

(** Number of kings on a board. *)
Definition kingCount (b : Board) : Z := countIf kingCell (concat b).

(** What one pass, or one block of it, does to the invariants. *)
Definition okStep (g g' : Generator) : Prop :=
  (Inv g -> Inv g') /\ (Counted g -> Counted g')
  /\ kingCount (board g') <= kingCount (board g).

Definition errStep (g g' : Generator) : Prop :=
  (Inv g -> Inv g') /\ pieceCount g' <= pieceCount g
  /\ kingCount (board g') <= kingCount (board g).

Definition stepOutcome {A : Type} (g : Generator) (r : Result A * Generator) : Prop :=
  match r with
  | (Ok _, g') => okStep g g'
  | (Throw _, g') => errStep g g'
  end.

(** ** The forward validator *)

(** Forward replay of a move list. *)
Definition replay (b : Board) (moves : list Move) : Board :=
  fold_left applyMove moves b.

(** The tests one move has to pass in [validateSolution]. *)
Definition moveAccepted (thisBoard boardCopy : Board) (counts : JsMap Z)
           (move : Move) : bool :=
  cellIs (readCell boardCopy (Move.from move)) (Move.piece move)
  && cellIs (readCell boardCopy (Move.to move)) (Move.captured move)
  && isValidMove thisBoard (Move.from move) (Move.to move)
                 (Some (Move.piece move)) false
  && (moveCountOf counts (Move.pieceId move) <? 2).

(** Number of moves of a list made by one identity. *)
Definition moverCount (id : PieceId) (moves : list Move) : Z :=
  countIf (fun m => Move.pieceId m =? id) moves.

(** ** Attempts and [generate] *)

(** The test that ends [generate] with success. *)
Definition Accepted (numPieces : Z) (g : Generator) : Prop :=
  pieceCount g = numPieces /\ validateSolution g = true.

Definition inUnitInterval (random : N -> number) : Prop :=
  forall i, (0 <= random i)%Q /\ (random i < 1)%Q.

(** ** Reachable generator states *)

(** The states a generator object goes through: the state the constructor
    leaves, and from a reachable state the state after the reset at the top
    of the outer loop, after one pass of the inner loop, after one global
    attempt and after a whole call of [generate], whether they end normally
    or by an exception. *)
Inductive reachable (random : N -> number) : Generator -> Prop :=
| reach_construct (finalPiece : option SimplePiece) :
    reachable random (construct random finalPiece)
| reach_reset (g : Generator) :
    reachable random g -> reachable random (resetAttempt g)
| reach_iteration (g : Generator) :
    reachable random g -> reachable random (snd (localIteration random g))
| reach_attempt (numPieces : Z) (g : Generator) :
    reachable random g -> reachable random (snd (attempt random numPieces g))
| reach_generate (numPieces : Z) (g : Generator) :
    reachable random g -> reachable random (snd (generate random numPieces g)).

(** ** Choice of the final piece *)

(** What a uniform choice among six kinds would imply: no kind is the one
    chosen for every sample of an interval longer than one sixth. *)
Definition uniformFinalPiece : Prop :=
  forall (p : SimplePiece) (lo hi : number),
    (0 <= lo)%Q -> (hi < 1)%Q ->
    (forall random : N -> number,
        (lo <= random 0%N)%Q -> (random 0%N <= hi)%Q ->
        finalPiece (construct random None) = p) ->
    (hi - lo <= 1 # 6)%Q.

(** ** Call sites of [isValidMove] *)

(** A call of [isValidMove] made by the scan of [findValidCapturePosition]
    as [generate] runs it: the piece is the one read on [from], the square
    [to] is one of the 64, is not a king's and is empty. *)
Definition scanCall (g : Generator) (from to : Position)
           (piece : option SimplePiece) : Prop :=
  piece = pieceAt g from
  /\ In to allSquares
  /\ isKingAt (board g) to = false
  /\ isSquareEmpty (board g) to = true.

(** A call of [isValidMove] made by [validateSolution]: on a move of the
    stored solution. *)
Definition validatorCall (g : Generator) (from to : Position)
           (piece : option SimplePiece) : Prop :=
  exists m, In m (solution g)
            /\ from = Move.from m /\ to = Move.to m
            /\ piece = Some (Move.piece m).

(** ** Concrete runs *)

(** A stream of samples in the unit interval. *)
Definition sampleStream (i : N) : number :=
  Qmake ((Z.of_N i * Z.of_N i * 7919 + Z.of_N i * 104729 + 4242) mod 1009)
        1009.

(** The stream that gives the listed samples and then 0 for ever. *)
Definition streamOf (samples : list number) (i : N) : number :=
  nth (N.to_nat i) samples 0%Q.

(** A generator whose final piece is the king, and the puzzle of three
    pieces it generates from [sampleStream]. *)
Definition kingGenerator : Generator :=
  construct sampleStream (Some SimplePiece.K).

Definition samplePuzzle : Generator :=
  snd (generate sampleStream 3 kingGenerator).

(** The stream whose samples are all 0. *)
Definition zeroStream : N -> number := streamOf [].

(** A puzzle of six pieces with a queen as final piece; its fourth move is
    the queen going from d6 to f6. *)
Definition queenPuzzle : Generator :=
  snd (generate sampleStream 6 (construct sampleStream (Some SimplePiece.Q))).

Definition queenSlide : Move :=
  Move.mk (Position.mk 3 2) (Position.mk 5 2) SimplePiece.N SimplePiece.Q 1 false.

(** ** State carried from one attempt to the next *)

(** The samples of a run of [generate 3] with a knight as final piece in
    which the first attempt fails on a pawn placed on the top rank. *)
Definition staleStream : N -> number :=
  streamOf [1 # 2; 1 # 8; 0; 0; 0; 2 # 5; 1 # 2; 0; 0;
            1 # 2; 7 # 8; 7 # 8; 1 # 2; 3 # 5]%Q.

Definition knightGenerator : Generator :=
  construct staleStream (Some SimplePiece.N).

(** The state at the top of the second pass of the outer loop, after the
    reset. *)
Definition secondAttemptStart : Generator :=
  resetAttempt (snd (attempt staleStream 3 knightGenerator)).

(** ** Labels and pieces *)

(** The number of moves of a list made by the piece that stands on [pos]
    before the first of them: the piece is followed from square to square
    until it is captured. *)
Fixpoint movesOfPieceAt (pos : Position) (moves : list Move) : Z :=
  match moves with
  | [] => 0
  | m :: rest =>
      if Position.eqb (Move.from m) pos then 1 + movesOfPieceAt (Move.to m) rest
      else if Position.eqb (Move.to m) pos then 0
      else movesOfPieceAt pos rest
  end.

(** The values of [onPieceDrop] when the moves of a list are played on the
    page in order, each with a white piece of the mover's kind; a call
    that raises ends the list. *)
Fixpoint dropResults (moves : list Move) (gs : GameState) : list bool :=
  match moves with
  | [] => []
  | m :: rest =>
      match Page.onPieceDrop (positionToAlgebraic (Move.from m))
                             (positionToAlgebraic (Move.to m))
                             (Piece.mk Piece.White (Move.piece m)) gs with
      | Ok (r, gs') => r :: dropResults rest gs'
      | Throw _ => []
      end
  end.

(** The samples of a run of [generate 5] with a knight as final piece, in
    256ths: the first attempt uses 16 of them and fails at the acceptance
    test, the second uses 19 and succeeds. *)
Definition thirdMoveStream : N -> number :=
  streamOf (map (fun k : Z => Qmake k 256)
                [58; 117; 175; 234; 36; 95; 153; 212; 14; 73; 131; 190; 249; 51;
                 110; 168; 227; 29; 88; 146; 205; 7; 66; 124; 183; 242; 44; 103;
                 161; 220; 22; 81; 139; 198; 0]).

Definition thirdMoveStart : Generator :=
  construct thirdMoveStream (Some SimplePiece.N).

Definition thirdMovePuzzle : Generator :=
  snd (generate thirdMoveStream 5 thirdMoveStart).

(** ** State left by a run that fails *)

(** The samples of a run of [generate 3] with a pawn as final piece in
    which every attempt fails: 0 for the 39996 draws of the first 9999
    attempts (four draws each, the pawn lands on the top rank), then 1/2,
    3/8 and 3/4 (the pawn lands on d2), and 0 from there on. *)
Definition lateStream (i : N) : number :=
  if (i <? 39996)%N then 0%Q
  else streamOf [1 # 2; 3 # 8; 3 # 4]%Q (i - 39996)%N.

Definition pawnGenerator : Generator :=
  construct lateStream (Some SimplePiece.P).

Definition failedRun : Generator :=
  snd (generate lateStream 3 pawnGenerator).

(** ** Squares, ranks and decoded boards *)

Local Open Scope string_scope.

(** Names of files, ranks and squares in algebraic notation, with [y = 0]
    the eighth rank. *)
Definition fileName (x : Z) : string :=
  nth (Z.to_nat x) ["a"; "b"; "c"; "d"; "e"; "f"; "g"; "h"] EmptyString.

Definition rankName (y : Z) : string :=
  nth (Z.to_nat y) ["8"; "7"; "6"; "5"; "4"; "3"; "2"; "1"] EmptyString.

Definition squareName (pos : Position) : string :=
  fileName (Position.x pos) ++ rankName (Position.y pos).

(** The notation of a pawn's capture: the file of the source, an x and the
    destination square, followed by [=] and the kind promoted to exactly
    when the move is flagged as a promotion. *)
Definition pawnNotation (move : Move) (promoted : SimplePiece) : string :=
  fileName (Position.x (Move.from move)) ++ "x" ++ squareName (Move.to move)
  ++ (if Move.wasPromotion move then "=" ++ kindString promoted else EmptyString).

(** The notation of the capture made by another piece: its kind, the
    source square, an x and the destination square. *)
Definition pieceNotation (move : Move) : string :=
  kindString (Move.piece move) ++ squareName (Move.from move) ++ "x"
  ++ squareName (Move.to move).



(** The kinds on a decoded board. *)
Definition typesOf (b : list (list (option TrackedPiece)))
  : list (list (option ascii)) :=
  map (map (option_map TrackedPiece.type)) b.

Definition lettersOf (b : Board) : list (list (option ascii)) :=
  map (map (option_map SimplePiece.letter)) b.

(** The squares a rank string describes: a letter is a piece, a digit that
    many empty squares. *)
Fixpoint expandRank (rank : string) : list (option ascii) :=
  match rank with
  | EmptyString => []
  | String char rest =>
      match parseInt char with
      | None => Some char :: expandRank rest
      | Some n => (repeat None (Z.to_nat n) ++ expandRank rest)%list
      end
  end.

(** Letters counted once and digits by their value. *)
Fixpoint rankWidth (rank : string) : Z :=
  match rank with
  | EmptyString => 0
  | String char rest =>
      match parseInt char with
      | None => (1 + rankWidth rest)%Z
      | Some n => (n + rankWidth rest)%Z
      end
  end.

(** No digit is 0 and no digit follows a digit: every run of empty squares
    is written once, whole. *)
Fixpoint runsWhole (afterDigit : bool) (rank : string) : bool :=
  match rank with
  | EmptyString => true
  | String char rest =>
      match parseInt char with
      | None => runsWhole false rest
      | Some n => negb afterDigit && (0 <? n)%Z && runsWhole true rest
      end
  end.

(** The characters of a string. *)
Fixpoint chars (s : string) : list ascii :=
  match s with
  | EmptyString => []
  | String c rest => c :: chars rest
  end.

(** The count the page makes of a decoded board:
    [board.flat().filter(piece => piece !== null).length]. *)
Definition decodedCount {A : Type} (b : list (list (option A))) : Z :=
  countIf (fun c => match c with Some _ => true | None => false end) (concat b).

Local Close Scope string_scope.

(** ** Vocabulary of the further properties *)

(** What a generator keeps apart from the counters: no pawn on row 0 of
    the board array, a king on the board only when the final piece is the
    king, no recorded move flagged as a promotion. *)
Record Plain (g : Generator) : Prop := mkPlain {
  plain_rank : forall pos, readCell (board g) pos = Some (Some SimplePiece.P) ->
                           Position.y pos <> 0;
  plain_king : finalPiece g = SimplePiece.K \/ kingCount (board g) = 0;
  plain_moves : Forall (fun m => Move.wasPromotion m = false) (solution g)
}.

(** Some tracked identity has moved fewer than two times. *)
Definition Movable (g : Generator) : Prop :=
  exists id pos, In (id, pos) (pieceLocations g)
                 /\ moveCountOf (moveCounts g) id < 2.

(** Within an attempt: playing the moves recorded so far, latest first,
    leads from the board to the board that holds the final piece alone, on
    [finalPosition]. *)
Record Retraces (finalPosition : Position) (g : Generator) : Prop := mkRetraces {
  retraces_board : wfBoard (board g);
  retraces_replay :
    replay (board g) (rev (solution g))
    = writeCell emptyBoard finalPosition (Some (finalPiece g));
  retraces_movable : Movable g
}.

(** Eight rows of eight cells. *)
Definition wfGrid {A : Type} (b : list (list A)) : Prop :=
  length b = 8%nat /\ Forall (fun row => length row = 8%nat) b.

(** The identities in a list of cells, and on a decoded board in reading
    order. *)
Definition idsIn (cells : list (option TrackedPiece)) : list string :=
  flat_map (fun cell : option TrackedPiece =>
              match cell with Some piece => [TrackedPiece.id piece] | None => [] end)
           cells.

Definition idsOf (b : list (list (option TrackedPiece))) : list string :=
  flat_map (fun cell : option TrackedPiece =>
              match cell with Some piece => [TrackedPiece.id piece] | None => [] end)
           (concat b).

Local Open Scope string_scope.

(** The identity [fenToBoard] gives to the piece it meets after [n] others. *)
Definition pieceName (n : nat) : string := "piece_" ++ toString (Z.of_nat n).

Local Close Scope string_scope.

(** The page's board shows the kinds of [b], cell by cell. *)
Definition mirrors (pb : list (list (option TrackedPiece))) (b : Board) : Prop :=
  typesOf pb = lettersOf b.

(** The cell of the page's board at a square: [None] outside the arrays. *)
Definition pageCell (pb : list (list (option TrackedPiece))) (pos : Position)
  : option (option TrackedPiece) :=
  match index pb (Position.y pos) with
  | Some row => index row (Position.x pos)
  | None => None
  end.

(** The cell holds a piece. *)
Definition isPiece (cell : option TrackedPiece) : bool :=
  match cell with Some _ => true | None => false end.

(** The character of a decimal digit. *)
Definition digitChar (n : Z) : ascii := ascii_of_N (Z.to_N (48 + n)).

(** Minutes and seconds on two digits each. *)
Definition clockText (seconds : Z) : string :=
  String (digitChar (seconds / 600))
    (String (digitChar ((seconds / 60) mod 10))
       (String ":"%char
          (String (digitChar ((seconds mod 60) / 10))
             (String (digitChar (seconds mod 10)) EmptyString)))).

(** A generator board with a piece wherever the page's board has one. *)
Definition shadow (pb : list (list (option TrackedPiece))) : Board :=
  map (map (option_map (fun _ : TrackedPiece => SimplePiece.Q))) pb.

(** No two cells of the page's board hold the same identity. *)
Definition distinctIds (pb : list (list (option TrackedPiece))) : Prop :=
  forall p q a c,
    pageCell pb p = Some (Some a) -> pageCell pb q = Some (Some c) ->
    TrackedPiece.id a = TrackedPiece.id c -> p = q.

(** [Square] of react-chessboard, the type of the squares the chessboard
    hands to the callbacks: a file from a to h and a rank from 1 to 8. *)
Definition isSquare (square : string) : bool :=
  match square with
  | String file (String rank EmptyString) =>
      Page.inRange "a" "h" file && Page.inRange "1" "8" rank
  | _ => false
  end.

(** A square that may be left out. *)
Definition isSquareOrUndefined (square : option string) : bool :=
  match square with
  | Some s => isSquare s
  | None => true
  end.

(** The game states the page goes through after loading [fen]: the
    decoded board with no move counted, and what a call of [onPieceDrop]
    or of [onPromotionPieceSelect] that returns leaves, the squares of the
    calls being squares of the chessboard. *)
Inductive played (fen : string) : GameState -> Prop :=
| played_start : played fen (GameState.mk (fenToBoard fen) [])
| played_drop (sourceSquare targetSquare : string) (piece : Piece)
              (gs gs' : GameState) (r : bool) :
    played fen gs ->
    isSquare sourceSquare = true -> isSquare targetSquare = true ->
    Page.onPieceDrop sourceSquare targetSquare piece gs = Ok (r, gs') ->
    played fen gs'
| played_promotion (piece : option Piece) (sourceSquare targetSquare : option string)
                   (gs gs' : GameState) (r : bool) :
    played fen gs ->
    isSquareOrUndefined sourceSquare = true ->
    isSquareOrUndefined targetSquare = true ->
    Page.onPromotionPieceSelect piece sourceSquare targetSquare gs
    = Some (Ok (r, gs')) ->
    played fen gs'.

(** ** The sample puzzle on the page *)

(** The two moves of the solution of [samplePuzzle]: the king takes the
    pawn on d4 and then the bishop on e4. *)
Definition kingTakesPawn : Move :=
  Move.mk (Position.mk 4 5) (Position.mk 3 4) SimplePiece.P SimplePiece.K 1 false.

Definition kingTakesBishop : Move :=
  Move.mk (Position.mk 3 4) (Position.mk 4 4) SimplePiece.B SimplePiece.K 1 false.

Definition whiteKing : Piece := Piece.mk Piece.White SimplePiece.K.

Definition whitePawn : Piece := Piece.mk Piece.White SimplePiece.P.

Definition whiteQueen : Piece := Piece.mk Piece.White SimplePiece.Q.

Local Open Scope string_scope.

(** The page showing [samplePuzzle] before any move, and after the king
    has been dropped on the pawn. *)
Definition samplePage : GameState :=
  GameState.mk (fenToBoard (getFEN samplePuzzle ++ " w - - 0 1")) [].

Definition afterKingTakesPawn : GameState :=
  GameState.mk
    (Page.store
       (Page.store (GameState.board samplePage) (Position.mk 3 4)
                   (Some (TrackedPiece.mk "piece_2" "K")))
       (Position.mk 4 5) None)
    [("piece_2", 1)].

(** A page with a white pawn on a7 and a king on b8. *)
Definition promotionPage : GameState :=
  GameState.mk (fenToBoard "1K6/P7/8/8/8/8/8/8 w - - 0 1") [].

(** The starting position of a game of chess. *)
Definition startingFen : string :=
  "rnbqkbnr/pppppppp/8/8/8/8/PPPPPPPP/RNBQKBNR w KQkq - 0 1".

Local Close Scope string_scope.

(** * Properties *)

(** ** Arrays and the board *)

Lemma kind_eqb_spec (a b : SimplePiece) : reflect (a = b) (SimplePiece.eqb a b).
Proof. destruct a, b; simpl; constructor; congruence. Qed.

Lemma pos_eqb_spec (p q : Position) : reflect (p = q) (Position.eqb p q).
Proof.
  destruct p as [a b], q as [c d]; unfold Position.eqb; simpl.
  destruct (Z.eqb_spec a c), (Z.eqb_spec b d); simpl; constructor; congruence.
Qed.

Lemma index_Some {A : Type} (a : list A) (i : Z) (v : A) :
  index a i = Some v -> 0 <= i < Z.of_nat (length a).
Proof.
  unfold index. destruct (Z.ltb_spec i 0); [discriminate|].
  intros H1. assert (Hn : nth_error a (Z.to_nat i) <> None) by congruence.
  apply nth_error_Some in Hn. lia.
Qed.

Lemma index_nth_error {A : Type} (a : list A) (i : Z) :
  0 <= i -> index a i = nth_error a (Z.to_nat i).
Proof. intros H. unfold index. destruct (Z.ltb_spec i 0); [lia|reflexivity]. Qed.

Lemma index_In {A : Type} (a : list A) (i : Z) (v : A) :
  index a i = Some v -> In v a.
Proof.
  unfold index. destruct (i <? 0); [discriminate|]. apply nth_error_In.
Qed.

Lemma setNth_length {A : Type} (a : list A) (i : nat) (v : A) :
  length (setNth a i v) = length a.
Proof.
  revert i; induction a as [|h t IH]; intros [|i]; simpl; auto.
Qed.

Lemma nth_error_setNth_eq {A : Type} (a : list A) (i : nat) (v : A) :
  (i < length a)%nat -> nth_error (setNth a i v) i = Some v.
Proof.
  revert i; induction a as [|h t IH]; intros [|i] H; simpl in *;
    try lia; auto. apply IH; lia.
Qed.

Lemma nth_error_setNth_neq {A : Type} (a : list A) (i j : nat) (v : A) :
  i <> j -> nth_error (setNth a i v) j = nth_error a j.
Proof.
  revert i j; induction a as [|h t IH]; intros [|i] [|j] H; simpl;
    try congruence; auto.
Qed.

Lemma setNth_Forall {A : Type} (P : A -> Prop) (a : list A) (i : nat) (v : A) :
  Forall P a -> P v -> Forall P (setNth a i v).
Proof.
  intros Ha Hv; revert i; induction Ha as [|h t Hh Ht IH]; intros [|i]; simpl;
    constructor; auto.
Qed.

Lemma countIf_nil {A : Type} (f : A -> bool) : countIf f [] = 0.
Proof. reflexivity. Qed.

Lemma countIf_cons {A : Type} (f : A -> bool) (a : A) (l : list A) :
  countIf f (a :: l) = Z.b2z (f a) + countIf f l.
Proof.
  unfold countIf; simpl. destruct (f a); simpl length; simpl Z.b2z; lia.
Qed.

Lemma countIf_app {A : Type} (f : A -> bool) (l1 l2 : list A) :
  countIf f (l1 ++ l2) = countIf f l1 + countIf f l2.
Proof.
  unfold countIf. rewrite filter_app, length_app. lia.
Qed.

Lemma countIf_nonneg {A : Type} (f : A -> bool) (l : list A) : 0 <= countIf f l.
Proof. unfold countIf; lia. Qed.

Lemma countIf_setNth {A : Type} (f : A -> bool) (l : list A) (i : nat)
      (old v : A) :
  nth_error l i = Some old ->
  countIf f (setNth l i v) = countIf f l - Z.b2z (f old) + Z.b2z (f v).
Proof.
  revert i; induction l as [|h t IH]; intros [|i] H; simpl in *;
    try discriminate.
  - injection H as ->. rewrite !countIf_cons. lia.
  - rewrite !countIf_cons, (IH _ H). lia.
Qed.

Lemma countIf_concat_setNth {A : Type} (f : A -> bool) (b : list (list A))
      (i : nat) (row row' : list A) :
  nth_error b i = Some row ->
  countIf f (concat (setNth b i row'))
  = countIf f (concat b) - countIf f row + countIf f row'.
Proof.
  revert i; induction b as [|h t IH]; intros [|i] H; simpl in *;
    try discriminate.
  - injection H as ->. rewrite !countIf_app. lia.
  - rewrite !countIf_app, (IH _ H). lia.
Qed.

Lemma countPieces_countIf b : countPieces b = countIf occupied (concat b).
Proof. reflexivity. Qed.

Lemma wfBoard_empty : wfBoard emptyBoard.
Proof. split; [reflexivity|]. repeat constructor. Qed.

Lemma wfBoard_writeCell b pos v : wfBoard b -> wfBoard (writeCell b pos v).
Proof.
  intros [Hl Hr]. unfold writeCell.
  destruct ((Position.y pos <? 0) || (Position.x pos <? 0)); [split; auto|].
  destruct (nth_error b (Z.to_nat (Position.y pos))) as [row|] eqn:Hrow;
    [|split; auto].
  destruct (Nat.ltb_spec (Z.to_nat (Position.x pos)) (length row));
    [|split; auto].
  split.
  - rewrite setNth_length; exact Hl.
  - apply setNth_Forall; auto. rewrite setNth_length.
    rewrite Forall_forall in Hr. apply Hr. eapply nth_error_In; eauto.
Qed.

Lemma readCell_onBoard b pos c :
  wfBoard b -> readCell b pos = Some c -> onBoard pos.
Proof.
  intros [Hl Hr] H. unfold readCell in H.
  destruct (index b (Position.y pos)) as [row|] eqn:Hrow; [|discriminate].
  pose proof (index_Some _ _ _ Hrow) as Hy.
  pose proof (index_Some _ _ _ H) as Hx.
  rewrite Forall_forall in Hr. rewrite (Hr row (index_In _ _ _ Hrow)) in Hx.
  rewrite Hl in Hy. unfold onBoard; lia.
Qed.

Lemma onBoard_readCell b pos :
  wfBoard b -> onBoard pos -> exists c, readCell b pos = Some c.
Proof.
  intros [Hl Hr] [Hx Hy]. unfold readCell.
  rewrite index_nth_error by lia.
  destruct (nth_error b (Z.to_nat (Position.y pos))) as [row|] eqn:Hrow.
  - rewrite index_nth_error by lia.
    rewrite Forall_forall in Hr. pose proof (Hr row (nth_error_In _ _ Hrow)) as Hlen.
    destruct (nth_error row (Z.to_nat (Position.x pos))) as [c|] eqn:Hc; eauto.
    apply nth_error_None in Hc. lia.
  - apply nth_error_None in Hrow. lia.
Qed.

Lemma readCell_writeCell_same b pos v c :
  readCell b pos = Some c -> readCell (writeCell b pos v) pos = Some v.
Proof.
  unfold readCell, writeCell, index. intros H.
  destruct (Z.ltb_spec (Position.y pos) 0); [discriminate|].
  destruct (nth_error b (Z.to_nat (Position.y pos))) as [row|] eqn:Hrow;
    [|discriminate].
  destruct (Z.ltb_spec (Position.x pos) 0); [discriminate|]. simpl.
  assert (Hx : (Z.to_nat (Position.x pos) < length row)%nat)
    by (apply nth_error_Some; congruence).
  destruct (Nat.ltb_spec (Z.to_nat (Position.x pos)) (length row)); [|lia].
  destruct (Z.ltb_spec (Position.y pos) 0); [lia|].
  rewrite nth_error_setNth_eq
    by (apply nth_error_Some; congruence).
  destruct (Z.ltb_spec (Position.x pos) 0); [lia|].
  apply nth_error_setNth_eq; auto.
Qed.

Lemma readCell_writeCell_other b pos v q :
  q <> pos -> readCell (writeCell b pos v) q = readCell b q.
Proof.
  intros Hne. unfold writeCell.
  destruct (Z.ltb_spec (Position.y pos) 0); [reflexivity|].
  destruct (Z.ltb_spec (Position.x pos) 0); [reflexivity|]. simpl.
  destruct (nth_error b (Z.to_nat (Position.y pos))) as [row|] eqn:Hrow;
    [|reflexivity].
  destruct (Nat.ltb_spec (Z.to_nat (Position.x pos)) (length row));
    [|reflexivity].
  unfold readCell, index.
  destruct (Z.ltb_spec (Position.y q) 0); [reflexivity|].
  destruct (Nat.eq_dec (Z.to_nat (Position.y pos)) (Z.to_nat (Position.y q)))
    as [Hy|Hy].
  - rewrite <- Hy, nth_error_setNth_eq, Hrow
      by (apply nth_error_Some; congruence).
    destruct (Z.ltb_spec (Position.x q) 0); [reflexivity|].
    apply nth_error_setNth_neq. intros Hx.
    apply Hne. destruct q as [qx qy], pos as [px py]; simpl in *.
    f_equal; lia.
  - rewrite nth_error_setNth_neq by exact Hy. reflexivity.
Qed.

Lemma countIf_writeCell (f : Cell -> bool) b pos v old :
  readCell b pos = Some old ->
  countIf f (concat (writeCell b pos v))
  = countIf f (concat b) - Z.b2z (f old) + Z.b2z (f v).
Proof.
  unfold readCell, writeCell, index. intros H.
  destruct (Z.ltb_spec (Position.y pos) 0); [discriminate|].
  destruct (nth_error b (Z.to_nat (Position.y pos))) as [row|] eqn:Hrow;
    [|discriminate].
  destruct (Z.ltb_spec (Position.x pos) 0); [discriminate|]. simpl.
  assert (Hx : (Z.to_nat (Position.x pos) < length row)%nat)
    by (apply nth_error_Some; congruence).
  destruct (Nat.ltb_spec (Z.to_nat (Position.x pos)) (length row)); [|lia].
  rewrite (countIf_concat_setNth _ _ _ _ _ Hrow).
  rewrite (countIf_setNth _ _ _ _ _ H). lia.
Qed.

Lemma countPieces_writeCell b pos v old :
  readCell b pos = Some old ->
  countPieces (writeCell b pos v)
  = countPieces b - Z.b2z (occupied old) + Z.b2z (occupied v).
Proof. intros H. rewrite !countPieces_countIf. apply countIf_writeCell; exact H. Qed.

Lemma readCell_empty pos : onBoard pos -> readCell emptyBoard pos = Some None.
Proof.
  intros Hon. destruct (onBoard_readCell _ _ wfBoard_empty Hon) as [c Hc].
  rewrite Hc. f_equal.
  unfold readCell in Hc.
  destruct (index emptyBoard (Position.y pos)) as [row|] eqn:Hrow;
    [|discriminate].
  apply index_In in Hrow. apply index_In in Hc.
  unfold emptyBoard in Hrow. apply repeat_spec in Hrow. subst row.
  apply repeat_spec in Hc. exact Hc.
Qed.

Lemma countPieces_empty : countPieces emptyBoard = 0.
Proof. reflexivity. Qed.

(** ** Line of sight *)

Lemma stepOf_sgn d : stepOf d = Z.sgn d.
Proof.
  unfold stepOf. destruct d as [|p|p]; simpl Z.eqb; cbv iota; simpl Z.abs.
  - reflexivity.
  - apply Z.div_same; discriminate.
  - change (Z.neg p) with ((-1) * Z.pos p).
    rewrite Z.div_mul by discriminate. reflexivity.
Qed.

Lemma sightLoop_unfold (fuel : nat) (b : Board) (x y stepX stepY tx ty : Z) :
  sightLoop fuel b x y stepX stepY tx ty
  = if negb (x =? tx) || negb (y =? ty) then
      match fuel with
      | O => (NoFuel, [])
      | S fuel' =>
          match readCell b (Position.mk x y) with
          | None => (OffBoard, [Position.mk x y])
          | Some (Some _) => (Seen false, [Position.mk x y])
          | Some None =>
              let '(r, seen) :=
                sightLoop fuel' b (x + stepX) (y + stepY) stepX stepY tx ty in
              (r, Position.mk x y :: seen)
          end
      end
    else (Seen true, []).
Proof. destruct fuel; reflexivity. Qed.

Lemma sightLoop_spec (n : nat) :
  forall (fuel : nat) (b : Board) (x y sx sy : Z),
    wfBoard b ->
    (sx <> 0 \/ sy <> 0) ->
    (n <= fuel)%nat ->
    (forall k, 0 <= k < Z.of_nat n -> onBoard (Position.mk (x + k * sx) (y + k * sy))) ->
    exists r cells,
      sightLoop fuel b x y sx sy (x + Z.of_nat n * sx) (y + Z.of_nat n * sy)
      = (Seen r, cells)
      /\ (length cells <= n)%nat
      /\ (forall c, In c cells ->
            exists k, 0 <= k < Z.of_nat n /\ c = Position.mk (x + k * sx) (y + k * sy))
      /\ (r = true <->
          forall k, 0 <= k < Z.of_nat n ->
                    readCell b (Position.mk (x + k * sx) (y + k * sy)) = Some None).
Proof.
  induction n as [|n IH]; intros fuel b x y sx sy Hwf Hstep Hfuel Hon.
  - exists true, []. simpl Z.of_nat. rewrite !Z.mul_0_l, !Z.add_0_r.
    rewrite sightLoop_unfold, !Z.eqb_refl. simpl.
    split; [reflexivity|]. split; [lia|]. split; [intros c []|].
    split; [intros _ k Hk; lia|reflexivity].
  - destruct fuel as [|fuel]; [lia|].
    rewrite sightLoop_unfold.
    assert (Hcond : negb (x =? x + Z.of_nat (S n) * sx)
                    || negb (y =? y + Z.of_nat (S n) * sy) = true).
    { apply orb_true_iff.
      destruct Hstep as [Hs|Hs]; [left|right]; apply negb_true_iff, Z.eqb_neq; nia. }
    rewrite Hcond.
    assert (Hon0 : onBoard (Position.mk x y)).
    { specialize (Hon 0). rewrite !Z.mul_0_l, !Z.add_0_r in Hon. apply Hon; lia. }
    destruct (onBoard_readCell b _ Hwf Hon0) as [c Hc]. rewrite Hc.
    destruct c as [p|].
    + exists false, [Position.mk x y].
      split; [reflexivity|]. split; [simpl; lia|]. split.
      * intros c [<-|[]]. exists 0. split; [lia|]. f_equal; lia.
      * split; [discriminate|]. intros H. specialize (H 0).
        rewrite !Z.mul_0_l, !Z.add_0_r in H. rewrite Hc in H.
        assert (0 <= 0 < Z.of_nat (S n)) as H0 by lia. specialize (H H0). discriminate.
    + destruct (IH fuel b (x + sx) (y + sy) sx sy Hwf Hstep) as (r & cells & Hrun & Hlen & Hcells & Hr).
      * lia.
      * intros k Hk. specialize (Hon (k + 1)).
        replace (x + sx + k * sx) with (x + (k + 1) * sx) by lia.
        replace (y + sy + k * sy) with (y + (k + 1) * sy) by lia.
        apply Hon; lia.
      * replace (x + Z.of_nat (S n) * sx) with (x + sx + Z.of_nat n * sx) by lia.
        replace (y + Z.of_nat (S n) * sy) with (y + sy + Z.of_nat n * sy) by lia.
        rewrite Hrun. exists r, (Position.mk x y :: cells).
        split; [reflexivity|]. split; [simpl; lia|]. split.
        -- intros c [<-|Hin].
           ++ exists 0. split; [lia|]. f_equal; lia.
           ++ destruct (Hcells c Hin) as (k & Hk & ->). exists (k + 1).
              split; [lia|]. f_equal; lia.
        -- rewrite Hr. split.
           ++ intros H k Hk. destruct (Z.eq_dec k 0) as [->|Hk0].
              ** rewrite !Z.mul_0_l, !Z.add_0_r. exact Hc.
              ** specialize (H (k - 1)).
                 replace (x + sx + (k - 1) * sx) with (x + k * sx) in H by lia.
                 replace (y + sy + (k - 1) * sy) with (y + k * sy) in H by lia.
                 apply H; lia.
           ++ intros H k Hk. specialize (H (k + 1)).
              replace (x + (k + 1) * sx) with (x + sx + k * sx) in H by lia.
              replace (y + (k + 1) * sy) with (y + sy + k * sy) in H by lia.
              apply H; lia.
Qed.

Lemma aligned_target (from to : Position) :
  aligned from to ->
  squareAt from to (distance from to) = to.
Proof.
  unfold aligned, squareAt, distance. destruct from as [fx fy], to as [tx ty]; simpl.
  intros H. f_equal; lia.
Qed.

Lemma squareAt_onBoard (from to : Position) (k : Z) :
  aligned from to -> onBoard from -> onBoard to ->
  0 <= k <= distance from to -> onBoard (squareAt from to k).
Proof.
  unfold aligned, squareAt, distance, onBoard.
  destruct from as [fx fy], to as [tx ty]; simpl.
  intros H Hf Ht Hk. split; nia.
Qed.

(** Under the precondition the scan gives a boolean after reading at most
    seven cells, all of them squares strictly between the two ends. *)
Lemma sightTrace_spec (b : Board) (from to : Position) :
  wfBoard b -> onBoard from -> onBoard to -> from <> to -> aligned from to ->
  exists r cells,
    sightTrace b from to = (Seen r, cells)
    /\ (length cells <= 7)%nat
    /\ (forall c, In c cells -> intermediate from to c /\ onBoard c)
    /\ (r = true <-> forall p, intermediate from to p -> readCell b p = Some None).
Proof.
  intros Hwf Hf Ht Hne Hal.
  set (d := distance from to).
  assert (Hd : 1 <= d <= 7).
  { subst d. unfold distance, onBoard in *.
    destruct from as [fx fy], to as [tx ty]; simpl in *.
    assert (fx <> tx \/ fy <> ty).
    { destruct (Z.eq_dec fx tx); [right|left; auto]. intros ->. apply Hne. congruence. }
    lia. }
  set (sx := Z.sgn (Position.x to - Position.x from)).
  set (sy := Z.sgn (Position.y to - Position.y from)).
  assert (Hstep : sx <> 0 \/ sy <> 0).
  { subst sx sy d. unfold distance in Hd. lia. }
  destruct (sightLoop_spec (Z.to_nat (d - 1)) 7 b
              (Position.x from + sx) (Position.y from + sy) sx sy Hwf Hstep)
    as (r & cells & Hrun & Hlen & Hcells & Hr).
  - lia.
  - intros k Hk.
    replace (Position.x from + sx + k * sx) with (Position.x from + (k + 1) * sx) by lia.
    replace (Position.y from + sy + k * sy) with (Position.y from + (k + 1) * sy) by lia.
    apply (squareAt_onBoard from to (k + 1)); auto. fold d. lia.
  - pose proof (aligned_target from to Hal) as Htgt. fold d in Htgt.
    unfold squareAt in Htgt. fold sx sy in Htgt.
    exists r, cells. split.
    + unfold sightTrace. rewrite !stepOf_sgn. fold sx sy.
      rewrite <- Hrun. f_equal.
      * rewrite Z2Nat.id by lia. destruct to as [tx ty]; simpl in *.
        injection Htgt as Hx Hy. lia.
      * rewrite Z2Nat.id by lia. destruct to as [tx ty]; simpl in *.
        injection Htgt as Hx Hy. lia.
    + split; [lia|]. split.
      * intros c Hin. destruct (Hcells c Hin) as (k & Hk & ->).
        assert (Heq : Position.mk (Position.x from + sx + k * sx)
                                 (Position.y from + sy + k * sy)
                      = squareAt from to (k + 1)).
        { unfold squareAt. fold sx sy. f_equal; lia. }
        rewrite Heq. split.
        -- exists (k + 1). fold d. split; [lia|reflexivity].
        -- apply squareAt_onBoard; auto. fold d. lia.
      * rewrite Hr. split.
        -- intros H p (k & Hk & ->). fold d in Hk. specialize (H (k - 1)).
           unfold squareAt. fold sx sy.
           replace (Position.x from + k * sx)
             with (Position.x from + sx + (k - 1) * sx) by lia.
           replace (Position.y from + k * sy)
             with (Position.y from + sy + (k - 1) * sy) by lia.
           apply H. lia.
        -- intros H k Hk.
           replace (Position.mk (Position.x from + sx + k * sx)
                                (Position.y from + sy + k * sy))
             with (squareAt from to (k + 1))
             by (unfold squareAt; fold sx sy; f_equal; lia).
           apply H. exists (k + 1). fold d. split; [lia|reflexivity].
Qed.

Lemma sightGuard_aligned (from to : Position) (piece : option SimplePiece) :
  sightGuard from to piece = true -> aligned from to.
Proof.
  unfold sightGuard, aligned. destruct piece as [[]|]; try discriminate;
    rewrite ?orb_true_iff, ?Z.eqb_eq; lia.
Qed.

Lemma sightGuard_piece (from to : Position) (piece : option SimplePiece) :
  sightGuard from to piece = true ->
  piece = Some SimplePiece.B \/ piece = Some SimplePiece.R
  \/ piece = Some SimplePiece.Q.
Proof. destruct piece as [[]|]; simpl; auto; discriminate. Qed.

(** In the three sliding branches [isValidMove] is the guard and then the
    scan; in the other branches the board is not read at all. *)
Lemma isValidMove_sliding (b : Board) (from to : Position) (p : SimplePiece)
      (backward : bool) :
  p = SimplePiece.B \/ p = SimplePiece.R \/ p = SimplePiece.Q ->
  isValidMove b from to (Some p) backward
  = sightGuard from to (Some p) && hasLineOfSight b from to.
Proof. intros [->|[->| ->]]; reflexivity. Qed.

Lemma isValidMove_not_sliding (b b' : Board) (from to : Position)
      (piece : option SimplePiece) (backward : bool) :
  sightGuard from to piece = false ->
  isValidMove b from to piece backward = isValidMove b' from to piece backward.
Proof.
  destruct piece as [[]|]; unfold isValidMove, sightGuard; intros H;
    [ reflexivity | rewrite H | rewrite H | rewrite H
    | reflexivity | reflexivity | reflexivity ];
    rewrite !andb_false_l; reflexivity.
Qed.

(** ** The [Map] model *)

Lemma mapGet_mapSet_same {V : Type} (m : JsMap V) (k : PieceId) (v : V) :
  mapGet (mapSet m k v) k = Some v.
Proof.
  induction m as [|[k' v'] rest IH]; simpl.
  - rewrite Z.eqb_refl; reflexivity.
  - destruct (Z.eqb_spec k' k) as [->|Hne]; simpl.
    + rewrite Z.eqb_refl; reflexivity.
    + destruct (Z.eqb_spec k' k); [contradiction|exact IH].
Qed.

Lemma mapGet_mapSet_other {V : Type} (m : JsMap V) (k k0 : PieceId) (v : V) :
  k0 <> k -> mapGet (mapSet m k v) k0 = mapGet m k0.
Proof.
  intros Hne. induction m as [|[k' v'] rest IH]; simpl.
  - destruct (Z.eqb_spec k k0); [congruence|reflexivity].
  - destruct (Z.eqb_spec k' k) as [->|Hk]; simpl.
    + destruct (Z.eqb_spec k k0); [congruence|reflexivity].
    + destruct (Z.eqb_spec k' k0); [reflexivity|exact IH].
Qed.

Lemma moveCountOf_mapSet_same (m : JsMap Z) (k : PieceId) (v : Z) :
  moveCountOf (mapSet m k v) k = v.
Proof. unfold moveCountOf. rewrite mapGet_mapSet_same. reflexivity. Qed.

Lemma moveCountOf_mapSet_other (m : JsMap Z) (k k0 : PieceId) (v : Z) :
  k0 <> k -> moveCountOf (mapSet m k v) k0 = moveCountOf m k0.
Proof.
  intros H. unfold moveCountOf. rewrite mapGet_mapSet_other by exact H.
  reflexivity.
Qed.

(** ** The generator state *)

Lemma drawn_refl g : drawn g g.
Proof. exists (draws g), (lastUsedPiece g). destruct g; reflexivity. Qed.

Lemma drawn_trans g1 g2 g3 : drawn g1 g2 -> drawn g2 g3 -> drawn g1 g3.
Proof. intros (n & l & ->) (n' & l' & ->). exists n', l'. reflexivity. Qed.

Lemma drawn_board g g' : drawn g g' -> board g' = board g.
Proof. intros (n & l & ->); reflexivity. Qed.

Lemma drawn_pieceCount g g' : drawn g g' -> pieceCount g' = pieceCount g.
Proof. intros (n & l & ->); reflexivity. Qed.

Lemma drawn_moveCounts g g' : drawn g g' -> moveCounts g' = moveCounts g.
Proof. intros (n & l & ->); reflexivity. Qed.

Lemma drawn_solution g g' : drawn g g' -> solution g' = solution g.
Proof. intros (n & l & ->); reflexivity. Qed.

Lemma drawn_pieceLocations g g' : drawn g g' -> pieceLocations g' = pieceLocations g.
Proof. intros (n & l & ->); reflexivity. Qed.

Lemma drawn_Inv g g' : drawn g g' -> Inv g -> Inv g'.
Proof. intros (n & l & ->) [H1 H2 H3]. constructor; assumption. Qed.

Lemma drawn_Counted g g' : drawn g g' -> Counted g -> Counted g'.
Proof. intros (n & l & ->) H. exact H. Qed.

Lemma placePiece_run piece position g :
  placePiece piece position g
  = if SimplePiece.eqb piece SimplePiece.P && (Position.y position =? 0)
    then (Throw InvalidPawnPlacement, g)
    else (Ok (nextPieceId g), placed piece position g).
Proof.
  unfold placePiece.
  destruct (SimplePiece.eqb piece SimplePiece.P && (Position.y position =? 0));
    reflexivity.
Qed.

Lemma ledgerOk_set (m : JsMap Z) (k : PieceId) (v : Z) :
  ledgerOk m -> 0 <= v <= 2 -> ledgerOk (mapSet m k v).
Proof.
  intros Hm Hv id n. destruct (Z.eq_dec id k) as [->|Hne].
  - rewrite mapGet_mapSet_same. intros [= <-]. exact Hv.
  - rewrite mapGet_mapSet_other by exact Hne. apply Hm.
Qed.

Lemma ledgerOk_nil : ledgerOk [].
Proof. intros id n H; discriminate. Qed.

Lemma moveCountOf_bounds (m : JsMap Z) (id : PieceId) :
  ledgerOk m -> 0 <= moveCountOf m id <= 2.
Proof.
  intros H. unfold moveCountOf.
  destruct (mapGet m id) as [n|] eqn:Hn; [eapply H; eauto|lia].
Qed.

Lemma Inv_placed piece position g : Inv g -> Inv (placed piece position g).
Proof.
  intros [H1 H2 H3]. constructor; simpl.
  - apply wfBoard_writeCell; exact H1.
  - apply ledgerOk_set; [exact H2|lia].
  - exact H3.
Qed.

Lemma Inv_removed position g : Inv g -> Inv (removed position g).
Proof.
  intros [H1 H2 H3]. constructor; simpl; auto.
  apply wfBoard_writeCell; exact H1.
Qed.

Lemma Inv_located id pos g : Inv g -> Inv (located id pos g).
Proof. intros [H1 H2 H3]. constructor; simpl; auto. Qed.

Lemma Inv_incremented id g :
  Inv g -> hasExceededMoveLimit g id = false -> Inv (incremented id g).
Proof.
  intros [H1 H2 H3] Hlim. constructor; simpl; auto.
  apply ledgerOk_set; [exact H2|].
  unfold hasExceededMoveLimit in Hlim. apply Z.leb_gt in Hlim.
  pose proof (moveCountOf_bounds _ id H2). lia.
Qed.

Lemma Inv_pushed move g : Inv g -> moveOk move -> Inv (pushed move g).
Proof.
  intros [H1 H2 H3] Hm. constructor; simpl; auto.
  apply Forall_app; split; [exact H3|]. constructor; [exact Hm|constructor].
Qed.

Lemma Inv_reset g : Inv (resetAttempt g).
Proof.
  constructor; simpl.
  - exact wfBoard_empty.
  - exact ledgerOk_nil.
  - constructor.
Qed.

Lemma Inv_reversed g : Inv g -> Inv (withSolution (rev (solution g)) g).
Proof.
  intros [H1 H2 H3]. constructor; simpl; auto.
  apply Forall_rev; exact H3.
Qed.

(** ** What the drawing operations return *)

Lemma floor_below (r : number) (n : Z) :
  (0 <= r)%Q -> (r < 1)%Q -> 0 < n -> 0 <= floor (r * inject_Z n)%Q < n.
Proof.
  intros H0 H1 Hn. unfold floor.
  assert (Hn' : (inject_Z 0 < inject_Z n)%Q) by (rewrite <- Zlt_Qlt; exact Hn).
  change (inject_Z 0) with 0%Q in Hn'.
  split.
  - change 0 with (Qfloor 0). apply Qfloor_resp_le.
    apply Qmult_le_0_compat; [exact H0|apply Qlt_le_weak; exact Hn'].
  - rewrite Zlt_Qlt.
    eapply Qle_lt_trans; [apply Qfloor_le|].
    setoid_replace (inject_Z n) with (1 * inject_Z n)%Q at 2 by ring.
    apply Qmult_lt_compat_r; assumption.
Qed.

Section Runs.

Variable random : N -> number.

Lemma Math_random_run g :
  Math_random random g = (Ok (random (draws g)), withDraws (N.succ (draws g)) g).
Proof. reflexivity. Qed.

Lemma drawn_withDraws n g : drawn g (withDraws n g).
Proof. exists n, (lastUsedPiece g). reflexivity. Qed.

Lemma randomBelow_run n g :
  randomBelow random n g
  = (Ok (floor (random (draws g) * inject_Z n)%Q), withDraws (N.succ (draws g)) g).
Proof. reflexivity. Qed.

Lemma randomElement_spec {A : Type} (array : list A) g :
  exists g', drawn g g'
    /\ ((exists a, randomElement random array g = (Ok a, g') /\ In a array)
        \/ randomElement random array g = (Throw TypeError, g')).
Proof.
  exists (withDraws (N.succ (draws g)) g). split; [apply drawn_withDraws|].
  unfold randomElement, bind. rewrite randomBelow_run.
  destruct (index array _) as [a|] eqn:Ha.
  - left. exists a. split; [reflexivity|]. eapply index_In; eauto.
  - right. reflexivity.
Qed.

Lemma getRandomQuadrant_spec g :
  exists p g', getRandomQuadrant random g = (Ok p, g') /\ drawn g g'
    /\ ((forall i, (0 <= random i)%Q /\ (random i < 1)%Q) -> onBoard p).
Proof.
  unfold getRandomQuadrant, bind. rewrite !randomBelow_run. unfold ret.
  eexists _, _. split; [reflexivity|]. split.
  - eexists _, _. reflexivity.
  - intros Hr. unfold onBoard; cbn [Position.x Position.y draws withDraws].
    pose proof (floor_below _ 4 (proj1 (Hr (draws g))) (proj2 (Hr (draws g))) eq_refl) as Hq.
    pose proof (floor_below _ 4 (proj1 (Hr (N.succ (draws g)))) (proj2 (Hr (N.succ (draws g)))) eq_refl) as Hx.
    pose proof (floor_below _ 4 (proj1 (Hr (N.succ (N.succ (draws g))))) (proj2 (Hr (N.succ (N.succ (draws g))))) eq_refl) as Hy.
    set (q := floor (random (draws g) * inject_Z 4)%Q) in *.
    assert (Hrem : 0 <= Z.rem q 2 <= 1).
    { pose proof (Z.rem_bound_pos q 2). lia. }
    assert (Hdiv : 0 <= q / 2 <= 1).
    { split; [apply Z.div_pos; lia|]. apply Z.lt_succ_r. apply Z.div_lt_upper_bound; lia. }
    lia.
Qed.

Lemma randomPosition_spec g :
  exists p g', randomPosition random g = (Ok p, g') /\ drawn g g'
    /\ ((forall i, (0 <= random i)%Q /\ (random i < 1)%Q) -> onBoard p).
Proof.
  unfold randomPosition, bind. rewrite Math_random_run.
  destruct (Qltb (random (draws g)) double_0_3).
  - destruct (getRandomQuadrant_spec (withDraws (N.succ (draws g)) g))
      as (p & g' & Hrun & Hd & Hon).
    exists p, g'. split; [exact Hrun|]. split; [|exact Hon].
    eapply drawn_trans; [apply drawn_withDraws|exact Hd].
  - rewrite !randomBelow_run. unfold ret.
    eexists _, _. split; [reflexivity|]. split.
    + eexists _, _. reflexivity.
    + intros Hr. unfold onBoard; cbn [Position.x Position.y draws withDraws].
      pose proof (floor_below _ 8 (proj1 (Hr (N.succ (draws g)))) (proj2 (Hr (N.succ (draws g)))) eq_refl).
      pose proof (floor_below _ 8 (proj1 (Hr (N.succ (N.succ (draws g))))) (proj2 (Hr (N.succ (N.succ (draws g))))) eq_refl).
      lia.
Qed.

Lemma pickWeighted_In weights rnd p :
  pickWeighted weights rnd = Some p -> In p (map fst weights).
Proof.
  revert rnd; induction weights as [|[q w] rest IH]; intros rnd; simpl.
  - discriminate.
  - destruct (Qleb (rnd - w)%Q 0%Q).
    + intros [= ->]. left; reflexivity.
    + intros H. right. eapply IH; eauto.
Qed.

Lemma weightsFor_noKing lastUsed :
  ~ In SimplePiece.K (map fst (weightsFor true lastUsed)).
Proof.
  unfold weightsFor. rewrite map_map. simpl. intuition discriminate.
Qed.

Lemma getRandomPiece_spec excludeKing g :
  exists p g', getRandomPiece random excludeKing g = (Ok p, g') /\ drawn g g'
    /\ (excludeKing = true -> p <> SimplePiece.K).
Proof.
  unfold getRandomPiece, bind, gets. rewrite Math_random_run.
  destruct (pickWeighted _ _) as [p|] eqn:Hp.
  - exists p. eexists. split; [reflexivity|]. split.
    + eexists _, _. reflexivity.
    + intros -> ->. apply pickWeighted_In in Hp.
      exact (weightsFor_noKing _ Hp).
  - exists SimplePiece.P. eexists. split; [reflexivity|]. split.
    + apply drawn_withDraws.
    + intros _; discriminate.
Qed.

Lemma randomPromotion_spec g :
  exists o, randomPromotion random g = (Ok o, withDraws (N.succ (draws g)) g)
    /\ (forall q, o = Some q -> In q promotionPieces).
Proof.
  unfold randomPromotion, bind. rewrite randomBelow_run. unfold ret.
  eexists. split; [reflexivity|]. intros q Hq. eapply index_In; eauto.
Qed.

Lemma candidates_incl b from piece pos :
  In pos (candidates b from piece ++ promotionCandidates b from piece) ->
  In pos (reachableEmpty b from piece).
Proof.
  rewrite in_app_iff. unfold candidates, promotionCandidates.
  rewrite !filter_In. tauto.
Qed.

(** A result of [findValidCapturePosition] is a square that passed the
    tests of the scan; a promoted kind is one of Q, R, B, N. *)
Lemma findValidCapturePosition_spec from piece g :
  exists g', drawn g g'
    /\ ((exists position promotedPiece,
           findValidCapturePosition random from piece g
           = (Ok (Some (position, promotedPiece)), g')
           /\ In position (reachableEmpty (board g) from piece)
           /\ (forall q, promotedPiece = Some q -> In q promotionPieces))
        \/ findValidCapturePosition random from piece g = (Ok None, g')
        \/ findValidCapturePosition random from piece g = (Throw TypeError, g')).
Proof.
  unfold findValidCapturePosition, bind, gets.
  destruct (isPawn piece && negb (length (promotionCandidates (board g) from piece) =? 0)%nat).
  - destruct (randomElement_spec (promotionCandidates (board g) from piece) g)
      as (g1 & Hd1 & [(pos & Hrun & Hin)| Hrun]); rewrite Hrun.
    + destruct (randomPromotion_spec g1) as (o & Hrun2 & Ho). rewrite Hrun2.
      exists (withDraws (N.succ (draws g1)) g1). split.
      * eapply drawn_trans; [exact Hd1|apply drawn_withDraws].
      * left. exists pos, o. split; [reflexivity|]. split; [|exact Ho].
        apply candidates_incl. apply in_or_app; right; exact Hin.
    + exists g1. split; [exact Hd1|]. right; right; reflexivity.
  - destruct ((length (candidates (board g) from piece) =? 0)%nat
              && (length (promotionCandidates (board g) from piece) =? 0)%nat).
    + exists g. split; [apply drawn_refl|]. right; left; reflexivity.
    + destruct (randomElement_spec
                  (candidates (board g) from piece
                   ++ promotionCandidates (board g) from piece) g)
        as (g1 & Hd1 & [(pos & Hrun & Hin)| Hrun]); rewrite Hrun.
      * destruct (isPawn piece && (Position.y pos =? 0)).
        -- destruct (randomPromotion_spec g1) as (o & Hrun2 & Ho). rewrite Hrun2.
           exists (withDraws (N.succ (draws g1)) g1). split.
           ++ eapply drawn_trans; [exact Hd1|apply drawn_withDraws].
           ++ left. exists pos, o. split; [reflexivity|]. split; [|exact Ho].
              apply candidates_incl; exact Hin.
        -- exists g1. split; [exact Hd1|]. left. exists pos, None.
           split; [reflexivity|]. split; [|discriminate].
           apply candidates_incl; exact Hin.
      * exists g1. split; [exact Hd1|]. right; right; reflexivity.
Qed.

Lemma allSquares_onBoard pos : In pos allSquares -> onBoard pos.
Proof.
  unfold allSquares. rewrite in_flat_map. intros (y & Hy & Hin).
  rewrite in_map_iff in Hin. destruct Hin as (x & <- & Hx).
  unfold onBoard; simpl. unfold range8 in *. simpl in Hx, Hy. lia.
Qed.

Lemma reachableEmpty_spec b from piece pos :
  In pos (reachableEmpty b from piece) ->
  onBoard pos /\ isKingAt b pos = false /\ isSquareEmpty b pos = true
  /\ isValidMove b from pos piece true = true.
Proof.
  unfold reachableEmpty. rewrite filter_In, !andb_true_iff, negb_true_iff.
  intros (Hin & (Hk & He) & Hv). split; [apply allSquares_onBoard; exact Hin|].
  auto.
Qed.

End Runs.

(** ** One pass of the inner loop *)

Lemma Counted_removed pos c g :
  Counted g -> readCell (board g) pos = Some (Some c) ->
  Counted (removed pos g).
Proof.
  intros [Hwf Hc] Hr. split; simpl.
  - apply wfBoard_writeCell; exact Hwf.
  - rewrite (countPieces_writeCell _ _ _ _ Hr). simpl. lia.
Qed.

Lemma Counted_placed piece pos g :
  Counted g -> readCell (board g) pos = Some None ->
  Counted (placed piece pos g).
Proof.
  intros [Hwf Hc] Hr. split; simpl.
  - apply wfBoard_writeCell; exact Hwf.
  - rewrite (countPieces_writeCell _ _ _ _ Hr). simpl. lia.
Qed.

Lemma isSquareEmpty_readCell b pos :
  isSquareEmpty b pos = true -> readCell b pos = Some None.
Proof.
  unfold isSquareEmpty. destruct (readCell b pos) as [[p|]|];
    intros H; [discriminate|reflexivity|discriminate].
Qed.

Lemma pieceAt_readCell g pos c :
  pieceAt g pos = Some c -> readCell (board g) pos = Some (Some c).
Proof.
  unfold pieceAt. destruct (readCell (board g) pos) as [[p|]|];
    intros H; [injection H as ->; reflexivity|discriminate|discriminate].
Qed.

Lemma kingCount_nonneg b : 0 <= kingCount b.
Proof. apply countIf_nonneg. Qed.

Lemma kingCount_writeCell b pos v old :
  readCell b pos = Some old ->
  kingCount (writeCell b pos v)
  = kingCount b - Z.b2z (kingCell old) + Z.b2z (kingCell v).
Proof. apply countIf_writeCell. Qed.

Lemma writeCell_outside b pos v : readCell b pos = None -> writeCell b pos v = b.
Proof.
  unfold readCell, writeCell, index.
  destruct (Z.ltb_spec (Position.y pos) 0) as [Hy|Hy]; [reflexivity|].
  destruct (nth_error b (Z.to_nat (Position.y pos))) as [row|]; [|
    destruct (Position.x pos <? 0); reflexivity].
  destruct (Z.ltb_spec (Position.x pos) 0) as [Hx|Hx]; [reflexivity|]. simpl.
  intros Hnone. apply nth_error_None in Hnone.
  destruct (Nat.ltb_spec (Z.to_nat (Position.x pos)) (length row)); [lia|reflexivity].
Qed.

Lemma kingCount_writeCell_notKing b pos p :
  p <> SimplePiece.K ->
  kingCount (writeCell b pos (Some p)) <= kingCount b.
Proof.
  intros Hp. destruct (readCell b pos) as [old|] eqn:Hr.
  - rewrite (kingCount_writeCell _ _ _ _ Hr).
    assert (kingCell (Some p) = false) as ->
      by (destruct p; try reflexivity; exfalso; apply Hp; reflexivity).
    destruct (kingCell old); simpl; lia.
  - rewrite (writeCell_outside _ _ _ Hr). lia.
Qed.

Lemma kingCount_writeCell_null b pos :
  kingCount (writeCell b pos None) <= kingCount b.
Proof.
  destruct (readCell b pos) as [old|] eqn:Hr.
  - rewrite (kingCount_writeCell _ _ _ _ Hr). destruct (kingCell old); simpl; lia.
  - rewrite (writeCell_outside _ _ _ Hr). lia.
Qed.

Lemma hasKing_kingCount b : hasKing b = true <-> 0 < kingCount b.
Proof.
  unfold hasKing, kingCount. fold kingCell.
  induction (concat b) as [|c l IH]; simpl.
  - rewrite countIf_nil. split; [discriminate|lia].
  - rewrite countIf_cons, orb_true_iff, IH.
    pose proof (countIf_nonneg kingCell l) as Hnn.
    destruct c as [[]|]; cbn [kingCell Z.b2z];
      (split; [intros [Hd|Hx]; [try discriminate|]; lia
              |intros Hx; first [left; reflexivity|right; lia]]).
Qed.

Lemma okStep_drawn g g' : drawn g g' -> okStep g g'.
Proof.
  intros H. split; [apply drawn_Inv; exact H|].
  split; [apply drawn_Counted; exact H|].
  rewrite (drawn_board _ _ H). lia.
Qed.

Lemma errStep_drawn g g' : drawn g g' -> errStep g g'.
Proof.
  intros H. split; [apply drawn_Inv; exact H|].
  rewrite (drawn_pieceCount _ _ H), (drawn_board _ _ H). lia.
Qed.

Lemma stepOutcome_drawn {A : Type} g g1 (r : Result A * Generator) :
  drawn g g1 -> stepOutcome g1 r -> stepOutcome g r.
Proof.
  intros Hd. destruct r as [[a|e] g']; simpl; intros (H1 & H2 & H3);
    (split; [|split]).
  - intros H; apply H1; eapply drawn_Inv; eauto.
  - intros H; apply H2; eapply drawn_Counted; eauto.
  - rewrite <- (drawn_board _ _ Hd). exact H3.
  - intros H; apply H1; eapply drawn_Inv; eauto.
  - rewrite <- (drawn_pieceCount _ _ Hd). exact H2.
  - rewrite <- (drawn_board _ _ Hd). exact H3.
Qed.

Section Steps.

Variable random : N -> number.

Lemma removePiece_run pos g : removePiece pos g = (Ok tt, removed pos g).
Proof. reflexivity. Qed.

Lemma setLocation_run id pos g : setLocation id pos g = (Ok tt, located id pos g).
Proof. reflexivity. Qed.

Lemma incrementMoveCount_run id g :
  incrementMoveCount id g = (Ok tt, incremented id g).
Proof. reflexivity. Qed.

Lemma pushMove_run move g : pushMove move g = (Ok tt, pushed move g).
Proof. reflexivity. Qed.

Lemma placementLoop_step attemptsLeft :
  forall g, stepOutcome g (placementLoop random attemptsLeft g).
Proof.
  induction attemptsLeft as [|k IH]; intros g.
  - simpl. apply okStep_drawn, drawn_refl.
  - simpl placementLoop. unfold bind, gets.
    destruct (randomPosition_spec random g) as (newPos & g1 & Hrun & Hd1 & _).
    rewrite Hrun.
    destruct (isSquareEmpty (board g1) newPos) eqn:Hempty.
    + destruct (getRandomPiece_spec random true g1) as (np & g2 & Hrun2 & Hd2 & Hnp).
      rewrite Hrun2. rewrite placePiece_run.
      pose proof (drawn_trans _ _ _ Hd1 Hd2) as Hd.
      destruct (SimplePiece.eqb np SimplePiece.P && (Position.y newPos =? 0)).
      * apply errStep_drawn; exact Hd.
      * rewrite setLocation_run. split; [|split].
        -- intros HI. apply Inv_located, Inv_placed. eapply drawn_Inv; eauto.
        -- intros HC. apply (drawn_Counted _ _ Hd) in HC.
           apply (Counted_placed np newPos) in HC.
           ++ exact HC.
           ++ rewrite (drawn_board _ _ Hd2). apply isSquareEmpty_readCell; exact Hempty.
        -- simpl. rewrite (drawn_board _ _ Hd).
           apply kingCount_writeCell_notKing. apply Hnp; reflexivity.
    + eapply stepOutcome_drawn; [exact Hd1|apply IH].
Qed.

Lemma relocate_step id currentPos current position promotedPiece g :
  readCell (board g) currentPos = Some (Some current) ->
  In position (reachableEmpty (board g) currentPos (Some current)) ->
  (forall q, promotedPiece = Some q -> In q promotionPieces) ->
  hasExceededMoveLimit g id = false ->
  stepOutcome g (relocate random id currentPos current position promotedPiece g).
Proof.
  intros Hcur Hpos Hpromo Hlim.
  apply reachableEmpty_spec in Hpos. destruct Hpos as (Hon & _ & Hempty & _).
  apply isSquareEmpty_readCell in Hempty.
  assert (Hne : position <> currentPos).
  { intros ->. rewrite Hcur in Hempty. discriminate. }
  unfold relocate, bind. rewrite removePiece_run.
  set (moving := match promotedPiece with Some q => q | None => current end).
  assert (Hmoving : Z.b2z (kingCell (Some moving)) <= Z.b2z (kingCell (Some current))).
  { subst moving. destruct promotedPiece as [q|]; [|lia].
    specialize (Hpromo q eq_refl). simpl in Hpromo.
    destruct Hpromo as [<-|[<-|[<-|[<-|[]]]]]; destruct current; simpl; lia. }
  set (s1 := removed currentPos g).
  assert (Hk1 : kingCount (board s1)
                = kingCount (board g) - Z.b2z (kingCell (Some current))).
  { change (board s1) with (writeCell (board g) currentPos None).
    rewrite (kingCount_writeCell _ _ _ _ Hcur).
    replace (Z.b2z (kingCell None)) with 0 by reflexivity. lia. }
  assert (Hr1 : readCell (board s1) position = Some None).
  { simpl. rewrite readCell_writeCell_other by exact Hne. exact Hempty. }
  rewrite placePiece_run.
  destruct (SimplePiece.eqb moving SimplePiece.P && (Position.y position =? 0)).
  { split; [apply Inv_removed|]. split; [simpl; lia|].
    rewrite Hk1. destruct (kingCell (Some current)); simpl; lia. }
  set (s2 := placed moving position s1).
  rewrite setLocation_run, incrementMoveCount_run.
  set (s3 := located id position s2).
  set (s4 := incremented id s3).
  assert (Hk4 : kingCount (board s4) <= kingCount (board g)).
  { change (board s4) with (writeCell (board s1) position (Some moving)).
    rewrite (kingCount_writeCell _ _ _ _ Hr1), Hk1.
    replace (Z.b2z (kingCell None)) with 0 by reflexivity. lia. }
  assert (Hr4 : readCell (board s4) currentPos = Some None).
  { change (board s4) with (writeCell (board s1) position (Some moving)).
    rewrite readCell_writeCell_other by congruence.
    simpl. eapply readCell_writeCell_same; eauto. }
  destruct (getRandomPiece_spec random true s4) as (np & s5 & Hrun & Hd & Hnp).
  rewrite Hrun. rewrite placePiece_run.
  assert (HI4 : Inv g -> Inv s4).
  { intros HI. apply Inv_incremented.
    - apply Inv_located, Inv_placed, Inv_removed; exact HI.
    - unfold hasExceededMoveLimit in *. simpl.
      destruct (Z.eq_dec id (nextPieceId g)) as [->|Hid].
      + rewrite moveCountOf_mapSet_same. reflexivity.
      + rewrite moveCountOf_mapSet_other by exact Hid. exact Hlim. }
  assert (Hpc5 : pieceCount s5 = pieceCount g).
  { rewrite (drawn_pieceCount _ _ Hd). simpl. lia. }
  destruct (SimplePiece.eqb np SimplePiece.P && (Position.y currentPos =? 0)).
  { split; [|split; [lia|]].
    - intros HI. eapply drawn_Inv; eauto.
    - rewrite (drawn_board _ _ Hd). exact Hk4. }
  rewrite setLocation_run, pushMove_run.
  split; [|split].
  - intros HI. apply Inv_pushed.
    + apply Inv_located, Inv_placed. eapply drawn_Inv; eauto.
    + assert (Hcp : onBoard currentPos).
      { eapply readCell_onBoard; [apply (inv_board _ HI)|exact Hcur]. }
      split; [apply Hnp; reflexivity|].
      split; [exact Hon|]. split; [exact Hcp|]. split; [exact Hne|].
      simpl. subst moving. destruct promotedPiece as [q|]; [|discriminate].
      intros _. specialize (Hpromo q eq_refl). simpl in Hpromo.
      destruct Hpromo as [<-|[<-|[<-|[<-|[]]]]]; discriminate.
  - intros HC.
    assert (HC4 : Counted s4).
    { apply (Counted_placed moving position s1).
      - eapply Counted_removed; eauto.
      - exact Hr1. }
    apply (drawn_Counted _ _ Hd) in HC4.
    apply (Counted_placed np currentPos s5 HC4).
    rewrite (drawn_board _ _ Hd). exact Hr4.
  - simpl. rewrite (drawn_board _ _ Hd).
    etransitivity; [|exact Hk4].
    apply kingCount_writeCell_notKing. apply Hnp; reflexivity.
Qed.

Lemma movablePieces_limit g id pos :
  In (id, pos) (movablePieces g) -> hasExceededMoveLimit g id = false.
Proof.
  unfold movablePieces. rewrite filter_In. simpl.
  intros [_ H]. apply negb_true_iff in H. exact H.
Qed.

Lemma hasExceededMoveLimit_drawn g g' id :
  drawn g g' -> hasExceededMoveLimit g' id = hasExceededMoveLimit g id.
Proof.
  intros H. unfold hasExceededMoveLimit. rewrite (drawn_moveCounts _ _ H).
  reflexivity.
Qed.

Lemma localIteration_step g : stepOutcome g (localIteration random g).
Proof.
  unfold localIteration, bind, gets.
  destruct (length (movablePieces g) =? 0)%nat.
  { apply placementLoop_step. }
  destruct (randomElement_spec random (movablePieces g) g)
    as (g1 & Hd1 & [([id currentPos] & Hrun & Hin)|Hrun]); rewrite Hrun;
    [|apply errStep_drawn; exact Hd1].
  destruct (findValidCapturePosition_spec random currentPos
              (pieceAt g1 currentPos) g1)
    as (g2 & Hd2 & [(position & promoted & Hrun2 & Hpos & Hpromo)|[Hrun2|Hrun2]]);
    rewrite Hrun2; pose proof (drawn_trans _ _ _ Hd1 Hd2) as Hd.
  - destruct (pieceAt g1 currentPos) as [current|] eqn:Hcur.
    + eapply stepOutcome_drawn; [exact Hd|].
      apply relocate_step.
      * rewrite (drawn_board _ _ Hd2). apply pieceAt_readCell. exact Hcur.
      * rewrite (drawn_board _ _ Hd2). exact Hpos.
      * exact Hpromo.
      * rewrite (hasExceededMoveLimit_drawn _ _ _ Hd).
        eapply movablePieces_limit; eauto.
    + apply okStep_drawn; exact Hd.
  - destruct (pieceAt g1 currentPos); apply okStep_drawn; exact Hd.
  - apply errStep_drawn; exact Hd.
Qed.

End Steps.

(** ** The forward validator *)

Lemma validateMoves_cons thisBoard boardCopy counts move rest :
  validateMoves thisBoard boardCopy counts (move :: rest)
  = if moveAccepted thisBoard boardCopy counts move
    then validateMoves thisBoard (applyMove boardCopy move)
           (mapSet counts (Move.pieceId move)
                   (moveCountOf counts (Move.pieceId move) + 1))
           rest
    else None.
Proof.
  unfold moveAccepted. cbn [validateMoves].
  destruct (cellIs (readCell boardCopy (Move.from move)) (Move.piece move));
    [|reflexivity].
  destruct (cellIs (readCell boardCopy (Move.to move)) (Move.captured move));
    [|reflexivity].
  cbn [negb orb andb].
  destruct (isValidMove thisBoard (Move.from move) (Move.to move)
                        (Some (Move.piece move)) false); [|reflexivity].
  cbn [negb andb].
  rewrite Z.ltb_antisym.
  destruct (2 <=? moveCountOf counts (Move.pieceId move)); reflexivity.
Qed.

Lemma cellIs_readCell c p : cellIs c p = true -> c = Some (Some p).
Proof.
  destruct c as [[q|]|]; simpl; try discriminate.
  destruct (kind_eqb_spec q p) as [->|]; [reflexivity|discriminate].
Qed.

(** A move that passes the tests takes exactly one piece off the copy. *)
Lemma applyMove_count (f : Cell -> bool) boardCopy move :
  cellIs (readCell boardCopy (Move.from move)) (Move.piece move) = true ->
  cellIs (readCell boardCopy (Move.to move)) (Move.captured move) = true ->
  countIf f (concat (applyMove boardCopy move))
  = countIf f (concat boardCopy) - Z.b2z (f (Some (Move.captured move))) + Z.b2z (f None).
Proof.
  intros Hf Ht. apply cellIs_readCell in Hf, Ht. unfold applyMove.
  destruct (pos_eqb_spec (Move.from move) (Move.to move)) as [Heq|Hne].
  - rewrite Heq in *. rewrite Hf in Ht. injection Ht as Ht.
    rewrite (countIf_writeCell f _ _ None (Some (Move.piece move))).
    + rewrite (countIf_writeCell f _ _ _ _ Hf). rewrite Ht. lia.
    + eapply readCell_writeCell_same; eauto.
  - rewrite (countIf_writeCell f _ _ None (Some (Move.piece move))).
    + rewrite (countIf_writeCell f _ _ _ _ Ht). lia.
    + rewrite readCell_writeCell_other by exact Hne. exact Hf.
Qed.

Lemma applyMove_countPieces boardCopy move :
  cellIs (readCell boardCopy (Move.from move)) (Move.piece move) = true ->
  cellIs (readCell boardCopy (Move.to move)) (Move.captured move) = true ->
  countPieces (applyMove boardCopy move) = countPieces boardCopy - 1.
Proof.
  intros Hf Ht. rewrite !countPieces_countIf.
  rewrite (applyMove_count occupied _ _ Hf Ht). simpl. lia.
Qed.

Lemma moveAccepted_cells thisBoard boardCopy counts move :
  moveAccepted thisBoard boardCopy counts move = true ->
  cellIs (readCell boardCopy (Move.from move)) (Move.piece move) = true
  /\ cellIs (readCell boardCopy (Move.to move)) (Move.captured move) = true
  /\ moveCountOf counts (Move.pieceId move) < 2.
Proof.
  unfold moveAccepted. rewrite !andb_true_iff, Z.ltb_lt. tauto.
Qed.

(** Splitting an accepted list: the prefix is accepted and leaves the
    replayed board, from which the rest is accepted. *)
Lemma validateMoves_app thisBoard pre :
  forall boardCopy counts rest final,
    validateMoves thisBoard boardCopy counts (pre ++ rest) = Some final ->
    exists counts',
      validateMoves thisBoard boardCopy counts pre = Some (replay boardCopy pre)
      /\ validateMoves thisBoard (replay boardCopy pre) counts' rest = Some final.
Proof.
  induction pre as [|m pre IH]; intros boardCopy counts rest final H.
  - exists counts. split; [reflexivity|exact H].
  - rewrite <- app_comm_cons in H. rewrite validateMoves_cons in H |- *.
    destruct (moveAccepted thisBoard boardCopy counts m); [|discriminate].
    apply IH in H. destruct H as (counts' & H1 & H2).
    exists counts'. split; assumption.
Qed.

Lemma validateMoves_final thisBoard moves :
  forall boardCopy counts final,
    validateMoves thisBoard boardCopy counts moves = Some final ->
    final = replay boardCopy moves.
Proof.
  intros boardCopy counts final H.
  rewrite <- (app_nil_r moves) in H. apply validateMoves_app in H.
  destruct H as (counts' & H1 & H2). simpl in H2. congruence.
Qed.

Lemma replay_snoc b pre m : replay b (pre ++ [m]) = applyMove (replay b pre) m.
Proof. unfold replay. rewrite fold_left_app. reflexivity. Qed.

(** Each move of an accepted list removes exactly one piece. *)
Lemma validateMoves_one_per_move thisBoard boardCopy counts pre m post final :
  validateMoves thisBoard boardCopy counts (pre ++ m :: post) = Some final ->
  countPieces (replay boardCopy (pre ++ [m]))
  = countPieces (replay boardCopy pre) - 1.
Proof.
  intros H. apply validateMoves_app in H. destruct H as (counts' & _ & H).
  rewrite validateMoves_cons in H.
  destruct (moveAccepted thisBoard (replay boardCopy pre) counts' m) eqn:Hacc;
    [|discriminate].
  apply moveAccepted_cells in Hacc. destruct Hacc as (Hf & Ht & _).
  rewrite replay_snoc. apply applyMove_countPieces; assumption.
Qed.

Lemma validateMoves_count thisBoard moves :
  forall boardCopy counts final,
    validateMoves thisBoard boardCopy counts moves = Some final ->
    countPieces final = countPieces boardCopy - Z.of_nat (length moves).
Proof.
  induction moves as [|m rest IH]; intros boardCopy counts final H.
  - simpl in H. injection H as <-. simpl. lia.
  - rewrite validateMoves_cons in H.
    destruct (moveAccepted thisBoard boardCopy counts m) eqn:Hacc; [|discriminate].
    apply moveAccepted_cells in Hacc. destruct Hacc as (Hf & Ht & _).
    apply IH in H. rewrite H, (applyMove_countPieces _ _ Hf Ht).
    simpl length. lia.
Qed.

(** What acceptance by [validateSolution] says. *)
Lemma validateBoards_true thisBoard moves :
  validateBoards thisBoard moves = true ->
  exists survivor,
    validateMoves thisBoard thisBoard [] moves = Some (replay thisBoard moves)
    /\ remaining (replay thisBoard moves) = [Some survivor]
    /\ (hasKing thisBoard = true -> survivor = SimplePiece.K).
Proof.
  unfold validateBoards.
  destruct (validateMoves thisBoard thisBoard [] moves) as [final|] eqn:Hv;
    [|discriminate].
  pose proof (validateMoves_final _ _ _ _ _ Hv) as ->.
  destruct (remaining (replay thisBoard moves)) as [|c [|c' l]] eqn:Hrem;
    try discriminate.
  assert (Hc : occupied c = true).
  { assert (Hin : In c (remaining (replay thisBoard moves)))
      by (rewrite Hrem; left; reflexivity).
    unfold remaining in Hin. apply filter_In in Hin. apply Hin. }
  destruct c as [survivor|]; [|discriminate].
  intros H. exists survivor. split; [reflexivity|]. split; [reflexivity|].
  intros Hk. rewrite Hk in H. simpl in H.
  apply negb_true_iff, negb_false_iff in H.
  destruct (kind_eqb_spec survivor SimplePiece.K); [assumption|discriminate].
Qed.

Lemma validateMoves_mover_limit thisBoard moves :
  forall boardCopy counts final id,
    validateMoves thisBoard boardCopy counts moves = Some final ->
    moverCount id moves = 0
    \/ moveCountOf counts id + moverCount id moves <= 2.
Proof.
  induction moves as [|m rest IH]; intros boardCopy counts final id H.
  - left; reflexivity.
  - rewrite validateMoves_cons in H.
    destruct (moveAccepted thisBoard boardCopy counts m) eqn:Hacc; [|discriminate].
    apply moveAccepted_cells in Hacc. destruct Hacc as (_ & _ & Hlt).
    specialize (IH _ _ _ id H). unfold moverCount in *. rewrite countIf_cons.
    pose proof (countIf_nonneg (fun m0 => Move.pieceId m0 =? id) rest) as Hnn.
    destruct (Z.eqb_spec (Move.pieceId m) id) as [Heq|Hne]; simpl Z.b2z.
    + subst id. rewrite moveCountOf_mapSet_same in IH. right. lia.
    + rewrite moveCountOf_mapSet_other in IH by congruence.
      destruct IH as [IH|IH]; [left|right]; lia.
Qed.

(** ** Attempts and [generate] *)

Section Attempts.

Variable random : N -> number.

Lemma localLoop_outcome numPieces attemptsLeft :
  forall g,
    match localLoop random numPieces attemptsLeft g with
    | (Ok _, g') => okStep g g'
    | (Throw _, g') =>
        (Inv g -> Inv g') /\ pieceCount g' < numPieces
        /\ kingCount (board g') <= kingCount (board g)
    end.
Proof.
  induction attemptsLeft as [|k IH]; intros g.
  - simpl. destruct (pieceCount g <? numPieces);
      (split; [auto|split; [auto|lia]]).
  - cbn [localLoop].
    destruct (Z.ltb_spec (pieceCount g) numPieces) as [Hlt|Hge];
      [|split; [auto|split; [auto|lia]]].
    unfold bind. pose proof (localIteration_step random g) as Hstep.
    destruct (localIteration random g) as [[[]|e] g1]; simpl in Hstep.
    + specialize (IH g1).
      destruct (localLoop random numPieces k g1) as [[[]|e] g2].
      * destruct Hstep as (A1 & A2 & A3), IH as (B1 & B2 & B3).
        split; [auto|split; [auto|lia]].
      * destruct Hstep as (A1 & A2 & A3), IH as (B1 & B2 & B3).
        split; [auto|split; [auto|lia]].
    + destruct Hstep as (H1 & H2 & H3). split; [exact H1|split; lia].
Qed.

Lemma validateBoards_empty : validateBoards emptyBoard [] = false.
Proof. reflexivity. Qed.

Lemma kingCount_writeCell_le b pos v :
  kingCount (writeCell b pos v) <= kingCount b + 1.
Proof.
  destruct (readCell b pos) as [old|] eqn:Hr.
  - rewrite (kingCount_writeCell _ _ _ _ Hr).
    destruct (kingCell old), (kingCell v); simpl; lia.
  - rewrite (writeCell_outside _ _ _ Hr). lia.
Qed.

Lemma attemptBody_outcome numPieces g0 :
  Inv g0 -> board g0 = emptyBoard -> solution g0 = [] -> pieceCount g0 = 0 ->
  match attemptBody random numPieces g0 with
  | (Ok _, g') =>
      Inv g' /\ Accepted numPieces g' /\ (inUnitInterval random -> Counted g')
      /\ kingCount (board g') <= 1
  | (Throw e, g') =>
      Inv g' /\ ~ Accepted numPieces g' /\ kingCount (board g') <= 1
  end.
Proof.
  intros HI Hb Hs Hpc.
  unfold attemptBody, bind, gets.
  destruct (randomPosition_spec random g0) as (pos & g1 & Hrun & Hd1 & Hon).
  rewrite Hrun.
  assert (Hnot1 : ~ Accepted numPieces g1).
  { intros [_ Hv]. unfold validateSolution in Hv.
    rewrite (drawn_board _ _ Hd1), (drawn_solution _ _ Hd1), Hb, Hs in Hv.
    rewrite validateBoards_empty in Hv. discriminate. }
  pose proof (drawn_Inv _ _ Hd1 HI) as HI1.
  assert (Hk1 : kingCount (board g1) = 0).
  { rewrite (drawn_board _ _ Hd1), Hb. reflexivity. }
  destruct (SimplePiece.eqb (finalPiece g1) SimplePiece.P
            && ((Position.y pos =? 0) || (Position.y pos =? 7))).
  { split; [exact HI1|]. split; [exact Hnot1|lia]. }
  rewrite placePiece_run.
  destruct (SimplePiece.eqb (finalPiece g1) SimplePiece.P && (Position.y pos =? 0)).
  { split; [exact HI1|]. split; [exact Hnot1|lia]. }
  rewrite setLocation_run.
  set (g2 := located (nextPieceId g1) pos (placed (finalPiece g1) pos g1)).
  assert (HI2 : Inv g2) by (apply Inv_located, Inv_placed; exact HI1).
  assert (HC2 : inUnitInterval random -> Counted g2).
  { intros Hr. apply (Counted_placed (finalPiece g1) pos g1).
    - split; [apply (inv_board _ HI1)|].
      rewrite (drawn_pieceCount _ _ Hd1), (drawn_board _ _ Hd1), Hpc, Hb.
      reflexivity.
    - rewrite (drawn_board _ _ Hd1), Hb. apply readCell_empty. apply Hon, Hr. }
  assert (Hk2 : kingCount (board g2) <= 1).
  { change (board g2) with (writeCell (board g1) pos (Some (finalPiece g1))).
    pose proof (kingCount_writeCell_le (board g1) pos (Some (finalPiece g1))).
    lia. }
  pose proof (localLoop_outcome numPieces maxLocalAttempts g2) as Hloop.
  destruct (localLoop random numPieces maxLocalAttempts g2) as [[[]|e] g3].
  - destruct Hloop as (HI3 & HC3 & Hk3). specialize (HI3 HI2).
    destruct (Z.eqb_spec (pieceCount g3) numPieces) as [Heq|Hne].
    + unfold modify.
      destruct (validateSolution (withSolution (rev (solution g3)) g3)) eqn:Hv.
      * split; [apply Inv_reversed; exact HI3|]. split; [|split].
        -- split; [exact Heq|exact Hv].
        -- intros Hr. exact (HC3 (HC2 Hr)).
        -- simpl. lia.
      * split; [apply Inv_reversed; exact HI3|]. split; [|simpl; lia].
        intros [_ Hv']. rewrite Hv in Hv'. discriminate.
    + split; [exact HI3|]. split; [|lia].
      intros [Hc _]. contradiction.
  - destruct Hloop as (HI3 & Hlt & Hk3). split; [exact (HI3 HI2)|].
    split; [|lia]. intros [Hc _]. lia.
Qed.

Lemma attempt_unfold numPieces g :
  attempt random numPieces g = attemptBody random numPieces (resetAttempt g).
Proof. reflexivity. Qed.

Lemma attempt_outcome numPieces g :
  match attempt random numPieces g with
  | (Ok _, g') =>
      Inv g' /\ Accepted numPieces g' /\ (inUnitInterval random -> Counted g')
      /\ kingCount (board g') <= 1
  | (Throw e, g') =>
      Inv g' /\ ~ Accepted numPieces g' /\ kingCount (board g') <= 1
  end.
Proof.
  rewrite attempt_unfold. apply attemptBody_outcome; try reflexivity.
  apply Inv_reset.
Qed.

Lemma generateLoop_outcome numPieces attemptsLeft :
  forall g,
    match generateLoop random numPieces attemptsLeft g with
    | (Ok _, g') =>
        attemptsFail random numPieces attemptsLeft g = false
        /\ Inv g' /\ Accepted numPieces g'
        /\ (inUnitInterval random -> Counted g')
        /\ kingCount (board g') <= 1
    | (Throw e, g') =>
        e = CouldNotGenerate
        /\ attemptsFail random numPieces attemptsLeft g = true
        /\ ((0 < attemptsLeft)%nat ->
            Inv g' /\ ~ Accepted numPieces g' /\ kingCount (board g') <= 1)
    end.
Proof.
  induction attemptsLeft as [|k IH]; intros g.
  - simpl. split; [reflexivity|]. split; [reflexivity|]. intros H; inversion H.
  - cbn [generateLoop attemptsFail]. unfold catch.
    pose proof (attempt_outcome numPieces g) as Hatt.
    destruct (attempt random numPieces g) as [[[]|e] g1].
    + split; [reflexivity|exact Hatt].
    + specialize (IH g1). destruct k as [|k'].
      * simpl. split; [reflexivity|]. split; [reflexivity|]. intros _. exact Hatt.
      * destruct (generateLoop random numPieces (S k') g1) as [[[]|e'] g2].
        -- exact IH.
        -- destruct IH as (He & Hall & Hlast).
           split; [exact He|]. split; [exact Hall|]. intros _.
           apply Hlast. lia.
Qed.

Lemma maxGlobalAttempts_pos : (0 < maxGlobalAttempts)%nat.
Proof. unfold maxGlobalAttempts. lia. Qed.

End Attempts.

(** ** Reachable states *)

Lemma Inv_fieldInitializers : Inv fieldInitializers.
Proof.
  constructor; simpl.
  - exact wfBoard_empty.
  - exact ledgerOk_nil.
  - constructor.
Qed.

Lemma construct_invariants random finalPiece :
  Inv (construct random finalPiece)
  /\ kingCount (board (construct random finalPiece)) <= 1.
Proof.
  unfold construct. destruct finalPiece as [p|].
  - split; [|cbv; discriminate].
    destruct Inv_fieldInitializers as [H1 H2 H3]. constructor; assumption.
  - destruct (getRandomPiece_spec random false fieldInitializers)
      as (p & g & Hrun & Hd & _).
    rewrite Hrun. pose proof (drawn_Inv _ _ Hd Inv_fieldInitializers) as [H1 H2 H3].
    split; [constructor; assumption|].
    simpl. rewrite (drawn_board _ _ Hd). cbv; discriminate.
Qed.

Lemma generate_outcome random numPieces g :
  match generate random numPieces g with
  | (Ok _, g') =>
      attemptsFail random numPieces maxGlobalAttempts g = false
      /\ Inv g' /\ Accepted numPieces g'
      /\ (inUnitInterval random -> Counted g')
      /\ kingCount (board g') <= 1
  | (Throw e, g') =>
      e = CouldNotGenerate
      /\ attemptsFail random numPieces maxGlobalAttempts g = true
      /\ Inv g' /\ ~ Accepted numPieces g' /\ kingCount (board g') <= 1
  end.
Proof.
  unfold generate.
  pose proof (generateLoop_outcome random numPieces maxGlobalAttempts g) as H.
  destruct (generateLoop random numPieces maxGlobalAttempts g) as [[[]|e] g'].
  - exact H.
  - destruct H as (He & Hall & Hlast).
    split; [exact He|]. split; [exact Hall|].
    apply Hlast. exact maxGlobalAttempts_pos.
Qed.

Lemma reachable_invariants random g :
  reachable random g -> Inv g /\ kingCount (board g) <= 1.
Proof.
  induction 1 as [fp|g Hg IH|g Hg IH|n g Hg IH|n g Hg IH].
  - apply construct_invariants.
  - split; [apply Inv_reset|]. cbv; discriminate.
  - destruct IH as [HI Hk].
    pose proof (localIteration_step random g) as Hstep.
    destruct (localIteration random g) as [[[]|e] g']; simpl in *;
      destruct Hstep as (H1 & _ & H3); split; auto; lia.
  - pose proof (attempt_outcome random n g) as Hatt.
    destruct (attempt random n g) as [[[]|e] g']; simpl; tauto.
  - pose proof (generate_outcome random n g) as Hgen.
    destruct (generate random n g) as [[[]|e] g']; simpl; tauto.
Qed.

(** ** Sample runs *)

Lemma sampleStream_range : inUnitInterval sampleStream.
Proof.
  intros i. unfold sampleStream.
  set (n := Z.of_N i * Z.of_N i * 7919 + Z.of_N i * 104729 + 4242).
  pose proof (Z.mod_pos_bound n 1009 eq_refl) as Hb.
  split.
  - unfold Qle; simpl. lia.
  - unfold Qlt; simpl. lia.
Qed.

Lemma streamOf_range (samples : list number) :
  Forall (fun q => (0 <= q)%Q /\ (q < 1)%Q) samples ->
  inUnitInterval (streamOf samples).
Proof.
  intros Hall i. unfold streamOf. generalize (N.to_nat i). clear i.
  induction Hall as [|q l Hq _ IH]; intros [|n]; cbn [nth];
    try (split; [apply Qle_refl | reflexivity]).
  - exact Hq.
  - apply IH.
Qed.

Lemma lateStream_range : inUnitInterval lateStream.
Proof.
  intros i. unfold lateStream. destruct (i <? 39996)%N.
  - split; [apply Qle_refl | reflexivity].
  - apply streamOf_range. repeat constructor; discriminate.
Qed.

Example samplePuzzle_generated :
  generate sampleStream 3 kingGenerator = (Ok tt, samplePuzzle).
Proof. vm_compute. reflexivity. Qed.

Example samplePuzzle_fen_cells :
  board samplePuzzle
  = [ [None; None; None; None; None; None; None; None];
      [None; None; None; None; None; None; None; None];
      [None; None; None; None; None; None; None; None];
      [None; None; None; None; None; None; None; None];
      [None; None; None; Some SimplePiece.P; Some SimplePiece.B; None; None; None];
      [None; None; None; None; Some SimplePiece.K; None; None; None];
      [None; None; None; None; None; None; None; None];
      [None; None; None; None; None; None; None; None] ].
Proof. vm_compute. reflexivity. Qed.

Lemma samplePuzzle_reachable : reachable sampleStream samplePuzzle.
Proof. apply reach_generate, reach_construct. Qed.

(** ** What acceptance by the validator gives *)

Lemma generate_success_length (random : N -> number) (numPieces : Z)
      (g g' : Generator) :
  inUnitInterval random ->
  generate random numPieces g = (Ok tt, g') ->
  Z.of_nat (length (solution g')) = numPieces - 1.
Proof.
  intros Hr Hrun. pose proof (generate_outcome random numPieces g) as H.
  rewrite Hrun in H. destruct H as (_ & _ & [Hpc Hv] & HC & _).
  destruct (HC Hr) as [_ Hcount].
  apply validateBoards_true in Hv. destruct Hv as (survivor & Hmoves & Hrem & _).
  apply validateMoves_count in Hmoves.
  unfold countPieces at 1 in Hmoves. rewrite Hrem in Hmoves. simpl in Hmoves.
  lia.
Qed.

Lemma readCell_In (b : Board) (pos : Position) (c : Cell) :
  readCell b pos = Some c -> In c (concat b).
Proof.
  unfold readCell. destruct (index b (Position.y pos)) as [row|] eqn:Hrow;
    [|discriminate].
  intros H. apply in_concat. exists row.
  split; eapply index_In; eauto.
Qed.

Lemma kingCount_In (l : list Cell) :
  In (Some SimplePiece.K) l -> 0 < countIf kingCell l.
Proof.
  induction l as [|c l IH]; [intros []|].
  intros [->|Hin]; rewrite countIf_cons;
    pose proof (countIf_nonneg kingCell l).
  - cbn [kingCell Z.b2z]. lia.
  - specialize (IH Hin). destruct (kingCell c); cbn [Z.b2z]; lia.
Qed.

Lemma validateMoves_kings thisBoard moves :
  forall boardCopy counts final,
    validateMoves thisBoard boardCopy counts moves = Some final ->
    kingCount final <= kingCount boardCopy.
Proof.
  induction moves as [|m rest IH]; intros boardCopy counts final H.
  - simpl in H. injection H as <-. lia.
  - rewrite validateMoves_cons in H.
    destruct (moveAccepted thisBoard boardCopy counts m) eqn:Hacc; [|discriminate].
    apply moveAccepted_cells in Hacc. destruct Hacc as (Hf & Ht & _).
    apply IH in H. unfold kingCount in *.
    rewrite (applyMove_count kingCell _ _ Hf Ht) in H.
    replace (Z.b2z (kingCell None)) with 0 in H by reflexivity.
    destruct (kingCell (Some (Move.captured m))); cbn [Z.b2z] in H; lia.
Qed.

(** On a board with at most one king the validator accepts no move list
    in which a king stands on the destination square of a move when the
    move is replayed. *)
Lemma validateBoards_king_capture thisBoard pre m post :
  kingCount thisBoard <= 1 ->
  isKingAt (replay thisBoard pre) (Move.to m) = true ->
  validateBoards thisBoard (pre ++ m :: post) = false.
Proof.
  intros Hone Hking.
  destruct (validateBoards thisBoard (pre ++ m :: post)) eqn:Hv; [|reflexivity].
  exfalso. apply validateBoards_true in Hv.
  destruct Hv as (survivor & Hmoves & Hrem & Hsurv).
  set (final := replay thisBoard (pre ++ m :: post)) in *.
  apply validateMoves_app in Hmoves. destruct Hmoves as (counts' & Hpre & Hrest).
  apply validateMoves_kings in Hpre.
  rewrite validateMoves_cons in Hrest.
  destruct (moveAccepted thisBoard (replay thisBoard pre) counts' m) eqn:Hacc;
    [|discriminate].
  apply moveAccepted_cells in Hacc. destruct Hacc as (Hf & Ht & _).
  apply validateMoves_kings in Hrest.
  unfold kingCount in Hrest at 2.
  rewrite (applyMove_count kingCell _ _ Hf Ht) in Hrest.
  replace (Z.b2z (kingCell None)) with 0 in Hrest by reflexivity.
  unfold isKingAt in Hking.
  destruct (readCell (replay thisBoard pre) (Move.to m)) as [[[]|]|] eqn:Hto;
    try discriminate.
  apply cellIs_readCell in Ht. injection Ht as Ht.
  rewrite <- Ht in Hrest. cbn [kingCell Z.b2z] in Hrest.
  pose proof (kingCount_In _ (readCell_In _ _ _ Hto)) as Hpos.
  fold (kingCount (replay thisBoard pre)) in Hpos, Hrest.
  assert (Hhas : hasKing thisBoard = true) by (apply hasKing_kingCount; lia).
  specialize (Hsurv Hhas). subst survivor.
  assert (Hin : In (Some SimplePiece.K) (concat final)).
  { assert (Hin : In (Some SimplePiece.K) (remaining final))
      by (rewrite Hrem; left; reflexivity).
    unfold remaining in Hin. apply filter_In in Hin. apply Hin. }
  apply kingCount_In in Hin. fold (kingCount final) in Hin. lia.
Qed.

Lemma findValidCapturePosition_empty random from piece g pos promo g' :
  findValidCapturePosition random from piece g = (Ok (Some (pos, promo)), g') ->
  isSquareEmpty (board g) pos = true /\ isKingAt (board g) pos = false.
Proof.
  intros Hrun.
  destruct (findValidCapturePosition_spec random from piece g)
    as (g1 & _ & [(position & promoted & Hrun' & Hin & _)|[Hrun'|Hrun']]);
    rewrite Hrun in Hrun'; try discriminate.
  injection Hrun' as -> _ _.
  apply reachableEmpty_spec in Hin. tauto.
Qed.

Lemma hasLineOfSight_trace b from to r cells :
  sightTrace b from to = (Seen r, cells) -> hasLineOfSight b from to = r.
Proof.
  intros H. unfold hasLineOfSight, sightResult. rewrite H. simpl.
  destruct r; reflexivity.
Qed.

(** ** The final piece drawn by the constructor *)

Lemma Qleb_spec (a b : number) : reflect (a <= b)%Q (Qleb a b).
Proof.
  unfold Qleb. destruct (Qle_bool a b) eqn:H; constructor.
  - apply Qle_bool_iff; exact H.
  - intros Hle. apply Qle_bool_iff in Hle. congruence.
Qed.

Ltac weighted_side :=
  match goal with
  | |- _ <-> _ =>
      split;
      [ let H := fresh in
        intros H; first [discriminate H | lra | split; lra]
      | let H := fresh in
        intros H; first [reflexivity | exfalso; lra] ]
  end.

(** The part of the unit interval on which each kind is drawn. *)
Lemma finalPiece_regions (random : N -> number) :
  (0 <= random 0%N)%Q -> (random 0%N < 1)%Q ->
  (finalPiece (construct random None) = SimplePiece.K
   <-> (114 * random 0%N <= 100)%Q)
  /\ (finalPiece (construct random None) = SimplePiece.P
      <-> (100 < 114 * random 0%N)%Q /\ (114 * random 0%N <= 103)%Q)
  /\ (finalPiece (construct random None) = SimplePiece.N
      <-> (103 < 114 * random 0%N)%Q /\ (114 * random 0%N <= 107)%Q)
  /\ (finalPiece (construct random None) = SimplePiece.B
      <-> (107 < 114 * random 0%N)%Q /\ (114 * random 0%N <= 111)%Q)
  /\ (finalPiece (construct random None) = SimplePiece.R
      <-> (111 < 114 * random 0%N)%Q /\ (114 * random 0%N <= 113)%Q)
  /\ (finalPiece (construct random None) = SimplePiece.Q
      <-> (113 < 114 * random 0%N)%Q).
Proof.
  intros H0 H1. unfold construct, getRandomPiece, bind, gets.
  rewrite Math_random_run.
  change (weightsFor false (lastUsedPiece fieldInitializers)) with PIECE_WEIGHTS.
  change (draws fieldInitializers) with 0%N.
  assert (Ht : totalWeight PIECE_WEIGHTS = (114 # 1)%Q) by reflexivity.
  rewrite Ht. unfold PIECE_WEIGHTS. cbn [pickWeighted].
  repeat match goal with
         | |- context [Qleb ?a ?b] => destruct (Qleb_spec a b)
         end;
    unfold modify, ret; cbn [finalPiece withFinalPiece];
    repeat match goal with |- _ /\ _ => split end;
    weighted_side.
Qed.

(** ** Notation of squares *)

Local Open Scope string_scope.

Lemma onBoard_cases (pos : Position) :
  onBoard pos -> In pos allSquares.
Proof.
  destruct pos as [x y]. intros [Hx Hy]. simpl in Hx, Hy.
  unfold allSquares. apply in_flat_map. exists y. split.
  - unfold range8. simpl. lia.
  - apply (in_map (fun x0 => Position.mk x0 y)). unfold range8. simpl. lia.
Qed.

Lemma positionToAlgebraic_onBoard (pos : Position) :
  onBoard pos ->
  positionToAlgebraic pos = squareName pos
  /\ firstChar (positionToAlgebraic pos) = fileName (Position.x pos).
Proof.
  intros H. apply onBoard_cases in H.
  revert pos H. apply Forall_forall. vm_compute.
  repeat constructor.
Qed.

(** ** The board encoding and its decoding *)

Lemma append_empty_r (s : string) : s ++ EmptyString = s.
Proof. induction s as [|c s IH]; simpl; [reflexivity|rewrite IH; reflexivity]. Qed.

Lemma cellString_char (c : Cell) :
  cellString c
  = String (match c with Some p => SimplePiece.letter p | None => "1"%char end)
           EmptyString.
Proof. destruct c; reflexivity. Qed.

Lemma rowString_cons (c : Cell) (row : list Cell) :
  rowString (c :: row)
  = String (match c with Some p => SimplePiece.letter p | None => "1"%char end)
           (rowString row).
Proof.
  unfold rowString. simpl map. destruct row as [|c' row].
  - simpl. apply cellString_char.
  - change (String.concat EmptyString (cellString c :: map cellString (c' :: row)))
      with (cellString c ++ EmptyString ++ String.concat EmptyString (map cellString (c' :: row))).
    rewrite cellString_char. reflexivity.
Qed.

Lemma runText_digit (run : nat) :
  (1 <= run <= 9)%nat ->
  exists d, runText run = String d EmptyString
            /\ parseInt d = Some (Z.of_nat run)
            /\ d <> "/"%char /\ d <> " "%char.
Proof.
  intros H.
  do 10 (destruct run as [|run];
         [first [lia | eexists; repeat split; discriminate]|]).
  lia.
Qed.

Lemma letter_not_digit (p : SimplePiece) :
  parseInt (SimplePiece.letter p) = None
  /\ Ascii.eqb (SimplePiece.letter p) "1" = false
  /\ SimplePiece.letter p <> "/"%char /\ SimplePiece.letter p <> " "%char.
Proof. destruct p; repeat split; discriminate. Qed.

Lemma repeat_shift {A : Type} (a : A) (n : nat) (l : list A) :
  (repeat a (S n) ++ l = repeat a n ++ a :: l)%list.
Proof.
  induction n as [|n IH]; [reflexivity|].
  simpl in *. rewrite IH. reflexivity.
Qed.

Lemma run_positive (k : nat) : (0 <? Z.of_nat (S k))%Z = true.
Proof. apply Z.ltb_lt. lia. Qed.

(** The rank string of a row continued from a run of [run] ones. *)
Lemma replaceRuns_spec (row : list Cell) :
  forall run : nat,
    (run + length row <= 9)%nat ->
    expandRank (replaceRuns run (rowString row))
    = (repeat None run ++ map (option_map SimplePiece.letter) row)%list
    /\ rankWidth (replaceRuns run (rowString row)) = Z.of_nat (run + length row)
    /\ runsWhole false (replaceRuns run (rowString row)) = true
    /\ Forall (fun ch => ch <> "/"%char /\ ch <> " "%char)
              (chars (replaceRuns run (rowString row))).
Proof.
  induction row as [|c row IH]; intros run Hlen.
  - change (rowString []) with EmptyString. cbn [replaceRuns].
    destruct run as [|k].
    + simpl. repeat split. constructor.
    + destruct (runText_digit (S k)) as (d & Htext & Hd & Hs1 & Hs2);
        [simpl in Hlen; lia|].
      rewrite Htext. cbn [expandRank rankWidth runsWhole chars]. rewrite Hd.
      rewrite Nat2Z.id. simpl length. rewrite Nat.add_0_r.
      split; [reflexivity|].
      split; [lia|]. split; [|repeat constructor; assumption].
      rewrite run_positive. reflexivity.
  - rewrite rowString_cons. destruct c as [p|].
    + destruct (letter_not_digit p) as (Hp & Hone & Hs1 & Hs2).
      cbn [replaceRuns]. rewrite Hone.
      destruct (IH 0%nat) as (E & W & R & C); [simpl in *; lia|].
      destruct run as [|k].
      * cbn [runText append expandRank rankWidth runsWhole chars].
        rewrite Hp, E, W, R. cbn [length].
        split; [reflexivity|]. split; [lia|]. split; [reflexivity|].
        constructor; [split; assumption|exact C].
      * destruct (runText_digit (S k)) as (d & Htext & Hd & Hd1 & Hd2);
          [simpl in Hlen; lia|].
        rewrite Htext. cbn [append expandRank rankWidth runsWhole chars].
        rewrite Hd, Hp, E, W, R. rewrite Nat2Z.id.
        split; [reflexivity|]. split; [cbn [length]; lia|].
        split; [rewrite run_positive; reflexivity|].
        constructor; [split; assumption|].
        constructor; [split; assumption|exact C].
    + cbn [replaceRuns]. simpl Ascii.eqb.
      destruct (IH (S run)) as (E & W & R & C); [simpl in *; lia|].
      rewrite E, W, R. split; [apply repeat_shift|].
      split; [cbn [length]; lia|]. split; [reflexivity|exact C].
Qed.

Lemma rankString_spec (row : list Cell) :
  length row = 8%nat ->
  expandRank (rankString row) = map (option_map SimplePiece.letter) row
  /\ rankWidth (rankString row) = 8%Z
  /\ runsWhole false (rankString row) = true
  /\ Forall (fun ch => ch <> "/"%char /\ ch <> " "%char) (chars (rankString row)).
Proof.
  intros Hlen. destruct (replaceRuns_spec row 0) as (E & W & R & C);
    [rewrite Hlen; simpl; lia|].
  unfold rankString. rewrite E, W, R, Hlen.
  split; [reflexivity|]. split; [reflexivity|]. split; [reflexivity|exact C].
Qed.

Lemma split_without (sep : ascii) (s : string) :
  Forall (fun ch => ch <> sep) (chars s) -> split sep s = [s].
Proof.
  induction s as [|c s IH]; simpl; intros H; [reflexivity|].
  inversion H as [|? ? Hc Hs]; subst.
  destruct (Ascii.eqb_spec c sep); [contradiction|].
  rewrite (IH Hs). reflexivity.
Qed.

Lemma split_at (sep : ascii) (s t : string) :
  Forall (fun ch => ch <> sep) (chars s) ->
  split sep (s ++ String sep t) = s :: split sep t.
Proof.
  induction s as [|c s IH]; simpl; intros H.
  - rewrite Ascii.eqb_refl. reflexivity.
  - inversion H as [|? ? Hc Hs]; subst.
    destruct (Ascii.eqb_spec c sep); [contradiction|].
    rewrite (IH Hs). reflexivity.
Qed.

Lemma concat_cons (sep : string) (r r' : string) (rs : list string) :
  String.concat sep (r :: r' :: rs) = r ++ sep ++ String.concat sep (r' :: rs).
Proof. reflexivity. Qed.

Lemma split_concat (ranks : list string) :
  ranks <> [] ->
  Forall (fun r => Forall (fun ch => ch <> "/"%char) (chars r)) ranks ->
  split "/" (String.concat "/" ranks) = ranks.
Proof.
  induction ranks as [|r rs IH]; [congruence|]. intros _ H.
  inversion H as [|? ? Hr Hrs]; subst. destruct rs as [|r' rs].
  - simpl. apply split_without; exact Hr.
  - rewrite concat_cons.
    change (r ++ "/" ++ String.concat "/" (r' :: rs))
      with (r ++ String "/" (String.concat "/" (r' :: rs))).
    rewrite split_at by exact Hr. rewrite IH; [reflexivity|discriminate|exact Hrs].
Qed.

Lemma chars_app (s t : string) : chars (s ++ t) = (chars s ++ chars t)%list.
Proof. induction s as [|c s IH]; simpl; [reflexivity|rewrite IH; reflexivity]. Qed.

Lemma chars_concat (P : ascii -> Prop) (ranks : list string) :
  P "/"%char ->
  Forall (fun r => Forall P (chars r)) ranks ->
  Forall P (chars (String.concat "/" ranks)).
Proof.
  intros Hsep. induction ranks as [|r rs IH]; intros H; [constructor|].
  inversion H as [|? ? Hr Hrs]; subst. destruct rs as [|r' rs].
  - exact Hr.
  - rewrite concat_cons, !chars_app. apply Forall_app. split; [exact Hr|].
    apply Forall_app. split; [repeat constructor; exact Hsep|].
    apply IH; exact Hrs.
Qed.

Lemma rowCells_types (row : string) :
  forall pieceCounter,
    map (option_map TrackedPiece.type) (fst (rowCells pieceCounter row))
    = expandRank row.
Proof.
  induction row as [|char rest IH]; intros n; [reflexivity|].
  cbn [rowCells expandRank]. destruct (parseInt char) as [k|].
  - specialize (IH n). destruct (rowCells n rest) as [cells counter].
    cbn [fst] in *. rewrite map_app, IH. f_equal.
    induction (Z.to_nat k) as [|m IHm]; [reflexivity|].
    simpl. rewrite IHm. reflexivity.
  - specialize (IH (n + 1)%Z). destruct (rowCells (n + 1) rest) as [cells counter].
    cbn [fst] in *. simpl. rewrite IH. reflexivity.
Qed.

Lemma rowsCells_types (rows : list string) :
  forall pieceCounter,
    typesOf (rowsCells pieceCounter rows) = map expandRank rows.
Proof.
  induction rows as [|row rows IH]; intros n; [reflexivity|].
  cbn [rowsCells]. pose proof (rowCells_types row n) as Hrow.
  destruct (rowCells n row) as [cells counter]. cbn [fst] in Hrow.
  unfold typesOf in *. simpl. rewrite Hrow, IH. reflexivity.
Qed.

Lemma decodedCount_map {A B : Type} (f : A -> B) (b : list (list (option A))) :
  decodedCount (map (map (option_map f)) b) = decodedCount b.
Proof.
  unfold decodedCount. induction b as [|row b IH]; [reflexivity|].
  simpl. rewrite !countIf_app, IH. f_equal.
  induction row as [|c row IHr]; [reflexivity|].
  simpl. rewrite !countIf_cons, IHr. destruct c; reflexivity.
Qed.

Lemma decodedCount_board (b : Board) : decodedCount b = countPieces b.
Proof.
  unfold decodedCount, countPieces, remaining, countIf. f_equal. f_equal.
  apply filter_ext. intros [p|]; reflexivity.
Qed.

Lemma ranks_spec (b : Board) :
  Forall (fun row => length row = 8%nat) b ->
  Forall2 (fun rank row =>
             expandRank rank = map (option_map SimplePiece.letter) row
             /\ runsWhole false rank = true
             /\ rankWidth rank = 8%Z)
          (map rankString b) b
  /\ Forall (fun r => Forall (fun ch => ch <> "/"%char /\ ch <> " "%char) (chars r))
            (map rankString b)
  /\ map expandRank (map rankString b) = lettersOf b.
Proof.
  induction 1 as [|row b Hrow Hb (IH1 & IH2 & IH3)]; simpl.
  - repeat split; constructor.
  - destruct (rankString_spec row Hrow) as (E & W & R & C).
    split; [constructor; [tauto|exact IH1]|].
    split; [constructor; [exact C|exact IH2]|].
    unfold lettersOf in *. simpl. rewrite E, IH3. reflexivity.
Qed.

Lemma Forall_weaken_sep (P Q : ascii -> Prop) (ranks : list string) :
  (forall ch, P ch -> Q ch) ->
  Forall (fun r => Forall P (chars r)) ranks ->
  Forall (fun r => Forall Q (chars r)) ranks.
Proof.
  intros HPQ H. induction H as [|r rs Hr Hrs IH]; constructor; [|exact IH].
  eapply Forall_impl; [|exact Hr]. exact HPQ.
Qed.

Local Close Scope string_scope.

(** ** The search for a source square *)

Lemma reachableEmpty_not_promotion (b : Board) (from to : Position)
      (piece : option SimplePiece) :
  0 <= Position.y from ->
  In to (reachableEmpty b from piece) -> isPromotionSquare piece to = false.
Proof.
  intros Hy Hin. apply reachableEmpty_spec in Hin.
  destruct Hin as (_ & _ & _ & Hv).
  unfold isPromotionSquare. destruct piece as [[]|]; try reflexivity.
  cbn [isPawn andb]. unfold isValidMove in Hv.
  apply andb_true_iff in Hv. destruct Hv as [_ Hv]. apply Z.eqb_eq in Hv.
  apply Z.eqb_neq. lia.
Qed.

Lemma filter_none {A : Type} (f : A -> bool) (l : list A) :
  (forall a, In a l -> f a = false) -> filter f l = [].
Proof.
  induction l as [|a l IH]; intros H; [reflexivity|]. cbn [filter].
  rewrite (H a (or_introl eq_refl)). apply IH. intros a' Ha'. apply H. right; exact Ha'.
Qed.

Lemma filter_all {A : Type} (f : A -> bool) (l : list A) :
  (forall a, In a l -> f a = true) -> filter f l = l.
Proof.
  induction l as [|a l IH]; intros H; [reflexivity|]. cbn [filter].
  rewrite (H a (or_introl eq_refl)). f_equal. apply IH. intros a' Ha'. apply H. right; exact Ha'.
Qed.

Lemma promotionCandidates_none (b : Board) (from : Position) (piece : option SimplePiece) :
  0 <= Position.y from -> promotionCandidates b from piece = [].
Proof.
  intros Hy. apply filter_none. intros to Hin.
  eapply reachableEmpty_not_promotion; eauto.
Qed.

Lemma candidates_all (b : Board) (from : Position) (piece : option SimplePiece) :
  0 <= Position.y from -> candidates b from piece = reachableEmpty b from piece.
Proof.
  intros Hy. apply filter_all. intros to Hin.
  rewrite (reachableEmpty_not_promotion b from to piece Hy Hin). reflexivity.
Qed.

Lemma index_floor {A : Type} (array : list A) (r : number) :
  (0 <= r)%Q -> (r < 1)%Q -> array <> [] ->
  exists a, index array (floor (r * inject_Z (Z.of_nat (length array)))%Q) = Some a.
Proof.
  intros H0 H1 Hne.
  assert (Hlen : 0 < Z.of_nat (length array)).
  { destruct array; [congruence|]. cbn [length]. lia. }
  pose proof (floor_below r _ H0 H1 Hlen) as Hb.
  set (i := floor (r * inject_Z (Z.of_nat (length array)))%Q) in *.
  rewrite index_nth_error by lia.
  destruct (nth_error array (Z.to_nat i)) as [a|] eqn:Ha; [eauto|].
  apply nth_error_None in Ha. lia.
Qed.

(** From a square whose [y] is not negative the scan finds no promotion
    square, and the result carries no promoted kind. *)
Lemma findValidCapturePosition_run (random : N -> number) (from : Position)
      (piece : option SimplePiece) (g : Generator) :
  0 <= Position.y from ->
  findValidCapturePosition random from piece g
  = match reachableEmpty (board g) from piece with
    | [] => (Ok None, g)
    | squares =>
        match index squares
                (floor (random (draws g) * inject_Z (Z.of_nat (length squares)))%Q) with
        | Some position => (Ok (Some (position, None)), withDraws (N.succ (draws g)) g)
        | None => (Throw TypeError, withDraws (N.succ (draws g)) g)
        end
    end.
Proof.
  intros Hy. unfold findValidCapturePosition, bind, gets.
  rewrite (promotionCandidates_none _ _ piece Hy), (candidates_all _ _ piece Hy).
  cbn [length Nat.eqb negb]. rewrite andb_false_r, andb_true_r, app_nil_r.
  destruct (reachableEmpty (board g) from piece) as [|sq rest] eqn:Hre;
    [reflexivity|].
  cbn [length Nat.eqb]. unfold randomElement, bind. rewrite randomBelow_run.
  destruct (index (sq :: rest) _) as [position|] eqn:Hidx; [|reflexivity].
  unfold ret.
  assert (Hin : In position (reachableEmpty (board g) from piece)).
  { rewrite Hre. eapply index_In; eauto. }
  pose proof (reachableEmpty_not_promotion _ _ _ _ Hy Hin) as Hnp.
  unfold isPromotionSquare in Hnp. rewrite Hnp. reflexivity.
Qed.

(** ** Promotion flags, pawns and kings *)

Lemma drawn_finalPiece g g' : drawn g g' -> finalPiece g' = finalPiece g.
Proof. intros (n & l & ->). reflexivity. Qed.

Lemma Plain_drawn g g' : drawn g g' -> Plain g -> Plain g'.
Proof.
  intros Hd [H1 H2 H3]. constructor.
  - rewrite (drawn_board _ _ Hd). exact H1.
  - rewrite (drawn_board _ _ Hd), (drawn_finalPiece _ _ Hd). exact H2.
  - rewrite (drawn_solution _ _ Hd). exact H3.
Qed.

Lemma pawnRank_writeCell (b : Board) (pos : Position) (v : Cell) :
  (forall p, readCell b p = Some (Some SimplePiece.P) -> Position.y p <> 0) ->
  (v = Some SimplePiece.P -> Position.y pos <> 0) ->
  forall p, readCell (writeCell b pos v) p = Some (Some SimplePiece.P) ->
            Position.y p <> 0.
Proof.
  intros Hb Hv p Hp. destruct (pos_eqb_spec p pos) as [->|Hne].
  - destruct (readCell b pos) as [c|] eqn:Hc.
    + rewrite (readCell_writeCell_same _ _ v _ Hc) in Hp.
      injection Hp as Hp. exact (Hv Hp).
    + rewrite (writeCell_outside _ _ _ Hc) in Hp. exact (Hb _ Hp).
  - rewrite readCell_writeCell_other in Hp by exact Hne. exact (Hb _ Hp).
Qed.

Lemma Plain_placed piece pos g :
  Plain g ->
  SimplePiece.eqb piece SimplePiece.P && (Position.y pos =? 0) = false ->
  finalPiece g = SimplePiece.K \/ piece <> SimplePiece.K ->
  Plain (placed piece pos g).
Proof.
  intros [H1 H2 H3] Hc Hk. constructor.
  - change (board (placed piece pos g)) with (writeCell (board g) pos (Some piece)).
    apply pawnRank_writeCell; [exact H1|].
    intros [= ->]. cbn [SimplePiece.eqb andb] in Hc. apply Z.eqb_neq. exact Hc.
  - change (board (placed piece pos g)) with (writeCell (board g) pos (Some piece)).
    change (finalPiece (placed piece pos g)) with (finalPiece g).
    destruct H2 as [H2|H2]; [left; exact H2|].
    destruct Hk as [Hk|Hk]; [left; exact Hk|]. right.
    pose proof (kingCount_writeCell_notKing (board g) pos piece Hk).
    pose proof (kingCount_nonneg (writeCell (board g) pos (Some piece))). lia.
  - exact H3.
Qed.

Lemma Plain_removed pos g : Plain g -> Plain (removed pos g).
Proof.
  intros [H1 H2 H3]. constructor.
  - change (board (removed pos g)) with (writeCell (board g) pos None).
    apply pawnRank_writeCell; [exact H1|discriminate].
  - change (board (removed pos g)) with (writeCell (board g) pos None).
    change (finalPiece (removed pos g)) with (finalPiece g).
    destruct H2 as [H2|H2]; [left; exact H2|right].
    pose proof (kingCount_writeCell_null (board g) pos).
    pose proof (kingCount_nonneg (writeCell (board g) pos None)). lia.
  - exact H3.
Qed.

Lemma Plain_located id pos g : Plain g -> Plain (located id pos g).
Proof. intros [H1 H2 H3]. constructor; assumption. Qed.

Lemma Plain_incremented id g : Plain g -> Plain (incremented id g).
Proof. intros [H1 H2 H3]. constructor; assumption. Qed.

Lemma Plain_pushed move g :
  Plain g -> Move.wasPromotion move = false -> Plain (pushed move g).
Proof.
  intros [H1 H2 H3] Hm. constructor; try assumption.
  change (solution (pushed move g)) with (solution g ++ [move]).
  apply Forall_app. split; [exact H3|]. constructor; [exact Hm|constructor].
Qed.

Lemma readCell_emptyBoard (pos : Position) (c : Cell) :
  readCell emptyBoard pos = Some c -> c = None.
Proof.
  intros H. apply readCell_In in H.
  change (concat emptyBoard) with (repeat (@None SimplePiece) 64) in H.
  apply repeat_spec in H. exact H.
Qed.

Lemma Plain_reset g : Plain (resetAttempt g).
Proof.
  constructor.
  - intros pos H. apply readCell_emptyBoard in H. discriminate.
  - right. reflexivity.
  - constructor.
Qed.

Lemma Plain_reversed g : Plain g -> Plain (withSolution (rev (solution g)) g).
Proof.
  intros [H1 H2 H3]. constructor; try assumption.
  apply Forall_rev. exact H3.
Qed.

Lemma Plain_fieldInitializers : Plain fieldInitializers.
Proof.
  constructor.
  - intros pos H. apply readCell_emptyBoard in H. discriminate.
  - right. reflexivity.
  - constructor.
Qed.

Lemma Plain_withFinalPiece p g :
  board g = emptyBoard -> Plain g -> Plain (withFinalPiece p g).
Proof.
  intros Hb [H1 H2 H3]. constructor; try assumption.
  right. change (board (withFinalPiece p g)) with (board g). rewrite Hb. reflexivity.
Qed.

Section PlainSteps.

Variable random : N -> number.

Lemma placementLoop_plain attemptsLeft :
  forall g, Plain g -> Plain (snd (placementLoop random attemptsLeft g)).
Proof.
  induction attemptsLeft as [|k IH]; intros g HP; [exact HP|].
  cbn [placementLoop]. unfold bind, gets.
  destruct (randomPosition_spec random g) as (newPos & g1 & Hrun & Hd1 & _).
  rewrite Hrun.
  destruct (isSquareEmpty (board g1) newPos).
  - destruct (getRandomPiece_spec random true g1) as (np & g2 & Hrun2 & Hd2 & Hnp).
    rewrite Hrun2, placePiece_run.
    pose proof (Plain_drawn _ _ (drawn_trans _ _ _ Hd1 Hd2) HP) as HP2.
    destruct (SimplePiece.eqb np SimplePiece.P && (Position.y newPos =? 0)) eqn:Hc.
    + exact HP2.
    + rewrite setLocation_run. cbn [snd].
      apply Plain_located, Plain_placed; [exact HP2|exact Hc|].
      right. apply Hnp. reflexivity.
  - apply IH. eapply Plain_drawn; eauto.
Qed.

Lemma relocate_plain id currentPos current position g :
  readCell (board g) currentPos = Some (Some current) ->
  Plain g ->
  Plain (snd (relocate random id currentPos current position None g)).
Proof.
  intros Hcur HP. unfold relocate, bind. rewrite removePiece_run, placePiece_run.
  pose proof (Plain_removed currentPos g HP) as HP1.
  destruct (SimplePiece.eqb current SimplePiece.P && (Position.y position =? 0)) eqn:Hc;
    [exact HP1|].
  rewrite setLocation_run, incrementMoveCount_run.
  assert (Hking : finalPiece (removed currentPos g) = SimplePiece.K
                  \/ current <> SimplePiece.K).
  { destruct (plain_king _ HP) as [Hk|Hk]; [left; exact Hk|right].
    intros ->. pose proof (kingCount_In _ (readCell_In _ _ _ Hcur)) as Hpos.
    fold (kingCount (board g)) in Hpos. lia. }
  pose proof (Plain_incremented id _
                (Plain_located id position _
                   (Plain_placed current position _ HP1 Hc Hking))) as HP4.
  set (s4 := incremented id _) in *.
  destruct (getRandomPiece_spec random true s4) as (np & s5 & Hrun & Hd & Hnp).
  rewrite Hrun, placePiece_run.
  pose proof (Plain_drawn _ _ Hd HP4) as HP5.
  destruct (SimplePiece.eqb np SimplePiece.P && (Position.y currentPos =? 0)) eqn:Hc2;
    [exact HP5|].
  rewrite setLocation_run, pushMove_run. cbn [snd].
  apply Plain_pushed; [|reflexivity].
  apply Plain_located, Plain_placed; [exact HP5|exact Hc2|].
  right. apply Hnp. reflexivity.
Qed.

Lemma readCell_nonneg (b : Board) (pos : Position) (c : Cell) :
  readCell b pos = Some c -> 0 <= Position.x pos /\ 0 <= Position.y pos.
Proof.
  unfold readCell. destruct (index b (Position.y pos)) as [row|] eqn:Hrow;
    [|discriminate].
  intros H. apply index_Some in Hrow, H. lia.
Qed.

Lemma localIteration_plain g : Plain g -> Plain (snd (localIteration random g)).
Proof.
  intros HP. unfold localIteration, bind, gets.
  destruct (length (movablePieces g) =? 0)%nat.
  { apply placementLoop_plain. exact HP. }
  destruct (randomElement_spec random (movablePieces g) g)
    as (g1 & Hd1 & [([id currentPos] & Hrun & Hin)|Hrun]); rewrite Hrun;
    [|eapply Plain_drawn; eauto].
  pose proof (Plain_drawn _ _ Hd1 HP) as HP1.
  destruct (pieceAt g1 currentPos) as [current|] eqn:Hcur.
  - apply pieceAt_readCell in Hcur.
    destruct (readCell_nonneg _ _ _ Hcur) as [_ Hy].
    rewrite (findValidCapturePosition_run random currentPos (Some current) g1 Hy).
    destruct (reachableEmpty (board g1) currentPos (Some current)) as [|sq rest];
      [exact HP1|].
    cbv beta iota zeta.
    destruct (index (sq :: rest) _) as [position|];
      [|eapply Plain_drawn; [apply drawn_withDraws|exact HP1]].
    apply relocate_plain; [exact Hcur|].
    eapply Plain_drawn; [apply drawn_withDraws|exact HP1].
  - destruct (findValidCapturePosition_spec random currentPos None g1)
      as (g2 & Hd2 & [(position & promoted & Hrun2 & _)|[Hrun2|Hrun2]]);
      rewrite Hrun2; try destruct promoted; cbn [snd];
      eapply Plain_drawn; eauto.
Qed.

Lemma localLoop_plain numPieces attemptsLeft :
  forall g, Plain g -> Plain (snd (localLoop random numPieces attemptsLeft g)).
Proof.
  induction attemptsLeft as [|k IH]; intros g HP; cbn [localLoop].
  - destruct (pieceCount g <? numPieces); exact HP.
  - destruct (pieceCount g <? numPieces); [|exact HP].
    unfold bind. pose proof (localIteration_plain g HP) as H1.
    destruct (localIteration random g) as [[[]|e] g1]; cbn [snd] in H1.
    + apply IH. exact H1.
    + exact H1.
Qed.

Lemma attemptBody_plain numPieces g :
  Plain g -> kingCount (board g) = 0 ->
  Plain (snd (attemptBody random numPieces g)).
Proof.
  intros HP Hk0. unfold attemptBody, bind, gets.
  destruct (randomPosition_spec random g) as (pos & g1 & Hrun & Hd1 & _).
  rewrite Hrun. pose proof (Plain_drawn _ _ Hd1 HP) as HP1.
  destruct (SimplePiece.eqb (finalPiece g1) SimplePiece.P
            && ((Position.y pos =? 0) || (Position.y pos =? 7))); [exact HP1|].
  rewrite placePiece_run.
  destruct (SimplePiece.eqb (finalPiece g1) SimplePiece.P && (Position.y pos =? 0)) eqn:Hc;
    [exact HP1|].
  rewrite setLocation_run.
  assert (HP2 : Plain (located (nextPieceId g1) pos (placed (finalPiece g1) pos g1))).
  { apply Plain_located, Plain_placed; [exact HP1|exact Hc|].
    destruct (kind_eqb_spec (finalPiece g1) SimplePiece.K); [left|right]; assumption. }
  pose proof (localLoop_plain numPieces maxLocalAttempts _ HP2) as HP3.
  destruct (localLoop random numPieces maxLocalAttempts _) as [[[]|e] g3];
    cbn [snd] in HP3; [|exact HP3].
  destruct (pieceCount g3 =? numPieces); [|exact HP3].
  unfold modify.
  destruct (validateSolution (withSolution (rev (solution g3)) g3));
    apply Plain_reversed; exact HP3.
Qed.

Lemma attempt_plain numPieces g : Plain (snd (attempt random numPieces g)).
Proof.
  rewrite attempt_unfold. apply attemptBody_plain; [apply Plain_reset|reflexivity].
Qed.

Lemma generateLoop_plain numPieces attemptsLeft :
  forall g, Plain g -> Plain (snd (generateLoop random numPieces attemptsLeft g)).
Proof.
  induction attemptsLeft as [|k IH]; intros g HP; [exact HP|].
  cbn [generateLoop]. unfold catch.
  pose proof (attempt_plain numPieces g) as H1.
  destruct (attempt random numPieces g) as [[[]|e] g1]; cbn [snd] in H1.
  - exact H1.
  - apply IH. exact H1.
Qed.

Lemma construct_plain finalPiece : Plain (construct random finalPiece).
Proof.
  unfold construct. destruct finalPiece as [p|].
  - apply Plain_withFinalPiece; [reflexivity|apply Plain_fieldInitializers].
  - destruct (getRandomPiece_spec random false fieldInitializers)
      as (p & g & Hrun & Hd & _).
    rewrite Hrun. apply Plain_withFinalPiece.
    + rewrite (drawn_board _ _ Hd). reflexivity.
    + eapply Plain_drawn; eauto. apply Plain_fieldInitializers.
Qed.

Lemma reachable_plain g : reachable random g -> Plain g.
Proof.
  induction 1 as [fp|g Hg IH|g Hg IH|n g Hg IH|n g Hg IH].
  - apply construct_plain.
  - apply Plain_reset.
  - apply localIteration_plain. exact IH.
  - apply attempt_plain.
  - apply generateLoop_plain. exact IH.
Qed.

End PlainSteps.

(** * Properties of the specification *)

(** C1.  Whenever [generate numPieces] returns normally, the stored board
    holds exactly [numPieces] pieces; replaying the stored solution from
    that board, every move takes exactly one piece off, exactly one piece
    is left at the end, and it is the king if the stored board has a king
    anywhere. *)
Theorem C1_generate_success (random : N -> number) (numPieces : Z)
        (g g' : Generator) :
  inUnitInterval random ->
  generate random numPieces g = (Ok tt, g') ->
  countPieces (board g') = numPieces
  /\ (forall pre m post,
        solution g' = pre ++ m :: post ->
        countPieces (replay (board g') (pre ++ [m]))
        = countPieces (replay (board g') pre) - 1)
  /\ countPieces (replay (board g') (solution g')) = 1
  /\ (hasKing (board g') = true ->
      remaining (replay (board g') (solution g')) = [Some SimplePiece.K]).
Proof.
  intros Hr Hrun. pose proof (generate_outcome random numPieces g) as H.
  rewrite Hrun in H. destruct H as (_ & _ & [Hpc Hv] & HC & _).
  destruct (HC Hr) as [_ Hcount].
  apply validateBoards_true in Hv. destruct Hv as (survivor & Hmoves & Hrem & Hking).
  split; [congruence|]. split; [|split].
  - intros pre m post Hsplit. rewrite Hsplit in Hmoves.
    eapply validateMoves_one_per_move; eauto.
  - unfold countPieces. rewrite Hrem. reflexivity.
  - intros Hk. rewrite Hrem, (Hking Hk). reflexivity.
Qed.

Lemma C1_witness :
  countPieces (board samplePuzzle) = 3
  /\ (forall pre m post,
        solution samplePuzzle = pre ++ m :: post ->
        countPieces (replay (board samplePuzzle) (pre ++ [m]))
        = countPieces (replay (board samplePuzzle) pre) - 1)
  /\ countPieces (replay (board samplePuzzle) (solution samplePuzzle)) = 1
  /\ (hasKing (board samplePuzzle) = true ->
      remaining (replay (board samplePuzzle) (solution samplePuzzle))
      = [Some SimplePiece.K]).
Proof.
  apply (C1_generate_success sampleStream 3 kingGenerator samplePuzzle).
  - exact sampleStream_range.
  - vm_compute. reflexivity.
Defined.

(** C2, evaluated.  The reset at the top of the outer loop restores the
    board, the solution, the piece count, the ledger and the identity
    counter, and leaves [pieceLocations] as it is.  On [staleStream] the
    first attempt fails and its two entries are still in the map when the
    second attempt starts; the second attempt picks the stale identity 3 as
    mover in its first pass, and the puzzle [generate] returns differs from
    the one the same samples give from an empty map. *)
Theorem C2_piece_locations_survive_reset :
  (forall g, board (resetAttempt g) = emptyBoard
             /\ solution (resetAttempt g) = []
             /\ pieceCount (resetAttempt g) = 0
             /\ moveCounts (resetAttempt g) = []
             /\ nextPieceId (resetAttempt g) = 1
             /\ pieceLocations (resetAttempt g) = pieceLocations g)
  /\ fst (attempt staleStream 3 knightGenerator) = Throw InvalidPawnPlacement
  /\ pieceLocations secondAttemptStart
     = [(1, Position.mk 3 1); (3, Position.mk 0 2)]
  /\ generate staleStream 3 knightGenerator
     = attemptBody staleStream 3 secondAttemptStart
  /\ fst (attemptBody staleStream 3 secondAttemptStart) = Ok tt
  /\ fst (attemptBody staleStream 3 (withPieceLocations [] secondAttemptStart))
     = Ok tt
  /\ readCell (board (snd (attemptBody staleStream 3 secondAttemptStart)))
              (Position.mk 5 3) = Some (Some SimplePiece.N)
  /\ readCell (board (snd (attemptBody staleStream 3
                             (withPieceLocations [] secondAttemptStart))))
              (Position.mk 5 3) = Some None.
Proof.
  split; [intros g; repeat split|].
  vm_compute. repeat split.
Qed.

(** C3 as stated fails twice: with a pawn as final piece and every sample 0
    each attempt puts the pawn on the top rank, so [generate 3] fails; and
    a request of one piece, below the minimum of three, is searched and
    succeeds. *)
Lemma C3_counterexample :
  fst (generate zeroStream 3 (construct zeroStream (Some SimplePiece.P)))
  = Throw CouldNotGenerate
  /\ fst (generate sampleStream 1 kingGenerator) = Ok tt
  /\ solution (snd (generate sampleStream 1 kingGenerator)) = [].
Proof. vm_compute. repeat split. Qed.

(** C3, as the code has it.  A successful [generate numPieces] leaves a
    solution of exactly [numPieces - 1] moves, so two moves for a request
    of three.  The request is compared with no minimum (or maximum): for
    every request, [generate] fails only after all of its attempts have
    failed. *)
Theorem C3_solution_length_no_bounds (random : N -> number) (numPieces : Z)
        (g : Generator) :
  inUnitInterval random ->
  (forall g', generate random numPieces g = (Ok tt, g') ->
     Z.of_nat (length (solution g')) = numPieces - 1
     /\ (numPieces = 3 -> length (solution g') = 2%nat))
  /\ (forall e g', generate random numPieces g = (Throw e, g') ->
        attemptsFail random numPieces maxGlobalAttempts g = true).
Proof.
  intros Hr. split.
  - intros g' Hrun. pose proof (generate_success_length _ _ _ _ Hr Hrun) as Hlen.
    split; [exact Hlen|]. intros ->. lia.
  - intros e g' Hrun. pose proof (generate_outcome random numPieces g) as H.
    rewrite Hrun in H. apply H.
Qed.

Lemma C3_witness :
  (forall g', generate sampleStream 3 kingGenerator = (Ok tt, g') ->
     Z.of_nat (length (solution g')) = 3 - 1
     /\ (3 = 3 -> length (solution g') = 2%nat))
  /\ (forall e g', generate sampleStream 3 kingGenerator = (Throw e, g') ->
        attemptsFail sampleStream 3 maxGlobalAttempts kingGenerator = true).
Proof.
  apply (C3_solution_length_no_bounds sampleStream 3 kingGenerator).
  exact sampleStream_range.
Defined.

(** C4.  In every state a generator reaches a king is never the captured
    piece.  The reverse search returns only empty squares, so never the
    square of a king.  The validator returns false for every list of moves
    between squares of the board in which a king stands on the destination
    of a move at replay time: the board holds at most one king, and with
    that king taken the test of the survivor fails.  No solution that
    [generate] returns contains a move whose captured piece is a king. *)
Theorem C4_king_never_captured (random : N -> number) (g : Generator) :
  reachable random g ->
  (forall from piece pos promo g',
      findValidCapturePosition random from piece g = (Ok (Some (pos, promo)), g') ->
      isSquareEmpty (board g) pos = true /\ isKingAt (board g) pos = false)
  /\ (forall pre m post,
        Forall (fun move => onBoard (Move.from move) /\ onBoard (Move.to move))
               (pre ++ m :: post) ->
        isKingAt (replay (board g) pre) (Move.to m) = true ->
        validateBoards (board g) (pre ++ m :: post) = false)
  /\ (forall numPieces g',
        generate random numPieces g = (Ok tt, g') ->
        forall m, In m (solution g') -> Move.captured m <> SimplePiece.K).
Proof.
  intros Hreach. destruct (reachable_invariants _ _ Hreach) as [HI Hk].
  split; [|split].
  - intros from piece pos promo g'. apply findValidCapturePosition_empty.
  - intros pre m post _. apply validateBoards_king_capture. exact Hk.
  - intros numPieces g' Hrun m Hin.
    pose proof (generate_outcome random numPieces g) as H. rewrite Hrun in H.
    destruct H as (_ & HI' & _).
    pose proof (inv_solution _ HI') as Hsol. rewrite Forall_forall in Hsol.
    apply (Hsol m Hin).
Qed.

Lemma C4_witness :
  (forall from piece pos promo g',
      findValidCapturePosition sampleStream from piece samplePuzzle
      = (Ok (Some (pos, promo)), g') ->
      isSquareEmpty (board samplePuzzle) pos = true
      /\ isKingAt (board samplePuzzle) pos = false)
  /\ (forall pre m post,
        Forall (fun move => onBoard (Move.from move) /\ onBoard (Move.to move))
               (pre ++ m :: post) ->
        isKingAt (replay (board samplePuzzle) pre) (Move.to m) = true ->
        validateBoards (board samplePuzzle) (pre ++ m :: post) = false)
  /\ (forall numPieces g',
        generate sampleStream numPieces samplePuzzle = (Ok tt, g') ->
        forall m, In m (solution g') -> Move.captured m <> SimplePiece.K).
Proof.
  apply (C4_king_never_captured sampleStream samplePuzzle).
  apply reach_generate, reach_construct.
Defined.

(** C5 as stated fails: every sample between 0 and 1/2 gives the king. *)
Lemma C5_counterexample : ~ uniformFinalPiece.
Proof.
  intros H. specialize (H SimplePiece.K 0%Q (1 # 2)%Q).
  assert (Hle : ((1 # 2) - 0 <= 1 # 6)%Q).
  { apply H.
    - apply Qle_refl.
    - reflexivity.
    - intros random Hlo Hhi.
      assert (H1 : (random 0%N < 1)%Q) by lra.
      apply (finalPiece_regions random Hlo H1). lra. }
  vm_compute in Hle. apply Hle. reflexivity.
Qed.

(** C5, as the code has it.  Without an argument the constructor draws
    the final kind with the weights of [PIECE_WEIGHTS], king included,
    from one sample [u]: the king for every [u] up to 0.877, the pawn from
    0.878 to 0.903, the knight from 0.904 to 0.938, the bishop from 0.939
    to 0.973, the rook from 0.974 to 0.991 and the queen from 0.992.  The
    thresholds 100/114, 103/114, 107/114, 111/114 and 113/114 lie in the
    gaps between these intervals, at a distance of more than 0.0001 from
    every interval. *)
Theorem C5_final_piece_is_weighted (random : N -> number) :
  (0 <= random 0%N)%Q -> (random 0%N < 1)%Q ->
  ((random 0%N <= 877 # 1000)%Q ->
   finalPiece (construct random None) = SimplePiece.K)
  /\ ((878 # 1000 <= random 0%N)%Q -> (random 0%N <= 903 # 1000)%Q ->
      finalPiece (construct random None) = SimplePiece.P)
  /\ ((904 # 1000 <= random 0%N)%Q -> (random 0%N <= 938 # 1000)%Q ->
      finalPiece (construct random None) = SimplePiece.N)
  /\ ((939 # 1000 <= random 0%N)%Q -> (random 0%N <= 973 # 1000)%Q ->
      finalPiece (construct random None) = SimplePiece.B)
  /\ ((974 # 1000 <= random 0%N)%Q -> (random 0%N <= 991 # 1000)%Q ->
      finalPiece (construct random None) = SimplePiece.R)
  /\ ((992 # 1000 <= random 0%N)%Q ->
      finalPiece (construct random None) = SimplePiece.Q).
Proof.
  intros H0 H1.
  destruct (finalPiece_regions random H0 H1) as (HK & HP & HN & HB & HR & HQ).
  repeat split; intros.
  - apply HK. lra.
  - apply HP. split; lra.
  - apply HN. split; lra.
  - apply HB. split; lra.
  - apply HR. split; lra.
  - apply HQ. lra.
Qed.

Lemma C5_witness :
  ((streamOf [9 # 10]%Q 0%N <= 877 # 1000)%Q ->
   finalPiece (construct (streamOf [9 # 10]%Q) None) = SimplePiece.K)
  /\ ((878 # 1000 <= streamOf [9 # 10]%Q 0%N)%Q ->
      (streamOf [9 # 10]%Q 0%N <= 903 # 1000)%Q ->
      finalPiece (construct (streamOf [9 # 10]%Q) None) = SimplePiece.P)
  /\ ((904 # 1000 <= streamOf [9 # 10]%Q 0%N)%Q ->
      (streamOf [9 # 10]%Q 0%N <= 938 # 1000)%Q ->
      finalPiece (construct (streamOf [9 # 10]%Q) None) = SimplePiece.N)
  /\ ((939 # 1000 <= streamOf [9 # 10]%Q 0%N)%Q ->
      (streamOf [9 # 10]%Q 0%N <= 973 # 1000)%Q ->
      finalPiece (construct (streamOf [9 # 10]%Q) None) = SimplePiece.B)
  /\ ((974 # 1000 <= streamOf [9 # 10]%Q 0%N)%Q ->
      (streamOf [9 # 10]%Q 0%N <= 991 # 1000)%Q ->
      finalPiece (construct (streamOf [9 # 10]%Q) None) = SimplePiece.R)
  /\ ((992 # 1000 <= streamOf [9 # 10]%Q 0%N)%Q ->
      finalPiece (construct (streamOf [9 # 10]%Q) None) = SimplePiece.Q).
Proof.
  apply (C5_final_piece_is_weighted (streamOf [9 # 10]%Q)).
  - vm_compute. discriminate.
  - vm_compute. reflexivity.
Defined.

Local Open Scope string_scope.

(** What [getSolution] makes of the moves a generator has recorded, one
    string for each and in order: a move made by a pawn is the file of
    its source, an x and its destination square, and a move made by
    another piece is its kind, its source square, an x and its destination
    square.  No recorded move is flagged as a promotion, so the branch
    that writes a suffix is not taken. *)
Lemma getSolution_recorded (random : N -> number) (g : Generator) (i : nat)
      (m : Move) :
  reachable random g ->
  nth_error (solution g) i = Some m ->
  length (getSolution g) = length (solution g)
  /\ Move.wasPromotion m = false
  /\ exists s,
       nth_error (getSolution g) i = Some s
       /\ (Move.piece m = SimplePiece.P ->
           forall promoted, s = pawnNotation m promoted)
       /\ (Move.piece m <> SimplePiece.P -> s = pieceNotation m).
Proof.
  intros Hreach Hnth. pose proof (nth_error_In _ _ Hnth) as Hin.
  destruct (reachable_invariants _ _ Hreach) as [HI _].
  pose proof (inv_solution _ HI) as Hsol. rewrite Forall_forall in Hsol.
  destruct (Hsol m Hin) as (_ & Hfrom & Hto & _).
  pose proof (plain_moves _ (reachable_plain random g Hreach)) as Hflags.
  rewrite Forall_forall in Hflags. pose proof (Hflags m Hin) as Hflag.
  unfold getSolution.
  split; [apply length_map|]. split; [exact Hflag|].
  exists (notationOf m). split; [apply map_nth_error; exact Hnth|].
  destruct (positionToAlgebraic_onBoard _ Hfrom) as [Hf1 Hf2].
  destruct (positionToAlgebraic_onBoard _ Hto) as [Ht1 _].
  unfold notationOf, pawnNotation, pieceNotation. rewrite Hf2, Hf1, Ht1, Hflag. split.
  - intros -> promoted. cbn [SimplePiece.eqb]. rewrite append_empty_r. reflexivity.
  - intros Hne.
    destruct (kind_eqb_spec (Move.piece m) SimplePiece.P);
      [contradiction|reflexivity].
Qed.


Example samplePuzzle_notation :
  getSolution samplePuzzle = ["Ke3xd4"; "Kd4xe4"].
Proof. vm_compute. reflexivity. Qed.

(** C7.  For an 8x8 board [getFEN] is eight rank strings joined by '/';
    each rank string spells its row in file order, a letter for a piece and
    a digit for a run of empty squares, with no digit 0 and no two digits
    in a row, and its letters and digits add up to 8; [fenToBoard] rebuilds
    from the string, alone or followed by the fields the page appends, the
    kinds of the board cell by cell, so the number of decoded pieces is the
    number of occupied cells. *)
Theorem C7_fen_round_trip (g : Generator) :
  wfBoard (board g) ->
  getFEN g = String.concat "/" (map rankString (board g))
  /\ length (split "/" (getFEN g)) = 8%nat
  /\ Forall2 (fun rank row =>
                expandRank rank = map (option_map SimplePiece.letter) row
                /\ runsWhole false rank = true
                /\ rankWidth rank = 8%Z)
             (split "/" (getFEN g)) (board g)
  /\ typesOf (fenToBoard (getFEN g)) = lettersOf (board g)
  /\ typesOf (fenToBoard (getFEN g ++ " w - - 0 1")) = lettersOf (board g)
  /\ decodedCount (fenToBoard (getFEN g ++ " w - - 0 1"))
     = countPieces (board g).
Proof.
  intros [Hlen Hrows].
  destruct (ranks_spec (board g) Hrows) as (Hranks & Hchars & Hexpand).
  set (ranks := map rankString (board g)) in *.
  assert (Hne : ranks <> []).
  { intros Hnil. apply (f_equal (@length string)) in Hnil.
    unfold ranks in Hnil. rewrite length_map, Hlen in Hnil. discriminate. }
  assert (Hslash : Forall (fun r => Forall (fun ch => ch <> "/"%char) (chars r)) ranks).
  { eapply Forall_weaken_sep; [|exact Hchars]. intros ch H; apply H. }
  assert (Hsplit : split "/" (getFEN g) = ranks).
  { unfold getFEN. fold ranks. apply split_concat; assumption. }
  assert (Hspace : Forall (fun ch => ch <> " "%char) (chars (getFEN g))).
  { unfold getFEN. fold ranks. apply chars_concat; [discriminate|].
    eapply Forall_weaken_sep; [|exact Hchars]. intros ch H; apply H. }
  assert (Hplain : typesOf (fenToBoard (getFEN g)) = lettersOf (board g)).
  { unfold fenToBoard. rewrite (split_without " " _ Hspace). cbn [hd].
    rewrite Hsplit, rowsCells_types. exact Hexpand. }
  assert (Hfull : typesOf (fenToBoard (getFEN g ++ " w - - 0 1"))
                  = lettersOf (board g)).
  { unfold fenToBoard.
    change (getFEN g ++ " w - - 0 1") with (getFEN g ++ String " " "w - - 0 1").
    rewrite (split_at " " _ _ Hspace). cbn [hd].
    rewrite Hsplit, rowsCells_types. exact Hexpand. }
  split; [reflexivity|]. split; [rewrite Hsplit; unfold ranks; rewrite length_map; exact Hlen|].
  split; [rewrite Hsplit; exact Hranks|]. split; [exact Hplain|].
  split; [exact Hfull|].
  rewrite <- (decodedCount_map TrackedPiece.type).
  fold (typesOf (fenToBoard (getFEN g ++ " w - - 0 1"))). rewrite Hfull.
  unfold lettersOf. rewrite decodedCount_map. apply decodedCount_board.
Qed.

Lemma C7_witness :
  getFEN samplePuzzle = String.concat "/" (map rankString (board samplePuzzle))
  /\ length (split "/" (getFEN samplePuzzle)) = 8%nat
  /\ Forall2 (fun rank row =>
                expandRank rank = map (option_map SimplePiece.letter) row
                /\ runsWhole false rank = true
                /\ rankWidth rank = 8%Z)
             (split "/" (getFEN samplePuzzle)) (board samplePuzzle)
  /\ typesOf (fenToBoard (getFEN samplePuzzle)) = lettersOf (board samplePuzzle)
  /\ typesOf (fenToBoard (getFEN samplePuzzle ++ " w - - 0 1"))
     = lettersOf (board samplePuzzle)
  /\ decodedCount (fenToBoard (getFEN samplePuzzle ++ " w - - 0 1"))
     = countPieces (board samplePuzzle).
Proof.
  apply (C7_fen_round_trip samplePuzzle).
  vm_compute. split; [reflexivity|repeat constructor].
Defined.

Example samplePuzzle_fen : getFEN samplePuzzle = "8/8/8/8/3PB3/4K3/8/8".
Proof. vm_compute. reflexivity. Qed.

Local Close Scope string_scope.

(** C8, evaluated.  The ledger counts labels, and a label is not a piece:
    [pieceLocations] keeps the entries of a failed attempt, and an entry
    left on a square moves whatever piece stands there later.  On
    [thirdMoveStream] the first attempt of [generate 5] fails at the
    acceptance test and leaves label 9 on e6.  In the second attempt the
    final knight comes to e6 by two moves under label 1 and is moved a
    third time under label 9.  [generate] returns normally: no label makes
    more than two moves, [validateSolution] accepts, and in the solution
    the knight that starts on d8 captures three times.  On the page, where
    a piece keeps its identity, the third of these captures is refused. *)
Theorem C8_one_piece_moves_three_times :
  inUnitInterval thirdMoveStream
  /\ fst (attempt thirdMoveStream 5 thirdMoveStart) = Throw GenerationAttemptFailed
  /\ mapGet (pieceLocations (snd (attempt thirdMoveStream 5 thirdMoveStart))) 9
     = Some (Position.mk 4 2)
  /\ fst (generate thirdMoveStream 5 thirdMoveStart) = Ok tt
  /\ draws thirdMovePuzzle = 35%N
  /\ getFEN thirdMovePuzzle = "3N4/2B5/N3P3/8/3N4/8/8/8"%string
  /\ getSolution thirdMovePuzzle
     = ["Nd4xe6"; "Nd8xe6"; "Ne6xc7"; "Nc7xa6"]%string
  /\ map Move.pieceId (solution thirdMovePuzzle) = [7; 9; 1; 1]
  /\ validateSolution thirdMovePuzzle = true
  /\ movesOfPieceAt (Position.mk 3 0) (solution thirdMovePuzzle) = 3
  /\ dropResults (solution thirdMovePuzzle)
                 (GameState.mk
                    (fenToBoard (getFEN thirdMovePuzzle ++ " w - - 0 1")%string) [])
     = [true; true; true; false].
Proof.
  split.
  - apply streamOf_range. cbn [map].
    repeat constructor; discriminate.
  - vm_compute. repeat split.
Qed.

(** C9 as stated fails in its last part: nothing clears the fields when
    [generate] gives up, and the board and solution of the last attempt
    stay in the generator.  On [lateStream] the run of [generate 3] fails,
    and what it leaves is a board of two pawns with a solution of one
    move that [validateSolution] accepts. *)
Lemma C9_counterexample :
  inUnitInterval lateStream
  /\ fst (generate lateStream 3 pawnGenerator) = Throw CouldNotGenerate
  /\ pieceCount failedRun = 2
  /\ getFEN failedRun = "8/8/8/8/8/8/3P4/2P5"%string
  /\ getSolution failedRun = ["cxd2"%string]
  /\ validateSolution failedRun = true.
Proof.
  split; [exact lateStream_range|].
  vm_compute. repeat split.
Qed.

(** C9, as the code has it.  [generate] ends normally or raises the
    exhaustion error, and it raises it exactly when all of its 10000
    attempts have failed; an exception raised inside an attempt, whatever
    it is, is turned into the next pass of the outer loop; and the state a
    failed [generate] leaves, which is not cleared, does not pass the
    acceptance test of the request (the requested piece count together
    with a valid solution). *)
Theorem C9_only_exhaustion_is_raised (random : N -> number) (numPieces : Z)
        (g : Generator) :
  Z.of_nat maxGlobalAttempts = 10000
  /\ (fst (generate random numPieces g) = Ok tt
      \/ fst (generate random numPieces g) = Throw CouldNotGenerate)
  /\ (fst (generate random numPieces g) = Throw CouldNotGenerate
      <-> attemptsFail random numPieces maxGlobalAttempts g = true)
  /\ (forall attemptsLeft e g0 g1,
        attempt random numPieces g0 = (Throw e, g1) ->
        generateLoop random numPieces (S attemptsLeft) g0
        = generateLoop random numPieces attemptsLeft g1)
  /\ (fst (generate random numPieces g) = Throw CouldNotGenerate ->
      ~ Accepted numPieces (snd (generate random numPieces g))).
Proof.
  pose proof (generate_outcome random numPieces g) as H.
  split; [unfold maxGlobalAttempts; apply Z2Nat.id; discriminate|].
  destruct (generate random numPieces g) as [[[]|e] g'] eqn:Hrun; cbn [fst snd].
  - destruct H as (Hall & _). split; [left; reflexivity|]. split; [|split].
    + rewrite Hall. split; discriminate.
    + intros k e g0 g1 Hatt. cbn [generateLoop]. unfold catch. rewrite Hatt.
      reflexivity.
    + discriminate.
  - destruct H as (-> & Hall & _ & Hnot & _).
    split; [right; reflexivity|]. split; [|split].
    + rewrite Hall. split; reflexivity.
    + intros k e g0 g1 Hatt. cbn [generateLoop]. unfold catch. rewrite Hatt.
      reflexivity.
    + intros _. exact Hnot.
Qed.

(** C10.  Where [isValidMove] goes on to call [hasLineOfSight] (the delta
    test of a bishop, rook or queen holds), in a call made by the reverse
    search or by the validator on a reachable state, the two squares are
    distinct squares of the board on one rank, file or diagonal.  On such
    squares the scan ends with a boolean after reading at most seven
    cells, every cell read is a square of the board strictly between the
    two, and the boolean is true exactly when all the squares strictly
    between the two are empty. *)
Theorem C10_line_of_sight (random : N -> number) (g : Generator)
        (from to : Position) (piece : option SimplePiece) :
  reachable random g ->
  scanCall g from to piece \/ validatorCall g from to piece ->
  sightGuard from to piece = true ->
  (onBoard from /\ onBoard to /\ from <> to /\ aligned from to)
  /\ (forall (b : Board) (f t : Position),
        wfBoard b -> onBoard f -> onBoard t -> f <> t -> aligned f t ->
        exists r cells,
          sightTrace b f t = (Seen r, cells)
          /\ (length cells <= 7)%nat
          /\ (forall c, In c cells -> intermediate f t c /\ onBoard c)
          /\ (r = true <->
              forall p, intermediate f t p -> readCell b p = Some None)
          /\ hasLineOfSight b f t = r).
Proof.
  intros Hreach Hcall Hguard.
  destruct (reachable_invariants _ _ Hreach) as [HI _].
  split.
  - pose proof (sightGuard_aligned _ _ _ Hguard) as Hal.
    destruct Hcall as [(Hpiece & Hto & _ & Hempty)|(m & Hin & -> & -> & ->)].
    + apply isSquareEmpty_readCell in Hempty.
      assert (Hfrom : exists p, readCell (board g) from = Some (Some p)).
      { destruct (sightGuard_piece _ _ _ Hguard) as [Hp|[Hp|Hp]];
          rewrite Hp in Hpiece; symmetry in Hpiece;
          apply pieceAt_readCell in Hpiece; eauto. }
      destruct Hfrom as (p & Hfrom).
      split; [eapply readCell_onBoard; [apply (inv_board _ HI)|exact Hfrom]|].
      split; [apply allSquares_onBoard; exact Hto|].
      split; [|exact Hal].
      intros ->. rewrite Hfrom in Hempty. discriminate.
    + pose proof (inv_solution _ HI) as Hsol. rewrite Forall_forall in Hsol.
      destruct (Hsol m Hin) as (_ & H1 & H2 & H3 & _). auto.
  - intros b f t Hwf Hf Ht Hne Hal.
    destruct (sightTrace_spec b f t Hwf Hf Ht Hne Hal)
      as (r & cells & Hrun & Hlen & Hcells & Hr).
    exists r, cells. split; [exact Hrun|]. split; [exact Hlen|].
    split; [exact Hcells|]. split; [exact Hr|].
    eapply hasLineOfSight_trace; eauto.
Qed.

Example queenPuzzle_slide : nth_error (solution queenPuzzle) 3 = Some queenSlide.
Proof. vm_compute. reflexivity. Qed.

Lemma C10_witness :
  (onBoard (Position.mk 3 2) /\ onBoard (Position.mk 5 2)
   /\ Position.mk 3 2 <> Position.mk 5 2
   /\ aligned (Position.mk 3 2) (Position.mk 5 2))
  /\ (forall (b : Board) (f t : Position),
        wfBoard b -> onBoard f -> onBoard t -> f <> t -> aligned f t ->
        exists r cells,
          sightTrace b f t = (Seen r, cells)
          /\ (length cells <= 7)%nat
          /\ (forall c, In c cells -> intermediate f t c /\ onBoard c)
          /\ (r = true <->
              forall p, intermediate f t p -> readCell b p = Some None)
          /\ hasLineOfSight b f t = r).
Proof.
  apply (C10_line_of_sight sampleStream queenPuzzle (Position.mk 3 2)
                           (Position.mk 5 2) (Some SimplePiece.Q)).
  - apply reach_generate, reach_construct.
  - right. exists queenSlide. split.
    + apply (nth_error_In _ 3). vm_compute. reflexivity.
    + repeat split.
  - reflexivity.
Defined.

(** * Further properties of the code *)

(** ** The validator and the legality test *)

Lemma hasKing_remaining (b : Board) :
  hasKing b = true -> In (Some SimplePiece.K) (remaining b).
Proof.
  unfold hasKing, remaining. rewrite existsb_exists. intros (c & Hin & Hc).
  destruct c as [[]|]; try discriminate.
  apply filter_In. split; [exact Hin|reflexivity].
Qed.

(** X8.  [validateSolution] accepts an empty solution exactly on a board
    that holds one piece. *)
Theorem X8_empty_solution (b : Board) :
  validateBoards b [] = true <-> countPieces b = 1.
Proof.
  unfold validateBoards. cbn [validateMoves]. unfold countPieces.
  pose proof (hasKing_remaining b) as Hk.
  destruct (remaining b) as [|c [|c' l]] eqn:Hrem; cbn [length].
  - split; [discriminate|lia].
  - split; [reflexivity|]. intros _.
    destruct (hasKing b); [|reflexivity].
    destruct (Hk eq_refl) as [->|[]]. reflexivity.
  - split; [discriminate|lia].
Qed.

Lemma distance_sym (f t : Position) : distance f t = distance t f.
Proof. unfold distance. lia. Qed.

Lemma aligned_sym (f t : Position) : aligned f t -> aligned t f.
Proof. unfold aligned. cbv zeta. intros H. lia. Qed.

Lemma intermediate_sym (f t p : Position) :
  aligned f t -> intermediate f t p -> intermediate t f p.
Proof.
  intros Hal (k & Hk & ->). exists (distance f t - k).
  rewrite (distance_sym t f). split; [lia|].
  unfold squareAt, distance, aligned in *. cbv zeta in *.
  destruct f as [fx fy], t as [tx ty]; cbn [Position.x Position.y] in *.
  destruct (Z.sgn_spec (tx - fx)) as [[? ->]|[[? ->]|[? ->]]];
  destruct (Z.sgn_spec (fx - tx)) as [[? ->]|[[? ->]|[? ->]]]; try lia;
  destruct (Z.sgn_spec (ty - fy)) as [[? ->]|[[? ->]|[? ->]]];
  destruct (Z.sgn_spec (fy - ty)) as [[? ->]|[[? ->]|[? ->]]]; try lia;
  f_equal; lia.
Qed.

Lemma hasLineOfSight_same (b : Board) (p : Position) : hasLineOfSight b p p = true.
Proof.
  unfold hasLineOfSight, sightResult, sightTrace.
  rewrite !Z.sub_diag. change (stepOf 0) with 0. rewrite !Z.add_0_r.
  rewrite sightLoop_unfold, !Z.eqb_refl. reflexivity.
Qed.

Lemma hasLineOfSight_clear (b : Board) (f t : Position) :
  wfBoard b -> onBoard f -> onBoard t -> f <> t -> aligned f t ->
  (hasLineOfSight b f t = true
   <-> forall p, intermediate f t p -> readCell b p = Some None).
Proof.
  intros Hwf Hf Ht Hne Hal.
  destruct (sightTrace_spec b f t Hwf Hf Ht Hne Hal) as (r & cells & Hrun & _ & _ & Hr).
  rewrite (hasLineOfSight_trace _ _ _ _ _ Hrun). exact Hr.
Qed.

Lemma hasLineOfSight_sym (b : Board) (f t : Position) :
  wfBoard b -> onBoard f -> onBoard t -> aligned f t ->
  hasLineOfSight b f t = hasLineOfSight b t f.
Proof.
  intros Hwf Hf Ht Hal.
  destruct (pos_eqb_spec f t) as [->|Hne]; [reflexivity|].
  assert (Hne' : t <> f) by congruence.
  pose proof (hasLineOfSight_clear b f t Hwf Hf Ht Hne Hal) as H1.
  pose proof (hasLineOfSight_clear b t f Hwf Ht Hf Hne' (aligned_sym _ _ Hal)) as H2.
  apply eq_true_iff_eq. rewrite H1, H2.
  split; intros H p Hp; apply H; apply intermediate_sym;
    try exact Hp; [apply aligned_sym|]; exact Hal.
Qed.

Lemma sightGuard_sym (f t : Position) (piece : option SimplePiece) :
  sightGuard f t piece = sightGuard t f piece.
Proof.
  unfold sightGuard.
  replace (Z.abs (Position.x t - Position.x f)) with (Z.abs (Position.x f - Position.x t)) by lia.
  replace (Z.abs (Position.y f - Position.y t)) with (Z.abs (Position.y t - Position.y f)) by lia.
  reflexivity.
Qed.

(** X4.  On a board of 8 by 8, for squares of the board, [isValidMove]
    accepts a move in reverse exactly when it accepts the opposite move
    forward: what the generator checks when it moves a piece back is what
    the validator checks when the capture is played. *)
Theorem X4_reverse_move_is_forward_move (b : Board) (from to : Position) (piece : SimplePiece) :
  wfBoard b -> onBoard from -> onBoard to ->
  isValidMove b from to (Some piece) true = isValidMove b to from (Some piece) false.
Proof.
  intros Hwf Hf Ht.
  destruct (sightGuard from to (Some piece)) eqn:Hg.
  - pose proof (sightGuard_aligned _ _ _ Hg) as Hal.
    pose proof (sightGuard_piece _ _ _ Hg) as Hp.
    assert (Hp' : piece = SimplePiece.B \/ piece = SimplePiece.R \/ piece = SimplePiece.Q).
    { destruct Hp as [H|[H|H]]; injection H as ->; auto. }
    rewrite !(isValidMove_sliding _ _ _ _ _ Hp').
    rewrite <- sightGuard_sym, (hasLineOfSight_sym b from to Hwf Hf Ht Hal). reflexivity.
  - destruct piece; unfold isValidMove; unfold sightGuard in Hg.
    + f_equal; [f_equal; lia|f_equal; lia].
    + replace (Z.abs (Position.x to - Position.x from)) with (Z.abs (Position.x from - Position.x to)) by lia.
      replace (Z.abs (Position.y from - Position.y to)) with (Z.abs (Position.y to - Position.y from)) by lia.
      rewrite Hg. rewrite !andb_false_l. reflexivity.
    + replace (Z.abs (Position.x to - Position.x from)) with (Z.abs (Position.x from - Position.x to)) by lia.
      replace (Z.abs (Position.y from - Position.y to)) with (Z.abs (Position.y to - Position.y from)) by lia.
      rewrite Hg. rewrite !andb_false_l. reflexivity.
    + replace (Z.abs (Position.x to - Position.x from)) with (Z.abs (Position.x from - Position.x to)) by lia.
      replace (Z.abs (Position.y from - Position.y to)) with (Z.abs (Position.y to - Position.y from)) by lia.
      rewrite Hg. rewrite !andb_false_l. reflexivity.
    + replace (Z.abs (Position.x to - Position.x from)) with (Z.abs (Position.x from - Position.x to)) by lia.
      replace (Z.abs (Position.y from - Position.y to)) with (Z.abs (Position.y to - Position.y from)) by lia.
      reflexivity.
    + replace (Z.abs (Position.x to - Position.x from)) with (Z.abs (Position.x from - Position.x to)) by lia.
      f_equal. destruct (Z.eqb_spec (Position.y to - Position.y from) 1),
                 (Z.eqb_spec (Position.y from - Position.y to) (-1)); try reflexivity; lia.
Qed.

Lemma X4_witness :
  isValidMove (board samplePuzzle) (Position.mk 3 4) (Position.mk 4 5)
              (Some SimplePiece.P) true
  = isValidMove (board samplePuzzle) (Position.mk 4 5) (Position.mk 3 4)
                (Some SimplePiece.P) false.
Proof.
  apply (X4_reverse_move_is_forward_move (board samplePuzzle) (Position.mk 3 4)
           (Position.mk 4 5) SimplePiece.P).
  - vm_compute. split; [reflexivity|repeat constructor].
  - unfold onBoard. simpl. lia.
  - unfold onBoard. simpl. lia.
Defined.

(** ** Moves the validator accepts; random squares *)

Lemma applyMove_keeps_empty (boardCopy : Board) (m : Move) (c : SimplePiece) (p : Position) :
  readCell boardCopy (Move.to m) = Some (Some c) ->
  readCell boardCopy p = Some None ->
  readCell (applyMove boardCopy m) p = Some None.
Proof.
  intros Hto Hp. unfold applyMove.
  assert (Hne : p <> Move.to m).
  { intros ->. rewrite Hto in Hp. discriminate. }
  assert (Hmid : readCell (writeCell boardCopy (Move.to m) (Some (Move.piece m))) p = Some None).
  { rewrite readCell_writeCell_other by exact Hne. exact Hp. }
  destruct (pos_eqb_spec p (Move.from m)) as [->|Hnf].
  - eapply readCell_writeCell_same; eauto.
  - rewrite readCell_writeCell_other by exact Hnf. exact Hmid.
Qed.

Lemma wfBoard_applyMove (boardCopy : Board) (m : Move) :
  wfBoard boardCopy -> wfBoard (applyMove boardCopy m).
Proof. intros H. unfold applyMove. apply wfBoard_writeCell, wfBoard_writeCell, H. Qed.

Lemma wfBoard_replay (moves : list Move) :
  forall b, wfBoard b -> wfBoard (replay b moves).
Proof.
  induction moves as [|m rest IH]; intros b H; [exact H|].
  apply (IH (applyMove b m)), wfBoard_applyMove, H.
Qed.

Lemma validateMoves_keeps_empty thisBoard moves :
  forall boardCopy counts final p,
    validateMoves thisBoard boardCopy counts moves = Some final ->
    readCell boardCopy p = Some None -> readCell final p = Some None.
Proof.
  induction moves as [|m rest IH]; intros boardCopy counts final p H Hp.
  - simpl in H. injection H as <-. exact Hp.
  - rewrite validateMoves_cons in H.
    destruct (moveAccepted thisBoard boardCopy counts m) eqn:Hacc; [|discriminate].
    apply moveAccepted_cells in Hacc. destruct Hacc as (_ & Ht & _).
    apply cellIs_readCell in Ht.
    eapply IH; [exact H|]. eapply applyMove_keeps_empty; eauto.
Qed.

Lemma hasLineOfSight_mono (b b' : Board) (f t : Position) :
  wfBoard b -> wfBoard b' -> onBoard f -> onBoard t -> aligned f t ->
  (forall p, readCell b p = Some None -> readCell b' p = Some None) ->
  hasLineOfSight b f t = true -> hasLineOfSight b' f t = true.
Proof.
  intros Hwf Hwf' Hf Ht Hal Hsub H.
  destruct (pos_eqb_spec f t) as [->|Hne]; [apply hasLineOfSight_same|].
  apply (hasLineOfSight_clear b' f t Hwf' Hf Ht Hne Hal).
  intros p Hp. apply Hsub.
  apply (hasLineOfSight_clear b f t Hwf Hf Ht Hne Hal); assumption.
Qed.

Lemma isValidMove_mono (b b' : Board) (f t : Position) (piece : option SimplePiece)
      (backward : bool) :
  wfBoard b -> wfBoard b' -> onBoard f -> onBoard t ->
  (forall p, readCell b p = Some None -> readCell b' p = Some None) ->
  isValidMove b f t piece backward = true -> isValidMove b' f t piece backward = true.
Proof.
  intros Hwf Hwf' Hf Ht Hsub.
  destruct (sightGuard f t piece) eqn:Hg.
  - pose proof (sightGuard_aligned _ _ _ Hg) as Hal.
    destruct (sightGuard_piece _ _ _ Hg) as [->|[->| ->]];
      rewrite !isValidMove_sliding by auto; rewrite Hg, !andb_true_l;
      apply hasLineOfSight_mono; assumption.
  - rewrite (isValidMove_not_sliding b b' f t piece backward Hg). auto.
Qed.

Lemma validated_move_playable (thisBoard : Board) (pre post : list Move) (m : Move) :
  wfBoard thisBoard ->
  validateBoards thisBoard (pre ++ m :: post) = true ->
  readCell (replay thisBoard pre) (Move.from m) = Some (Some (Move.piece m))
  /\ readCell (replay thisBoard pre) (Move.to m) = Some (Some (Move.captured m))
  /\ isValidMove (replay thisBoard pre) (Move.from m) (Move.to m)
                 (Some (Move.piece m)) false = true.
Proof.
  intros Hwf Hv. apply validateBoards_true in Hv.
  destruct Hv as (survivor & Hmoves & _).
  apply validateMoves_app in Hmoves. destruct Hmoves as (counts' & Hpre & Hrest).
  rewrite validateMoves_cons in Hrest.
  destruct (moveAccepted thisBoard (replay thisBoard pre) counts' m) eqn:Hacc;
    [|discriminate].
  pose proof (moveAccepted_cells _ _ _ _ Hacc) as (Hf & Ht & _).
  apply cellIs_readCell in Hf, Ht.
  split; [exact Hf|]. split; [exact Ht|].
  pose proof (wfBoard_replay pre thisBoard Hwf) as Hwf'.
  unfold moveAccepted in Hacc. rewrite !andb_true_iff in Hacc.
  destruct Hacc as [[_ Hvalid] _].
  eapply (isValidMove_mono thisBoard); eauto.
  - eapply readCell_onBoard; eauto.
  - eapply readCell_onBoard; eauto.
  - intros p Hp. eapply validateMoves_keeps_empty; eauto.
Qed.

(** X9.  In a solution [validateSolution] accepts on a board of 8 by 8,
    every move starts, on the board reached by the moves before it, from
    the square of its recorded piece, ends on the square of the piece it
    records as captured, and is a legal forward move on that board (the
    validator itself checks legality on the starting board only). *)
Theorem X9_validated_moves_are_playable (thisBoard : Board) (pre post : list Move) (m : Move) :
  wfBoard thisBoard ->
  validateBoards thisBoard (pre ++ m :: post) = true ->
  readCell (replay thisBoard pre) (Move.from m) = Some (Some (Move.piece m))
  /\ readCell (replay thisBoard pre) (Move.to m) = Some (Some (Move.captured m))
  /\ isValidMove (replay thisBoard pre) (Move.from m) (Move.to m)
                 (Some (Move.piece m)) false = true.
Proof. exact (validated_move_playable thisBoard pre post m). Qed.

Lemma X9_witness :
  readCell (replay (board samplePuzzle) [kingTakesPawn]) (Move.from kingTakesBishop)
  = Some (Some (Move.piece kingTakesBishop))
  /\ readCell (replay (board samplePuzzle) [kingTakesPawn]) (Move.to kingTakesBishop)
     = Some (Some (Move.captured kingTakesBishop))
  /\ isValidMove (replay (board samplePuzzle) [kingTakesPawn])
                 (Move.from kingTakesBishop) (Move.to kingTakesBishop)
                 (Some (Move.piece kingTakesBishop)) false = true.
Proof.
  apply (X9_validated_moves_are_playable (board samplePuzzle) [kingTakesPawn] []
           kingTakesBishop).
  - vm_compute. split; [reflexivity|repeat constructor].
  - vm_compute. reflexivity.
Defined.

(** X1.  With samples in the unit interval [randomPosition] returns a
    square of the board, never raises, and leaves the generator as it was
    but for the samples used: four when the first sample is below the
    double 0.3 (the quadrant path), three otherwise. *)
Theorem X1_randomPosition_on_board (random : N -> number) (g : Generator) :
  inUnitInterval random ->
  exists p,
    randomPosition random g
    = (Ok p, withDraws (draws g + (if Qltb (random (draws g)) double_0_3 then 4 else 3))%N g)
    /\ onBoard p.
Proof.
  intros Hr.
  destruct (randomPosition_spec random g) as (p & g' & Hrun & _ & Hon).
  exists p. split; [|apply Hon; exact Hr].
  rewrite Hrun. f_equal. clear Hon.
  unfold randomPosition, bind in Hrun. rewrite Math_random_run in Hrun.
  destruct (Qltb (random (draws g)) double_0_3).
  - unfold getRandomQuadrant, bind in Hrun. rewrite !randomBelow_run in Hrun.
    unfold ret in Hrun. injection Hrun as _ <-.
    cbn [draws withDraws].
    replace (N.succ (N.succ (N.succ (N.succ (draws g))))) with (draws g + 4)%N by lia.
    reflexivity.
  - rewrite !randomBelow_run in Hrun. unfold ret in Hrun. injection Hrun as _ <-.
    cbn [draws withDraws].
    replace (N.succ (N.succ (N.succ (draws g)))) with (draws g + 3)%N by lia.
    reflexivity.
Qed.

Lemma X1_witness :
  exists p,
    randomPosition sampleStream kingGenerator
    = (Ok p,
       withDraws (draws kingGenerator
                  + (if Qltb (sampleStream (draws kingGenerator)) double_0_3
                     then 4 else 3))%N kingGenerator)
    /\ onBoard p.
Proof.
  apply (X1_randomPosition_on_board sampleStream kingGenerator).
  exact sampleStream_range.
Defined.

(** ** The weighted draw and the search for a source square *)

Lemma sum_shift (l : list QArith_base.Q) (a : QArith_base.Q) :
  (fold_left (fun sum w => sum + w) l a == a + fold_left (fun sum w => sum + w) l 0)%Q.
Proof.
  revert a; induction l as [|x l IH]; intros a; cbn [fold_left].
  - ring.
  - rewrite (IH (a + x)%Q), (IH (0 + x)%Q). ring.
Qed.

Lemma totalWeight_cons (pw : SimplePiece * number) (ws : list (SimplePiece * number)) :
  (totalWeight (pw :: ws) == snd pw + totalWeight ws)%Q.
Proof.
  unfold totalWeight. cbn [map fold_left]. rewrite sum_shift. ring.
Qed.

Lemma totalWeight_snoc (pw : SimplePiece * number) (ws : list (SimplePiece * number)) :
  totalWeight (ws ++ [pw]) = (totalWeight ws + snd pw)%Q.
Proof. unfold totalWeight. rewrite map_app, fold_left_app. reflexivity. Qed.

(** The selection loop stops at the first entry at which the cumulative
    weight reaches the value. *)
Lemma pickWeighted_Some (ws : list (SimplePiece * number)) :
  forall (v : number) (p : SimplePiece),
    pickWeighted ws v = Some p ->
    exists pre w post,
      ws = pre ++ (p, w) :: post
      /\ (pre = [] \/ (totalWeight pre < v)%Q)
      /\ (v <= totalWeight pre + w)%Q.
Proof.
  induction ws as [|[q w] rest IH]; intros v p H; cbn [pickWeighted] in H.
  - discriminate.
  - destruct (Qleb_spec (v - w)%Q 0%Q) as [Hle|Hgt].
    + injection H as ->. exists [], w, rest.
      split; [reflexivity|]. split; [left; reflexivity|].
      change (totalWeight []) with 0%Q. lra.
    + destruct (IH _ _ H) as (pre & w' & post & -> & Hpre & Hlast).
      exists ((q, w) :: pre), w', post.
      split; [reflexivity|].
      pose proof (totalWeight_cons (q, w) pre) as Hc. cbn [snd] in Hc.
      split.
      * right. rewrite Hc. destruct Hpre as [->|Hpre].
        -- change (totalWeight []) with 0%Q. lra.
        -- lra.
      * rewrite Hc. lra.
Qed.

Lemma pickWeighted_None (ws : list (SimplePiece * number)) :
  forall v, pickWeighted ws v = None -> ws <> [] -> (totalWeight ws < v)%Q.
Proof.
  induction ws as [|[q w] rest IH]; intros v H Hne; [congruence|].
  cbn [pickWeighted] in H.
  destruct (Qleb_spec (v - w)%Q 0%Q) as [Hle|Hgt]; [discriminate|].
  pose proof (totalWeight_cons (q, w) rest) as Hc. cbn [snd] in Hc.
  rewrite Hc. destruct rest as [|x rest'].
  - change (totalWeight []) with 0%Q. lra.
  - assert (Hx : (totalWeight (x :: rest') < v - w)%Q) by (apply IH; [exact H|discriminate]).
    lra.
Qed.

Lemma weightsFor_total (excludeKing : bool) (lastUsed : option SimplePiece) :
  weightsFor excludeKing lastUsed <> []
  /\ (0 < totalWeight (weightsFor excludeKing lastUsed))%Q.
Proof.
  destruct excludeKing, lastUsed as [[]|]; split; try discriminate; reflexivity.
Qed.

(** In exact arithmetic the draw returns the first kind at which the
    running sum of the weights reaches the sample times the total. *)
Lemma getRandomPiece_pick (random : N -> number) (excludeKing : bool)
        (g : Generator) :
  (random (draws g) < 1)%Q ->
  exists p pre w post,
    getRandomPiece random excludeKing g
    = (Ok p, withLastUsedPiece (Some p) (withDraws (N.succ (draws g)) g))
    /\ weightsFor excludeKing (lastUsedPiece g) = pre ++ (p, w) :: post
    /\ (pre = []
        \/ (totalWeight pre
            < random (draws g) * totalWeight (weightsFor excludeKing (lastUsedPiece g)))%Q)
    /\ (random (draws g) * totalWeight (weightsFor excludeKing (lastUsedPiece g))
        <= totalWeight pre + w)%Q
    /\ (excludeKing = true -> p <> SimplePiece.K).
Proof.
  intros H1.
  destruct (weightsFor_total excludeKing (lastUsedPiece g)) as [Hne Hpos].
  unfold getRandomPiece, bind, gets. rewrite Math_random_run.
  cbn [lastUsedPiece withDraws].
  set (ws := weightsFor excludeKing (lastUsedPiece g)) in *.
  destruct (pickWeighted ws (random (draws g) * totalWeight ws)%Q) as [p|] eqn:Hp.
  - destruct (pickWeighted_Some _ _ _ Hp) as (pre & w & post & Hws & Hpre & Hlast).
    exists p, pre, w, post. split; [reflexivity|]. split; [exact Hws|].
    split; [exact Hpre|]. split; [exact Hlast|].
    intros -> ->. apply pickWeighted_In in Hp.
    exact (weightsFor_noKing _ Hp).
  - exfalso. apply pickWeighted_None in Hp; [|exact Hne].
    assert (random (draws g) * totalWeight ws < 1 * totalWeight ws)%Q
      by (apply Qmult_lt_compat_r; assumption).
    lra.
Qed.

Lemma totalWeight_nil : totalWeight [] = 0%Q.
Proof. reflexivity. Qed.

Lemma tolerance_lower (v tw : QArith_base.Q) :
  (tw < v -> tw - (1 # 1000) < v)%Q.
Proof. intros H. lra. Qed.

Lemma tolerance_first (u t : QArith_base.Q) :
  (0 <= u -> 0 < t -> 0 - (1 # 1000) < u * t)%Q.
Proof.
  intros Hu Ht. assert (0 <= u * t)%Q by (apply Qmult_le_0_compat; lra). lra.
Qed.

Lemma tolerance_upper (v tw w : QArith_base.Q) :
  (v <= tw + w -> v <= tw + w + (1 # 1000))%Q.
Proof. intros H. lra. Qed.

(** X2.  With a sample [u] from 0 to 0.999999 [getRandomPiece] draws one
    sample and does not reach its fallback.  It returns a kind of the
    weight table (the weights of [PIECE_WEIGHTS], the weight of the kind
    used last multiplied by 0.1, the king left out on request) at which the
    running sum of the weights reaches [u] times the total: the sum before
    the kind is below [u] times the total and the sum with the kind is not,
    each up to a tolerance of 0.001, far above a rounding error.  It
    records the kind as the kind used last, and never returns the king
    when the king is excluded. *)
Theorem X2_getRandomPiece_weighted (random : N -> number) (excludeKing : bool)
        (g : Generator) :
  (0 <= random (draws g))%Q -> (random (draws g) <= 999999 # 1000000)%Q ->
  exists p pre w post,
    getRandomPiece random excludeKing g
    = (Ok p, withLastUsedPiece (Some p) (withDraws (N.succ (draws g)) g))
    /\ weightsFor excludeKing (lastUsedPiece g) = pre ++ (p, w) :: post
    /\ (totalWeight pre - (1 # 1000)
        < random (draws g) * totalWeight (weightsFor excludeKing (lastUsedPiece g)))%Q
    /\ (random (draws g) * totalWeight (weightsFor excludeKing (lastUsedPiece g))
        <= totalWeight pre + w + (1 # 1000))%Q
    /\ (excludeKing = true -> p <> SimplePiece.K).
Proof.
  intros H0 H1.
  assert (Hlt : (random (draws g) < 1)%Q).
  { eapply Qle_lt_trans; [exact H1|]. reflexivity. }
  destruct (getRandomPiece_pick random excludeKing g Hlt)
    as (p & pre & w & post & Hrun & Hws & Hpre & Hlast & Hk).
  destruct (weightsFor_total excludeKing (lastUsedPiece g)) as [_ Hpos].
  exists p, pre, w, post.
  split; [exact Hrun|]. split; [exact Hws|]. split; [|split; [|exact Hk]].
  - destruct Hpre as [->|Hpre].
    + rewrite totalWeight_nil. apply tolerance_first; assumption.
    + apply tolerance_lower. exact Hpre.
  - apply tolerance_upper. exact Hlast.
Qed.

Lemma X2_witness :
  exists p pre w post,
    getRandomPiece sampleStream true kingGenerator
    = (Ok p, withLastUsedPiece (Some p)
               (withDraws (N.succ (draws kingGenerator)) kingGenerator))
    /\ weightsFor true (lastUsedPiece kingGenerator) = pre ++ (p, w) :: post
    /\ (totalWeight pre - (1 # 1000)
        < sampleStream (draws kingGenerator)
          * totalWeight (weightsFor true (lastUsedPiece kingGenerator)))%Q
    /\ (sampleStream (draws kingGenerator)
        * totalWeight (weightsFor true (lastUsedPiece kingGenerator))
        <= totalWeight pre + w + (1 # 1000))%Q
    /\ (true = true -> p <> SimplePiece.K).
Proof.
  apply (X2_getRandomPiece_weighted sampleStream true kingGenerator).
  - vm_compute. discriminate.
  - vm_compute. discriminate.
Defined.

(** X3.  [findValidCapturePosition] from a square of a board of 8 by 8,
    with samples in the unit interval, never raises: when no empty square
    is a legal reverse move away it returns [null] and draws no sample;
    otherwise it draws one sample and returns one of these squares, never
    with a promoted kind. *)
Theorem X3_findValidCapturePosition_total (random : N -> number) (from : Position)
        (piece : option SimplePiece) (g : Generator) :
  inUnitInterval random -> wfBoard (board g) -> onBoard from ->
  (reachableEmpty (board g) from piece = []
   /\ findValidCapturePosition random from piece g = (Ok None, g))
  \/ (exists position,
        In position (reachableEmpty (board g) from piece)
        /\ findValidCapturePosition random from piece g
           = (Ok (Some (position, None)), withDraws (N.succ (draws g)) g)).
Proof.
  intros Hr _ [_ [Hy _]].
  rewrite (findValidCapturePosition_run random from piece g Hy).
  destruct (reachableEmpty (board g) from piece) as [|sq rest] eqn:Hre.
  - left. split; reflexivity.
  - right.
    destruct (index_floor (sq :: rest) (random (draws g))
                (proj1 (Hr (draws g))) (proj2 (Hr (draws g)))) as [a Ha];
      [discriminate|].
    cbv beta iota zeta. rewrite Ha. exists a. split; [eapply index_In; eauto|reflexivity].
Qed.

Lemma X3_witness :
  (reachableEmpty (board samplePuzzle) (Position.mk 4 5) (Some SimplePiece.K) = []
   /\ findValidCapturePosition sampleStream (Position.mk 4 5) (Some SimplePiece.K)
                               samplePuzzle
      = (Ok None, samplePuzzle))
  \/ (exists position,
        In position (reachableEmpty (board samplePuzzle) (Position.mk 4 5)
                                    (Some SimplePiece.K))
        /\ findValidCapturePosition sampleStream (Position.mk 4 5)
                                    (Some SimplePiece.K) samplePuzzle
           = (Ok (Some (position, None)),
              withDraws (N.succ (draws samplePuzzle)) samplePuzzle)).
Proof.
  apply (X3_findValidCapturePosition_total sampleStream (Position.mk 4 5)
           (Some SimplePiece.K) samplePuzzle).
  - exact sampleStream_range.
  - vm_compute. split; [reflexivity|repeat constructor].
  - unfold onBoard. simpl. lia.
Defined.

Lemma length_concat_wf (b : Board) : wfBoard b -> length (concat b) = 64%nat.
Proof.
  intros [Hl Hr].
  do 9 (destruct b as [|? b]; try discriminate).
  repeat match goal with H : Forall _ (_ :: _) |- _ => inversion H; clear H; subst end.
  cbn [concat]. rewrite !length_app. cbn [length]. lia.
Qed.

Lemma countPieces_le (b : Board) : wfBoard b -> 0 <= countPieces b <= 64.
Proof.
  intros Hwf. unfold countPieces, remaining.
  pose proof (filter_length_le (fun c => negb (isNull c)) (concat b)) as H.
  rewrite (length_concat_wf b Hwf) in H. lia.
Qed.

(** X7.  With samples in the unit interval [generate] returns normally
    only for a request of 1 to 64 pieces. *)
Theorem X7_generate_succeeds_only_in_range (random : N -> number) (numPieces : Z)
        (g : Generator) :
  inUnitInterval random ->
  fst (generate random numPieces g) = Ok tt ->
  1 <= numPieces <= 64.
Proof.
  intros Hr Hok. pose proof (generate_outcome random numPieces g) as H.
  destruct (generate random numPieces g) as [[[]|e] g']; [|discriminate].
  destruct H as (_ & HI & [Hpc Hv] & HC & _).
  destruct (HC Hr) as [Hwf Hcount].
  pose proof (countPieces_le _ Hwf) as Hle.
  apply validateBoards_true in Hv. destruct Hv as (survivor & Hmoves & Hrem & _).
  apply validateMoves_count in Hmoves.
  unfold countPieces at 1 in Hmoves. rewrite Hrem in Hmoves. cbn [length] in Hmoves.
  lia.
Qed.

Lemma X7_witness : 1 <= 3 <= 64.
Proof.
  apply (X7_generate_succeeds_only_in_range sampleStream 3 kingGenerator).
  - exact sampleStream_range.
  - vm_compute. reflexivity.
Defined.

(** ** Pawns, kings and promotion flags *)

(** X5.  No move recorded by a generator is flagged as a promotion: the
    search never offers a pawn a square of the top rank, so the promotion
    branch of [generate] records nothing. *)
Theorem X5_no_promotion_is_recorded (random : N -> number) (g : Generator) (m : Move) :
  reachable random g -> In m (solution g) -> Move.wasPromotion m = false.
Proof.
  intros Hreach Hin. pose proof (plain_moves _ (reachable_plain random g Hreach)) as H.
  rewrite Forall_forall in H. exact (H m Hin).
Qed.

Lemma X5_witness : Move.wasPromotion kingTakesPawn = false.
Proof.
  apply (X5_no_promotion_is_recorded sampleStream samplePuzzle kingTakesPawn).
  - apply reach_generate, reach_construct.
  - vm_compute. left. reflexivity.
Defined.

(** X6.  In every state a generator reaches, a pawn stands on a row
    y = 1..7 of the board array, never on row 0 (the eighth rank);
    row 7, the first rank, is not excluded. *)
Theorem X6_no_pawn_on_the_top_rank (random : N -> number) (g : Generator)
        (pos : Position) :
  reachable random g ->
  readCell (board g) pos = Some (Some SimplePiece.P) ->
  1 <= Position.y pos <= 7.
Proof.
  intros Hreach Hp.
  pose proof (plain_rank _ (reachable_plain random g Hreach) pos Hp) as Hy.
  destruct (reachable_invariants random g Hreach) as [HI _].
  pose proof (readCell_onBoard _ _ _ (inv_board _ HI) Hp) as [_ Hon]. lia.
Qed.

Lemma X6_witness : 1 <= Position.y (Position.mk 3 4) <= 7.
Proof.
  apply (X6_no_pawn_on_the_top_rank sampleStream samplePuzzle (Position.mk 3 4)).
  - apply reach_generate, reach_construct.
  - vm_compute. reflexivity.
Defined.

(** X10.  In every state a generator reaches, the board holds a king
    only if the final piece of the generator is the king. *)
Theorem X10_king_only_as_final_piece (random : N -> number) (g : Generator) :
  reachable random g -> hasKing (board g) = true -> finalPiece g = SimplePiece.K.
Proof.
  intros Hreach Hk.
  destruct (plain_king _ (reachable_plain random g Hreach)) as [H|H]; [exact H|].
  apply hasKing_kingCount in Hk. lia.
Qed.

Lemma X10_witness : finalPiece samplePuzzle = SimplePiece.K.
Proof.
  apply (X10_king_only_as_final_piece sampleStream samplePuzzle).
  - apply reach_generate, reach_construct.
  - vm_compute. reflexivity.
Defined.

(** ** The solution retraces the search *)

Lemma board_ext (b b' : Board) :
  wfBoard b -> wfBoard b' ->
  (forall pos, readCell b pos = readCell b' pos) -> b = b'.
Proof.
  intros [Hl Hr] [Hl' Hr'] Hext. apply nth_error_ext. intros i.
  destruct (nth_error b i) as [row|] eqn:Hrow.
  - assert (Hi : (i < length b)%nat) by (apply nth_error_Some; congruence).
    destruct (nth_error b' i) as [row'|] eqn:Hrow';
      [|apply nth_error_None in Hrow'; lia].
    f_equal. apply nth_error_ext. intros j.
    specialize (Hext (Position.mk (Z.of_nat j) (Z.of_nat i))).
    unfold readCell in Hext. cbn [Position.x Position.y] in Hext.
    rewrite !index_nth_error, !Nat2Z.id in Hext by lia.
    rewrite Hrow, Hrow' in Hext. rewrite !index_nth_error, !Nat2Z.id in Hext by lia.
    exact Hext.
  - apply nth_error_None in Hrow. symmetry. apply nth_error_None. lia.
Qed.

Lemma relocate_board_undo (b : Board) (currentPos position : Position)
      (current newPiece : SimplePiece) (id : PieceId) (flag : bool) :
  wfBoard b ->
  readCell b currentPos = Some (Some current) ->
  readCell b position = Some None ->
  applyMove (writeCell (writeCell (writeCell b currentPos None) position (Some current))
                       currentPos (Some newPiece))
            (Move.mk position currentPos newPiece current id flag)
  = b.
Proof.
  intros Hwf Hcur Hpos.
  assert (Hne : position <> currentPos).
  { intros ->. rewrite Hcur in Hpos. discriminate. }
  assert (Hne' : currentPos <> position) by congruence.
  unfold applyMove. cbn [Move.to Move.from Move.piece].
  set (b1 := writeCell b currentPos None).
  set (b2 := writeCell b1 position (Some current)).
  set (b3 := writeCell b2 currentPos (Some newPiece)).
  set (b4 := writeCell b3 currentPos (Some current)).
  assert (H1c : readCell b1 currentPos = Some None)
    by (eapply readCell_writeCell_same; eauto).
  assert (H1p : readCell b1 position = Some None)
    by (unfold b1; rewrite readCell_writeCell_other by exact Hne; exact Hpos).
  assert (H2c : readCell b2 currentPos = Some None)
    by (unfold b2; rewrite readCell_writeCell_other by exact Hne'; exact H1c).
  assert (H2p : readCell b2 position = Some (Some current))
    by (eapply readCell_writeCell_same; eauto).
  assert (H3c : readCell b3 currentPos = Some (Some newPiece))
    by (eapply readCell_writeCell_same; eauto).
  assert (H3p : readCell b3 position = Some (Some current))
    by (unfold b3; rewrite readCell_writeCell_other by exact Hne; exact H2p).
  assert (H4c : readCell b4 currentPos = Some (Some current))
    by (eapply readCell_writeCell_same; eauto).
  assert (H4p : readCell b4 position = Some (Some current))
    by (unfold b4; rewrite readCell_writeCell_other by exact Hne; exact H3p).
  apply board_ext.
  - unfold b4, b3, b2, b1. repeat apply wfBoard_writeCell. exact Hwf.
  - exact Hwf.
  - intros pos. destruct (pos_eqb_spec pos position) as [->|Hp].
    + rewrite (readCell_writeCell_same _ _ None _ H4p). symmetry. exact Hpos.
    + rewrite readCell_writeCell_other by exact Hp.
      destruct (pos_eqb_spec pos currentPos) as [->|Hc].
      * rewrite H4c. symmetry. exact Hcur.
      * unfold b4, b3, b2, b1.
        rewrite !readCell_writeCell_other by assumption. reflexivity.
Qed.

Lemma mapSet_In {V : Type} (m : JsMap V) (k : PieceId) (v : V) :
  In (k, v) (mapSet m k v).
Proof.
  induction m as [|[k' v'] rest IH]; cbn [mapSet].
  - left; reflexivity.
  - destruct (Z.eqb_spec k' k) as [->|Hne]; [left; reflexivity|right; exact IH].
Qed.

Lemma Movable_placed_located piece pos g :
  Movable (located (nextPieceId g) pos (placed piece pos g)).
Proof.
  exists (nextPieceId g), pos. split.
  - apply mapSet_In.
  - change (moveCounts (located (nextPieceId g) pos (placed piece pos g)))
      with (mapSet (moveCounts g) (nextPieceId g) 0).
    rewrite moveCountOf_mapSet_same. lia.
Qed.

Lemma Retraces_drawn start g g' : drawn g g' -> Retraces start g -> Retraces start g'.
Proof.
  intros Hd [H1 H2 H3]. constructor.
  - rewrite (drawn_board _ _ Hd). exact H1.
  - rewrite (drawn_board _ _ Hd), (drawn_solution _ _ Hd), (drawn_finalPiece _ _ Hd).
    exact H2.
  - destruct H3 as (id & pos & Hin & Hlt). exists id, pos.
    rewrite (drawn_pieceLocations _ _ Hd), (drawn_moveCounts _ _ Hd). auto.
Qed.

Lemma movablePieces_Movable g : Movable g <-> movablePieces g <> [].
Proof.
  unfold Movable, movablePieces, hasExceededMoveLimit. split.
  - intros (id & pos & Hin & Hlt) Hnil.
    assert (H : In (id, pos) (filter
                (fun entry => negb (2 <=? moveCountOf (moveCounts g) (fst entry)))
                (pieceLocations g))).
    { apply filter_In. split; [exact Hin|]. cbn [fst].
      apply negb_true_iff, Z.leb_gt. exact Hlt. }
    rewrite Hnil in H. exact H.
  - intros Hne.
    destruct (filter _ (pieceLocations g)) as [|[id pos] rest] eqn:Hf; [congruence|].
    assert (H : In (id, pos) (filter
                (fun entry => negb (2 <=? moveCountOf (moveCounts g) (fst entry)))
                (pieceLocations g))) by (rewrite Hf; left; reflexivity).
    apply filter_In in H. destruct H as [Hin Hlt]. cbn [fst] in Hlt.
    apply negb_true_iff, Z.leb_gt in Hlt. eauto.
Qed.

Section RetraceSteps.

Variable random : N -> number.

Lemma relocate_retraces start id currentPos current position g g' :
  readCell (board g) currentPos = Some (Some current) ->
  readCell (board g) position = Some None ->
  relocate random id currentPos current position None g = (Ok tt, g') ->
  Retraces start g -> Retraces start g'.
Proof.
  intros Hcur Hpos Hrun [Hwf Hrep _].
  unfold relocate, bind in Hrun. cbv beta iota zeta in Hrun.
  rewrite removePiece_run, placePiece_run in Hrun.
  destruct (SimplePiece.eqb current SimplePiece.P && (Position.y position =? 0));
    [discriminate|].
  rewrite setLocation_run, incrementMoveCount_run in Hrun.
  set (s4 := incremented id _) in *.
  destruct (getRandomPiece_spec random true s4) as (np & s5 & Hrun5 & Hd & _).
  rewrite Hrun5, placePiece_run in Hrun.
  destruct (SimplePiece.eqb np SimplePiece.P && (Position.y currentPos =? 0));
    [discriminate|].
  rewrite setLocation_run, pushMove_run in Hrun. injection Hrun as <-.
  set (move := Move.mk position currentPos np current id false).
  assert (Hb5 : board s5
                = writeCell (writeCell (board g) currentPos None) position (Some current)).
  { rewrite (drawn_board _ _ Hd). reflexivity. }
  constructor.
  - change (board (pushed move (located (nextPieceId s5) currentPos
                                   (placed np currentPos s5))))
      with (writeCell (board s5) currentPos (Some np)).
    rewrite Hb5. repeat apply wfBoard_writeCell. exact Hwf.
  - change (board (pushed move (located (nextPieceId s5) currentPos
                                   (placed np currentPos s5))))
      with (writeCell (board s5) currentPos (Some np)).
    change (solution (pushed move (located (nextPieceId s5) currentPos
                                      (placed np currentPos s5))))
      with (solution s5 ++ [move]).
    change (finalPiece (pushed move (located (nextPieceId s5) currentPos
                                      (placed np currentPos s5))))
      with (finalPiece s5).
    rewrite (drawn_solution _ _ Hd), (drawn_finalPiece _ _ Hd).
    change (solution s4) with (solution g).
    change (finalPiece s4) with (finalPiece g).
    rewrite rev_unit. unfold replay. cbn [fold_left]. fold (replay (board g) (rev (solution g))).
    rewrite Hb5. unfold move.
    rewrite (relocate_board_undo (board g) currentPos position current np id _ Hwf Hcur Hpos).
    exact Hrep.
  - destruct (Movable_placed_located np currentPos s5) as (i & p & Hin & Hlt).
    exists i, p. split; assumption.
Qed.

Lemma localIteration_retraces start g g' :
  localIteration random g = (Ok tt, g') -> Retraces start g -> Retraces start g'.
Proof.
  intros Hrun HR. unfold localIteration, bind, gets in Hrun.
  pose proof (proj1 (movablePieces_Movable g) (retraces_movable _ _ HR)) as Hmov.
  destruct (movablePieces g) as [|e rest] eqn:Hm; [congruence|].
  cbn [length Nat.eqb] in Hrun. rewrite <- Hm in Hrun. clear Hm Hmov e rest.
  destruct (randomElement_spec random (movablePieces g) g)
    as (g1 & Hd1 & [([id currentPos] & Hrun1 & Hin)|Hrun1]); rewrite Hrun1 in Hrun;
    [|discriminate].
  pose proof (Retraces_drawn _ _ _ Hd1 HR) as HR1.
  destruct (pieceAt g1 currentPos) as [current|] eqn:Hcur.
  - apply pieceAt_readCell in Hcur.
    destruct (readCell_nonneg _ _ _ Hcur) as [_ Hy].
    rewrite (findValidCapturePosition_run random currentPos (Some current) g1 Hy) in Hrun.
    destruct (reachableEmpty (board g1) currentPos (Some current)) as [|sq rest] eqn:Hre.
    + injection Hrun as <-. exact HR1.
    + cbv beta iota zeta in Hrun.
      destruct (index (sq :: rest) _) as [position|] eqn:Hidx; [|discriminate].
      assert (Hin' : In position (reachableEmpty (board g1) currentPos (Some current))).
      { rewrite Hre. eapply index_In; eauto. }
      apply reachableEmpty_spec in Hin'. destruct Hin' as (_ & _ & Hempty & _).
      apply isSquareEmpty_readCell in Hempty.
      eapply relocate_retraces; [| |exact Hrun|].
      * exact Hcur.
      * exact Hempty.
      * eapply Retraces_drawn; [apply drawn_withDraws|exact HR1].
  - destruct (findValidCapturePosition_spec random currentPos None g1)
      as (g2 & Hd2 & [(position & promoted & Hrun2 & _)|[Hrun2|Hrun2]]);
      rewrite Hrun2 in Hrun; try discriminate;
      injection Hrun as <-; eapply Retraces_drawn; eauto.
Qed.

Lemma localLoop_retraces start numPieces attemptsLeft :
  forall g g',
    localLoop random numPieces attemptsLeft g = (Ok tt, g') ->
    Retraces start g -> Retraces start g'.
Proof.
  induction attemptsLeft as [|k IH]; intros g g' Hrun HR; cbn [localLoop] in Hrun.
  - destruct (pieceCount g <? numPieces); injection Hrun as <-; exact HR.
  - destruct (pieceCount g <? numPieces); [|injection Hrun as <-; exact HR].
    unfold bind in Hrun.
    destruct (localIteration random g) as [[[]|e] g1] eqn:Hit; [|discriminate].
    eapply IH; [exact Hrun|]. eapply localIteration_retraces; eauto.
Qed.

Lemma attemptBody_retraces numPieces g g' :
  board g = emptyBoard -> solution g = [] ->
  attemptBody random numPieces g = (Ok tt, g') ->
  exists finalPosition,
    (inUnitInterval random -> onBoard finalPosition)
    /\ replay (board g') (solution g')
       = writeCell emptyBoard finalPosition (Some (finalPiece g')).
Proof.
  intros Hb Hs Hrun. unfold attemptBody, bind, gets in Hrun.
  destruct (randomPosition_spec random g) as (pos & g1 & Hrun1 & Hd1 & Hon).
  rewrite Hrun1 in Hrun.
  destruct (SimplePiece.eqb (finalPiece g1) SimplePiece.P
            && ((Position.y pos =? 0) || (Position.y pos =? 7))); [discriminate|].
  rewrite placePiece_run in Hrun.
  destruct (SimplePiece.eqb (finalPiece g1) SimplePiece.P && (Position.y pos =? 0));
    [discriminate|].
  rewrite setLocation_run in Hrun.
  set (g2 := located (nextPieceId g1) pos (placed (finalPiece g1) pos g1)) in *.
  assert (HR2 : Retraces pos g2).
  { constructor.
    - change (board g2) with (writeCell (board g1) pos (Some (finalPiece g1))).
      rewrite (drawn_board _ _ Hd1), Hb. apply wfBoard_writeCell, wfBoard_empty.
    - change (board g2) with (writeCell (board g1) pos (Some (finalPiece g1))).
      change (solution g2) with (solution g1).
      change (finalPiece g2) with (finalPiece g1).
      rewrite (drawn_board _ _ Hd1), (drawn_solution _ _ Hd1), Hb, Hs.
      reflexivity.
    - apply Movable_placed_located. }
  destruct (localLoop random numPieces maxLocalAttempts g2) as [[[]|e] g3] eqn:Hloop;
    [|discriminate].
  pose proof (localLoop_retraces _ _ _ _ _ Hloop HR2) as [_ HR3 _].
  exists pos. split; [exact Hon|].
  destruct (pieceCount g3 =? numPieces); [|discriminate].
  unfold modify in Hrun.
  destruct (validateSolution (withSolution (rev (solution g3)) g3)); [|discriminate].
  unfold ret in Hrun. injection Hrun as <-.
  exact HR3.
Qed.

Lemma generateLoop_retraces numPieces attemptsLeft :
  forall g g',
    generateLoop random numPieces attemptsLeft g = (Ok tt, g') ->
    exists finalPosition,
      (inUnitInterval random -> onBoard finalPosition)
      /\ replay (board g') (solution g')
         = writeCell emptyBoard finalPosition (Some (finalPiece g')).
Proof.
  induction attemptsLeft as [|k IH]; intros g g' Hrun; cbn [generateLoop] in Hrun.
  - discriminate.
  - unfold catch in Hrun.
    destruct (attempt random numPieces g) as [[[]|e] g1] eqn:Hatt.
    + injection Hrun as <-. rewrite attempt_unfold in Hatt.
      eapply attemptBody_retraces; [| |exact Hatt]; reflexivity.
    + eapply IH; eauto.
Qed.

End RetraceSteps.

Section FinalPiece.

Variable random : N -> number.

Lemma placementLoop_finalPiece attemptsLeft :
  forall g, finalPiece (snd (placementLoop random attemptsLeft g)) = finalPiece g.
Proof.
  induction attemptsLeft as [|k IH]; intros g; [reflexivity|].
  cbn [placementLoop]. unfold bind, gets.
  destruct (randomPosition_spec random g) as (newPos & g1 & Hrun & Hd1 & _).
  rewrite Hrun. rewrite <- (drawn_finalPiece _ _ Hd1).
  destruct (isSquareEmpty (board g1) newPos); [|apply IH].
  destruct (getRandomPiece_spec random true g1) as (np & g2 & Hrun2 & Hd2 & _).
  rewrite Hrun2, placePiece_run. rewrite <- (drawn_finalPiece _ _ Hd2).
  destruct (SimplePiece.eqb np SimplePiece.P && (Position.y newPos =? 0));
    reflexivity.
Qed.

Lemma relocate_finalPiece id currentPos current position promotedPiece g :
  finalPiece (snd (relocate random id currentPos current position promotedPiece g))
  = finalPiece g.
Proof.
  unfold relocate, bind. rewrite removePiece_run, placePiece_run.
  destruct (SimplePiece.eqb _ SimplePiece.P && (Position.y position =? 0));
    [reflexivity|].
  rewrite setLocation_run, incrementMoveCount_run.
  set (s4 := incremented id _).
  destruct (getRandomPiece_spec random true s4) as (np & s5 & Hrun & Hd & _).
  rewrite Hrun, placePiece_run.
  change (finalPiece g) with (finalPiece s4). rewrite <- (drawn_finalPiece _ _ Hd).
  destruct (SimplePiece.eqb np SimplePiece.P && (Position.y currentPos =? 0));
    reflexivity.
Qed.

Lemma localIteration_finalPiece g :
  finalPiece (snd (localIteration random g)) = finalPiece g.
Proof.
  unfold localIteration, bind, gets.
  destruct (length (movablePieces g) =? 0)%nat; [apply placementLoop_finalPiece|].
  destruct (randomElement_spec random (movablePieces g) g)
    as (g1 & Hd1 & [([id currentPos] & Hrun & Hin)|Hrun]); rewrite Hrun;
    rewrite <- (drawn_finalPiece _ _ Hd1); [|reflexivity].
  destruct (findValidCapturePosition_spec random currentPos (pieceAt g1 currentPos) g1)
    as (g2 & Hd2 & [(position & promoted & Hrun2 & _)|[Hrun2|Hrun2]]);
    rewrite Hrun2; rewrite <- (drawn_finalPiece _ _ Hd2);
    destruct (pieceAt g1 currentPos); try reflexivity.
  apply relocate_finalPiece.
Qed.

Lemma localLoop_finalPiece numPieces attemptsLeft :
  forall g, finalPiece (snd (localLoop random numPieces attemptsLeft g)) = finalPiece g.
Proof.
  induction attemptsLeft as [|k IH]; intros g; cbn [localLoop].
  - destruct (pieceCount g <? numPieces); reflexivity.
  - destruct (pieceCount g <? numPieces); [|reflexivity].
    unfold bind. pose proof (localIteration_finalPiece g) as H1.
    destruct (localIteration random g) as [[[]|e] g1]; cbn [snd] in H1.
    + rewrite IH. exact H1.
    + exact H1.
Qed.

Lemma attemptBody_finalPiece numPieces g :
  finalPiece (snd (attemptBody random numPieces g)) = finalPiece g.
Proof.
  unfold attemptBody, bind, gets.
  destruct (randomPosition_spec random g) as (pos & g1 & Hrun & Hd1 & _).
  rewrite Hrun. rewrite <- (drawn_finalPiece _ _ Hd1).
  destruct (SimplePiece.eqb (finalPiece g1) SimplePiece.P
            && ((Position.y pos =? 0) || (Position.y pos =? 7))); [reflexivity|].
  rewrite placePiece_run.
  destruct (SimplePiece.eqb (finalPiece g1) SimplePiece.P && (Position.y pos =? 0));
    [reflexivity|].
  rewrite setLocation_run.
  set (g2 := located (nextPieceId g1) pos (placed (finalPiece g1) pos g1)).
  pose proof (localLoop_finalPiece numPieces maxLocalAttempts g2) as H3.
  change (finalPiece g2) with (finalPiece g1) in H3.
  destruct (localLoop random numPieces maxLocalAttempts g2) as [[[]|e] g3];
    cbn [snd] in H3; [|exact H3].
  destruct (pieceCount g3 =? numPieces); [|exact H3].
  unfold modify.
  destruct (validateSolution (withSolution (rev (solution g3)) g3)); exact H3.
Qed.

Lemma generateLoop_finalPiece numPieces attemptsLeft :
  forall g, finalPiece (snd (generateLoop random numPieces attemptsLeft g)) = finalPiece g.
Proof.
  induction attemptsLeft as [|k IH]; intros g; [reflexivity|].
  cbn [generateLoop]. unfold catch.
  pose proof (attemptBody_finalPiece numPieces (resetAttempt g)) as H1.
  rewrite <- attempt_unfold in H1. change (finalPiece (resetAttempt g)) with (finalPiece g) in H1.
  destruct (attempt random numPieces g) as [[[]|e] g1]; cbn [snd] in H1.
  - exact H1.
  - rewrite IH. exact H1.
Qed.

End FinalPiece.

(** X11.  When [generate] returns normally, the final piece is the one
    the generator was built with, and playing the solution on the board
    leaves exactly that piece, alone, on a square of the board. *)
Theorem X11_solution_ends_on_the_final_piece (random : N -> number) (numPieces : Z)
        (g g' : Generator) :
  inUnitInterval random ->
  generate random numPieces g = (Ok tt, g') ->
  finalPiece g' = finalPiece g
  /\ exists finalPosition,
       onBoard finalPosition
       /\ replay (board g') (solution g')
          = writeCell emptyBoard finalPosition (Some (finalPiece g)).
Proof.
  intros Hr Hrun.
  pose proof (generateLoop_finalPiece random numPieces maxGlobalAttempts g) as Hfp.
  unfold generate in Hrun. rewrite Hrun in Hfp. cbn [snd] in Hfp.
  split; [exact Hfp|].
  destruct (generateLoop_retraces random _ _ _ _ Hrun) as (pos & Hon & Hrep).
  exists pos. split; [exact (Hon Hr)|]. rewrite <- Hfp. exact Hrep.
Qed.

Lemma X11_witness :
  finalPiece samplePuzzle = finalPiece kingGenerator
  /\ exists finalPosition,
       onBoard finalPosition
       /\ replay (board samplePuzzle) (solution samplePuzzle)
          = writeCell emptyBoard finalPosition (Some (finalPiece kingGenerator)).
Proof.
  apply (X11_solution_ends_on_the_final_piece sampleStream 3 kingGenerator
           samplePuzzle).
  - exact sampleStream_range.
  - vm_compute. reflexivity.
Defined.

(** ** Squares and FEN strings on the page *)

Local Open Scope string_scope.

Lemma algebraic_squares :
  Forall (fun pos => Page.algebraicToPosition (positionToAlgebraic pos)
                     = (Some (Position.x pos), Some (Position.y pos)))
         allSquares.
Proof.
  let squares := eval vm_compute in allSquares in change allSquares with squares.
  repeat (apply Forall_cons; [vm_compute; reflexivity|]). apply Forall_nil.
Qed.

Lemma algebraicToPosition_square (pos : Position) :
  onBoard pos ->
  Page.algebraicToPosition (positionToAlgebraic pos)
  = (Some (Position.x pos), Some (Position.y pos)).
Proof.
  intros H. apply onBoard_cases in H.
  revert pos H. apply Forall_forall. exact algebraic_squares.
Qed.

(** X12.  The page's [algebraicToPosition] inverts the generator's
    [positionToAlgebraic] on the squares of the board. *)
Theorem X12_algebraic_round_trip (pos : Position) :
  onBoard pos ->
  Page.algebraicToPosition (positionToAlgebraic pos)
  = (Some (Position.x pos), Some (Position.y pos)).
Proof. exact (algebraicToPosition_square pos). Qed.

Lemma X12_witness :
  Page.algebraicToPosition (positionToAlgebraic (Position.mk 4 5))
  = (Some 4, Some 5).
Proof.
  apply (X12_algebraic_round_trip (Position.mk 4 5)).
  unfold onBoard. simpl. lia.
Defined.

(** The placement field of a generated position splits into the rank
    strings of the rows. *)
Lemma getFEN_ranks (g : Generator) :
  wfBoard (board g) ->
  split "/" (getFEN g) = map rankString (board g)
  /\ Forall (fun ch => ch <> " "%char) (chars (getFEN g)).
Proof.
  intros [Hlen Hrows].
  destruct (ranks_spec (board g) Hrows) as (_ & Hchars & _).
  split.
  - unfold getFEN. apply split_concat.
    + intros Hnil. apply (f_equal (@length string)) in Hnil.
      rewrite length_map, Hlen in Hnil. discriminate.
    + eapply Forall_weaken_sep; [|exact Hchars]. intros ch H; apply H.
  - unfold getFEN. apply chars_concat; [discriminate|].
    eapply Forall_weaken_sep; [|exact Hchars]. intros ch H; apply H.
Qed.

Lemma countRow_width (row : string) :
  forall count, Page.countRow count row = (count + rankWidth row)%Z.
Proof.
  induction row as [|char rest IH]; intros count; cbn [Page.countRow rankWidth].
  - lia.
  - destruct (parseInt char) as [n|]; rewrite IH; lia.
Qed.

Lemma split_six (placement : string) :
  Forall (fun ch => ch <> " "%char) (chars placement) ->
  split " " (placement ++ " w - - 0 1") = [placement; "w"; "-"; "-"; "0"; "1"].
Proof.
  intros H.
  change (placement ++ " w - - 0 1") with (placement ++ String " " "w - - 0 1").
  rewrite (split_at " " _ _ H). reflexivity.
Qed.

Lemma isValidFen_generated (g : Generator) :
  wfBoard (board g) -> Page.isValidFen (getFEN g ++ " w - - 0 1") = true.
Proof.
  intros Hwf. destruct (getFEN_ranks g Hwf) as [Hsplit Hspace].
  unfold Page.isValidFen. rewrite (split_six _ Hspace), Hsplit.
  destruct Hwf as [Hlen Hrows]. rewrite length_map, Hlen. cbn [Nat.eqb negb].
  assert (Hall : forallb (fun row => (Page.countRow 0 row =? 8)%Z)
                         (map rankString (board g)) = true).
  { apply forallb_forall. intros rank Hin. apply in_map_iff in Hin.
    destruct Hin as (row & <- & Hin). rewrite Forall_forall in Hrows.
    destruct (rankString_spec row (Hrows row Hin)) as (_ & W & _).
    rewrite countRow_width, W. reflexivity. }
  rewrite Hall. reflexivity.
Qed.

(** X13.  The FEN the page builds from a generator board of 8 by 8
    ([getFEN] followed by " w - - 0 1") passes the page's own
    [isValidFen]. *)
Theorem X13_generated_fen_is_valid (g : Generator) :
  wfBoard (board g) -> Page.isValidFen (getFEN g ++ " w - - 0 1") = true.
Proof. exact (isValidFen_generated g). Qed.

Lemma X13_witness :
  Page.isValidFen (getFEN samplePuzzle ++ " w - - 0 1") = true.
Proof.
  apply (X13_generated_fen_is_valid samplePuzzle).
  vm_compute. split; [reflexivity|repeat constructor].
Defined.

(** Decoding a row gives as many cells as the row counts. *)
Lemma parseInt_nonneg (char : ascii) (n : Z) : parseInt char = Some n -> (0 <= n)%Z.
Proof.
  unfold parseInt.
  destruct ((48 <=? Z.of_N (N_of_ascii char))%Z && (Z.of_N (N_of_ascii char) <=? 57)%Z) eqn:H;
    [|discriminate].
  intros [= <-]. apply andb_true_iff in H. lia.
Qed.

Lemma rankWidth_nonneg (row : string) : (0 <= rankWidth row)%Z.
Proof.
  induction row as [|char rest IH]; cbn [rankWidth]; [lia|].
  destruct (parseInt char) as [n|] eqn:Hn; [apply parseInt_nonneg in Hn|]; lia.
Qed.

Lemma rowCells_length (row : string) :
  forall pieceCounter,
    Z.of_nat (length (fst (rowCells pieceCounter row))) = rankWidth row.
Proof.
  induction row as [|char rest IH]; intros n; cbn [rowCells rankWidth]; [reflexivity|].
  destruct (parseInt char) as [k|] eqn:Hk.
  - specialize (IH n). destruct (rowCells n rest) as [cells counter].
    cbn [fst] in *. rewrite length_app, repeat_length.
    apply parseInt_nonneg in Hk. lia.
  - specialize (IH (n + 1)%Z). destruct (rowCells (n + 1) rest) as [cells counter].
    cbn [fst length] in *. lia.
Qed.

Lemma rowsCells_lengths (rows : list string) :
  forall pieceCounter,
    length (rowsCells pieceCounter rows) = length rows
    /\ (forallb (fun row => (Page.countRow 0 row =? 8)%Z) rows = true ->
        Forall (fun cells => length cells = 8%nat) (rowsCells pieceCounter rows)).
Proof.
  induction rows as [|row rows IH]; intros n; cbn [rowsCells forallb].
  - split; [reflexivity|constructor].
  - pose proof (rowCells_length row n) as Hrow.
    destruct (rowCells n row) as [cells counter]. cbn [fst] in Hrow.
    destruct (IH counter) as [Hlen Hall]. cbn [length]. split; [lia|].
    intros H. apply andb_true_iff in H. destruct H as [H8 Hrest].
    rewrite countRow_width in H8. apply Z.eqb_eq in H8.
    constructor; [lia|apply Hall; exact Hrest].
Qed.

Lemma fenToBoard_wfGrid (fen : string) :
  Page.isValidFen fen = true -> wfGrid (fenToBoard fen).
Proof.
  unfold Page.isValidFen, fenToBoard.
  destruct (split " " fen) as [|placement [|turn [|castling [|enPassant
            [|halfmove [|fullmove [|extra rest]]]]]]]; try discriminate.
  cbn [hd].
  destruct (Nat.eqb_spec (length (split "/" placement)) 8) as [Hlen|]; [|discriminate].
  cbn [negb].
  destruct (forallb _ (split "/" placement)) eqn:Hall; [|discriminate].
  intros _. destruct (rowsCells_lengths (split "/" placement) 0) as [H1 H2].
  split; [lia|apply H2; exact Hall].
Qed.

(** X14.  A FEN that [isValidFen] accepts decodes, by [fenToBoard],
    into eight rows of eight cells. *)
Theorem X14_valid_fen_decodes_to_8x8 (fen : string) :
  Page.isValidFen fen = true -> wfGrid (fenToBoard fen).
Proof. exact (fenToBoard_wfGrid fen). Qed.

Lemma X14_witness : wfGrid (fenToBoard startingFen).
Proof.
  apply (X14_valid_fen_decodes_to_8x8 startingFen).
  vm_compute. reflexivity.
Defined.
Local Close Scope string_scope.

(** ** Identities of decoded pieces; the position shown *)

Lemma to_int_not_nil (n : Z) :
  Z.to_int n <> Decimal.Pos Decimal.Nil /\ Z.to_int n <> Decimal.Neg Decimal.Nil.
Proof.
  pose proof (to_of (Z.to_int n)) as H. rewrite of_to in H.
  split; intros E; rewrite E in H; discriminate H.
Qed.

Lemma toString_inj (n n' : Z) : toString n = toString n' -> n = n'.
Proof.
  unfold toString. intros H. apply to_int_inj.
  destruct (to_int_not_nil n) as [H1 H2], (to_int_not_nil n') as [H1' H2'].
  pose proof (NilZero.isi _ H1 H2) as E. rewrite H in E.
  rewrite (NilZero.isi _ H1' H2') in E. congruence.
Qed.

Lemma pieceName_inj : Injective pieceName.
Proof.
  intros n n' H. unfold pieceName in H. cbn [append] in H.
  injection H as H. apply toString_inj in H. lia.
Qed.

Lemma idsIn_app (l l' : list (option TrackedPiece)) :
  idsIn (l ++ l') = idsIn l ++ idsIn l'.
Proof. unfold idsIn. apply flat_map_app. Qed.

Lemma idsIn_repeat (n : nat) : idsIn (repeat None n) = [].
Proof. induction n as [|n IH]; [reflexivity|exact IH]. Qed.

Lemma rowCells_ids (row : string) :
  forall n : nat,
    exists k : nat,
      snd (rowCells (Z.of_nat n) row) = Z.of_nat (n + k)
      /\ idsIn (fst (rowCells (Z.of_nat n) row)) = map pieceName (seq n k).
Proof.
  induction row as [|char rest IH]; intros n; cbn [rowCells].
  - exists 0%nat. split; [cbn [snd]; f_equal; lia|reflexivity].
  - destruct (parseInt char) as [d|].
    + destruct (IH n) as (k & Hc & Hids).
      destruct (rowCells (Z.of_nat n) rest) as [cells counter].
      cbn [fst snd] in *. exists k. split; [exact Hc|].
      rewrite idsIn_app, idsIn_repeat. exact Hids.
    + destruct (IH (S n)) as (k & Hc & Hids).
      replace (Z.of_nat n + 1) with (Z.of_nat (S n)) by lia.
      destruct (rowCells (Z.of_nat (S n)) rest) as [cells counter].
      cbn [fst snd] in *. exists (S k). split; [rewrite Hc; f_equal; lia|].
      cbn [idsIn flat_map app seq map TrackedPiece.id]. fold (idsIn cells).
      rewrite Hids. reflexivity.
Qed.

Lemma rowsCells_ids (rows : list string) :
  forall n : nat,
    exists k : nat,
      idsOf (rowsCells (Z.of_nat n) rows) = map pieceName (seq n k).
Proof.
  induction rows as [|row rows IH]; intros n; cbn [rowsCells].
  - exists 0%nat. reflexivity.
  - destruct (rowCells_ids row n) as (k & Hc & Hids).
    destruct (rowCells (Z.of_nat n) row) as [cells counter].
    cbn [fst snd] in *. subst counter.
    destruct (IH (n + k)%nat) as (k' & Hrest).
    exists (k + k')%nat. unfold idsOf in *. cbn [concat].
    fold (idsIn (cells ++ concat (rowsCells (Z.of_nat (n + k)) rows))).
    rewrite idsIn_app. fold (idsIn cells). unfold idsIn at 2. rewrite Hrest, Hids.
    rewrite seq_app, map_app. reflexivity.
Qed.

(** X15.  On every input the identities [fenToBoard] gives out are
    piece_0, piece_1, ... in reading order, so no two pieces of a decoded
    board share an identity. *)
Theorem X15_decoded_identities (fen : string) :
  idsOf (fenToBoard fen)
  = map pieceName (seq 0 (length (idsOf (fenToBoard fen))))
  /\ NoDup (idsOf (fenToBoard fen)).
Proof.
  unfold fenToBoard.
  destruct (rowsCells_ids (split "/" (hd EmptyString (split " " fen))) 0) as (k & Hk).
  change (Z.of_nat 0) with 0 in Hk. rewrite Hk.
  rewrite length_map, length_seq. split; [reflexivity|].
  apply Injective_map_NoDup; [exact pieceName_inj|apply seq_NoDup].
Qed.

Local Open Scope string_scope.

Lemma fenToBoard_generated (g : Generator) :
  wfBoard (board g) ->
  typesOf (fenToBoard (getFEN g ++ " w - - 0 1")) = lettersOf (board g).
Proof.
  intros Hwf. destruct (getFEN_ranks g Hwf) as [Hsplit Hspace].
  unfold fenToBoard. rewrite (split_six _ Hspace). cbn [hd].
  rewrite Hsplit, rowsCells_types.
  destruct Hwf as [_ Hrows]. apply (ranks_spec (board g) Hrows).
Qed.

Lemma cellText_row (cells : list (option TrackedPiece)) :
  forall row : list Cell,
    map (option_map TrackedPiece.type) cells = map (option_map SimplePiece.letter) row ->
    map Page.cellText cells = map cellString row.
Proof.
  induction cells as [|c cells IH]; intros [|r row] H; try discriminate; [reflexivity|].
  cbn [map] in *. injection H as Hc Hrest. f_equal; [|apply IH; exact Hrest].
  destruct c as [p|], r as [k|]; try discriminate; [|reflexivity].
  cbn [option_map] in Hc. injection Hc as Hc.
  unfold Page.cellText, cellString, kindString. rewrite Hc. reflexivity.
Qed.

Lemma positionToFen_mirror (pb : list (list (option TrackedPiece))) :
  forall (b : Board) (moveCount : list (string * Z)),
    typesOf pb = lettersOf b ->
    Page.positionToFen pb moveCount = String.concat "/" (map rankString b).
Proof.
  intros b moveCount H. unfold Page.positionToFen. f_equal.
  revert b H. induction pb as [|cells pb IH]; intros [|row b] H; try discriminate;
    [reflexivity|].
  unfold typesOf, lettersOf in H. cbn [map] in *. injection H as Hrow Hrest.
  f_equal; [|apply IH; exact Hrest].
  unfold rankString, rowString. rewrite (cellText_row _ _ Hrow). reflexivity.
Qed.

Lemma positionFen_fresh (pb : list (list (option TrackedPiece))) :
  Page.positionFen (GameState.mk pb []) = Page.positionToFen pb [].
Proof.
  unfold Page.positionFen. cbn [GameState.board GameState.moveCount].
  f_equal. rewrite <- (map_id pb) at 2. apply map_ext. intros row.
  rewrite <- (map_id row) at 2. apply map_ext. intros [p|]; reflexivity.
Qed.

Lemma positionFen_generated (g : Generator) :
  wfBoard (board g) ->
  Page.positionFen (GameState.mk (fenToBoard (getFEN g ++ " w - - 0 1")) [])
  = getFEN g.
Proof.
  intros Hwf. rewrite positionFen_fresh.
  apply positionToFen_mirror. apply fenToBoard_generated. exact Hwf.
Qed.

(** X16.  Before any move, the position the page hands to the
    chessboard for a freshly decoded puzzle is the placement [getFEN]
    produced. *)
Theorem X16_fen_shown_is_fen_generated (g : Generator) :
  wfBoard (board g) ->
  Page.positionFen (GameState.mk (fenToBoard (getFEN g ++ " w - - 0 1")) [])
  = getFEN g.
Proof. exact (positionFen_generated g). Qed.

Lemma X16_witness : Page.positionFen samplePage = getFEN samplePuzzle.
Proof.
  apply (X16_fen_shown_is_fen_generated samplePuzzle).
  vm_compute. split; [reflexivity|repeat constructor].
Defined.

Local Close Scope string_scope.

Lemma randomPieceCount_range (r : number) (lo hi : Z) :
  (0 <= r)%Q -> (r < 1)%Q -> lo <= hi ->
  lo <= Page.randomPieceCount r (lo, hi) <= hi.
Proof.
  intros H0 H1 Hle. unfold Page.randomPieceCount. cbn [fst snd].
  pose proof (floor_below r (hi - lo + 1) H0 H1). lia.
Qed.

(** X20.  The piece count [generateNewPuzzle] draws lies in the range
    it is given, ends included, for any sample in the unit interval. *)
Theorem X20_piece_count_in_range (r : number) (lo hi : Z) :
  (0 <= r)%Q -> (r < 1)%Q -> lo <= hi ->
  lo <= Page.randomPieceCount r (lo, hi) <= hi.
Proof. exact (randomPieceCount_range r lo hi). Qed.

Lemma X20_witness :
  Page.MIN_PIECE_COUNT
  <= Page.randomPieceCount (1 # 2) (Page.MIN_PIECE_COUNT, Page.MAX_PIECE_COUNT)
  <= Page.MAX_PIECE_COUNT.
Proof.
  apply (X20_piece_count_in_range (1 # 2) Page.MIN_PIECE_COUNT Page.MAX_PIECE_COUNT).
  - vm_compute. discriminate.
  - vm_compute. reflexivity.
  - vm_compute. discriminate.
Defined.

(** ** The move rule of the page *)

Lemma letter_inj (k k' : SimplePiece) :
  SimplePiece.letter k = SimplePiece.letter k' -> k = k'.
Proof. destruct k, k'; intros H; try reflexivity; discriminate H. Qed.

Lemma index_map {A B : Type} (f : A -> B) (l : list A) (i : Z) :
  index (map f l) i = option_map f (index l i).
Proof. unfold index. destruct (i <? 0); [reflexivity|apply nth_error_map]. Qed.

Lemma mirrors_cell (pb : list (list (option TrackedPiece))) (b : Board)
      (pos : Position) :
  mirrors pb b ->
  option_map (option_map TrackedPiece.type) (pageCell pb pos)
  = option_map (option_map SimplePiece.letter) (readCell b pos).
Proof.
  intros H. unfold mirrors, typesOf, lettersOf in H.
  pose proof (f_equal (fun l => index l (Position.y pos)) H) as Hy.
  cbv beta in Hy. rewrite !index_map in Hy.
  unfold pageCell, readCell, Board, Cell in *.
  destruct (index pb (Position.y pos)) as [prow|] eqn:Hp;
    destruct (index b (Position.y pos)) as [row|] eqn:Hb;
    cbn [option_map] in Hy; try discriminate Hy; [|reflexivity].
  injection Hy as Hy.
  pose proof (f_equal (fun l => index l (Position.x pos)) Hy) as Hx.
  cbv beta in Hx. rewrite !index_map in Hx. exact Hx.
Qed.

Lemma mirrors_empty pb b pos :
  mirrors pb b -> (pageCell pb pos = Some None <-> readCell b pos = Some None).
Proof.
  intros H. pose proof (mirrors_cell pb b pos H) as E.
  destruct (pageCell pb pos) as [[p|]|], (readCell b pos) as [[k|]|];
    try discriminate; split; intros; try discriminate; reflexivity.
Qed.

Lemma mirrors_piece pb b pos k :
  mirrors pb b -> readCell b pos = Some (Some k) ->
  exists p, pageCell pb pos = Some (Some p)
            /\ TrackedPiece.type p = SimplePiece.letter k.
Proof.
  intros H Hr. pose proof (mirrors_cell pb b pos H) as E. rewrite Hr in E.
  destruct (pageCell pb pos) as [[p|]|]; try discriminate.
  cbn [option_map] in E. injection E as E. eauto.
Qed.

Lemma mirrors_length pb b : mirrors pb b -> length pb = length b.
Proof.
  intros H. apply (f_equal (@length _)) in H.
  unfold typesOf, lettersOf in H. rewrite !length_map in H. exact H.
Qed.

Lemma page_sightLoop_unfold fuel pb x y stepX stepY tx ty :
  Page.sightLoop fuel pb x y stepX stepY tx ty
  = if negb (x =? tx) || negb (y =? ty) then
      match fuel with
      | O => NoFuel
      | S fuel' =>
          match pageCell pb (Position.mk x y) with
          | None =>
              match index pb y with None => OffBoard | Some _ => Seen false end
          | Some (Some _) => Seen false
          | Some None =>
              Page.sightLoop fuel' pb (x + stepX) (y + stepY) stepX stepY tx ty
          end
      end
    else Seen true.
Proof.
  destruct fuel; cbn [Page.sightLoop]; [reflexivity|].
  unfold pageCell. cbn [Position.x Position.y].
  destruct (index pb y) as [row|]; [|reflexivity].
  destruct (index row x) as [[p|]|]; reflexivity.
Qed.

(** Where the generator's scan gives a boolean, the page's scan of a board
    that shows the same kinds gives the same boolean. *)
Lemma sightLoop_mirror pb b :
  mirrors pb b ->
  forall fuel fuel' x y sx sy tx ty r cells,
    (fuel <= fuel')%nat ->
    sightLoop fuel b x y sx sy tx ty = (Seen r, cells) ->
    Page.sightLoop fuel' pb x y sx sy tx ty = Seen r.
Proof.
  intros Hm. induction fuel as [|fuel IH];
    intros fuel' x y sx sy tx ty r cells Hle Hrun;
    rewrite sightLoop_unfold in Hrun; rewrite page_sightLoop_unfold;
    destruct (negb (x =? tx) || negb (y =? ty)).
  - discriminate.
  - injection Hrun as <- _. reflexivity.
  - destruct fuel' as [|fuel']; [lia|].
    pose proof (mirrors_cell pb b (Position.mk x y) Hm) as E.
    destruct (readCell b (Position.mk x y)) as [[k|]|]; try discriminate.
    + injection Hrun as <- _.
      destruct (pageCell pb (Position.mk x y)) as [[p|]|]; try discriminate.
      reflexivity.
    + destruct (pageCell pb (Position.mk x y)) as [[p|]|]; try discriminate.
      destruct (sightLoop fuel b (x + sx) (y + sy) sx sy tx ty)
        as [r' seen] eqn:Hrec.
      injection Hrun as -> _. eapply IH; [|exact Hrec]. lia.
  - injection Hrun as <- _. reflexivity.
Qed.

Lemma page_hasLineOfSight_mirror pb b from to :
  mirrors pb b -> wfBoard b -> onBoard from -> onBoard to -> aligned from to ->
  Page.hasLineOfSight from to pb = Seen (hasLineOfSight b from to).
Proof.
  intros Hm Hwf Hf Ht Hal. destruct (pos_eqb_spec from to) as [->|Hne].
  - rewrite hasLineOfSight_same. unfold Page.hasLineOfSight.
    rewrite !Z.sub_diag. change (stepOf 0) with 0. rewrite !Z.add_0_r.
    rewrite page_sightLoop_unfold, !Z.eqb_refl. reflexivity.
  - destruct (sightTrace_spec b from to Hwf Hf Ht Hne Hal)
      as (r & cells & Hrun & _).
    rewrite (hasLineOfSight_trace _ _ _ _ _ Hrun).
    unfold Page.hasLineOfSight. unfold sightTrace in Hrun.
    eapply (sightLoop_mirror pb b Hm 7); [|exact Hrun].
    unfold Page.scanBound. rewrite (mirrors_length _ _ Hm).
    destruct Hwf as [Hl _]. rewrite Hl. lia.
Qed.

(** The loop goes on only over cells of the board, and each pass moves
    one step along the line: it ends within [scanBound] passes. *)
Lemma pageCell_bounds pb pos c :
  pageCell pb pos = Some c ->
  0 <= Position.y pos < Z.of_nat (length pb)
  /\ 0 <= Position.x pos < Z.of_nat (length (concat pb)).
Proof.
  unfold pageCell. destruct (index pb (Position.y pos)) as [row|] eqn:Hrow;
    [|discriminate].
  intros Hc. pose proof (index_Some _ _ _ Hrow) as Hy.
  pose proof (index_Some _ _ _ Hc) as Hx. split; [exact Hy|].
  apply index_In in Hrow. apply in_split in Hrow.
  destruct Hrow as (l1 & l2 & ->). rewrite concat_app. cbn [concat].
  rewrite !length_app. lia.
Qed.

Lemma page_sightLoop_ends pb sx sy tx ty :
  (sx <> 0 \/ sy <> 0) -> -1 <= sx <= 1 -> -1 <= sy <= 1 ->
  forall fuel x y,
    (1 <= fuel)%nat ->
    (forall c, pageCell pb (Position.mk x y) = Some c ->
       (if sy =? 0
        then if 0 <? sx then Z.of_nat (length (concat pb)) - x else x + 1
        else if 0 <? sy then Z.of_nat (length pb) - y else y + 1)
       < Z.of_nat fuel) ->
    Page.sightLoop fuel pb x y sx sy tx ty <> NoFuel.
Proof.
  intros Hstep Hsx Hsy. induction fuel as [|fuel IH]; intros x y Hfuel Hpot; [lia|].
  rewrite page_sightLoop_unfold.
  destruct (negb (x =? tx) || negb (y =? ty)); [|discriminate].
  destruct (pageCell pb (Position.mk x y)) as [[p|]|] eqn:Hc.
  - discriminate.
  - specialize (Hpot _ eq_refl).
    pose proof (pageCell_bounds _ _ _ Hc) as [Hy Hx]. cbn [Position.x Position.y] in *.
    destruct fuel as [|fuel'].
    + exfalso. destruct (Z.eqb_spec sy 0); destruct (Z.ltb_spec 0 sx);
        destruct (Z.ltb_spec 0 sy); lia.
    + apply IH; [lia|]. intros c' Hc'.
      pose proof (pageCell_bounds _ _ _ Hc') as [Hy' Hx']. cbn [Position.x Position.y] in *.
      destruct (Z.eqb_spec sy 0); destruct (Z.ltb_spec 0 sx);
        destruct (Z.ltb_spec 0 sy); lia.
  - destruct (index pb y); discriminate.
Qed.

Lemma stepOf_range d : -1 <= stepOf d <= 1.
Proof. rewrite stepOf_sgn. lia. Qed.

Lemma page_scan_potential pb sx sy x y c :
  pageCell pb (Position.mk x y) = Some c ->
  (if sy =? 0
   then if 0 <? sx then Z.of_nat (length (concat pb)) - x else x + 1
   else if 0 <? sy then Z.of_nat (length pb) - y else y + 1)
  < Z.of_nat (Page.scanBound pb).
Proof.
  intros Hc. pose proof (pageCell_bounds _ _ _ Hc) as [Hb1 Hb2].
  cbn [Position.x Position.y] in *. unfold Page.scanBound.
  destruct (sy =? 0); destruct (0 <? sx); destruct (0 <? sy); lia.
Qed.

(** X21.  The loop of the page's [hasLineOfSight] ends on every board
    and for every pair of squares, aligned or not: after at most as many
    passes as the board has rows and cells, plus one, it has returned or
    raised. *)
Theorem X21_page_scan_terminates (pb : list (list (option TrackedPiece)))
        (from to : Position) :
  Page.hasLineOfSight from to pb <> NoFuel.
Proof.
  unfold Page.hasLineOfSight.
  pose proof (stepOf_range (Position.x to - Position.x from)) as Hrx.
  pose proof (stepOf_range (Position.y to - Position.y from)) as Hry.
  pose proof (stepOf_sgn (Position.x to - Position.x from)) as Hsx.
  pose proof (stepOf_sgn (Position.y to - Position.y from)) as Hsy.
  generalize dependent (stepOf (Position.x to - Position.x from)). intros sx Hrx Hsx.
  generalize dependent (stepOf (Position.y to - Position.y from)). intros sy Hry Hsy.
  destruct (Z.eq_dec sx 0) as [Hx|Hx]; [destruct (Z.eq_dec sy 0) as [Hy|Hy]|].
  - rewrite page_sightLoop_unfold.
    assert (Position.x from + sx = Position.x to /\ Position.y from + sy = Position.y to)
      as [-> ->] by lia.
    rewrite !Z.eqb_refl. discriminate.
  - apply page_sightLoop_ends; try assumption; [right; exact Hy| |].
    + unfold Page.scanBound. lia.
    + intros c Hc. eapply page_scan_potential; eauto.
  - apply page_sightLoop_ends; try assumption; [left; exact Hx| |].
    + unfold Page.scanBound. lia.
    + intros c Hc. eapply page_scan_potential; eauto.
Qed.

Local Open Scope char_scope.

Lemma letter_tests (k : SimplePiece) :
  (Ascii.eqb (SimplePiece.letter k) "K" = SimplePiece.eqb k SimplePiece.K)
  /\ (Ascii.eqb (SimplePiece.letter k) "P" = SimplePiece.eqb k SimplePiece.P)
  /\ (Ascii.eqb (SimplePiece.letter k) "N" = SimplePiece.eqb k SimplePiece.N)
  /\ (Ascii.eqb (SimplePiece.letter k) "B" = SimplePiece.eqb k SimplePiece.B)
  /\ (Ascii.eqb (SimplePiece.letter k) "R" = SimplePiece.eqb k SimplePiece.R)
  /\ (Ascii.eqb (SimplePiece.letter k) "Q" = SimplePiece.eqb k SimplePiece.Q).
Proof. destruct k; repeat split. Qed.

Local Close Scope char_scope.

Lemma page_target_king pb b to :
  mirrors pb b -> wfBoard b -> onBoard to ->
  exists row,
    index pb (Position.y to) = Some row
    /\ match index row (Position.x to) with
       | Some (Some targetPiece) => Ascii.eqb (TrackedPiece.type targetPiece) "K"
       | _ => false
       end = isKingAt b to.
Proof.
  intros Hm Hwf Hon. pose proof (mirrors_cell pb b to Hm) as E.
  destruct (onBoard_readCell b to Hwf Hon) as [c Hc]. rewrite Hc in E.
  unfold isKingAt. rewrite Hc. unfold pageCell in E.
  destruct (index pb (Position.y to)) as [row|]; [|discriminate].
  exists row. split; [reflexivity|].
  destruct (index row (Position.x to)) as [[p|]|]; try discriminate;
    destruct c as [k|]; try discriminate; [|reflexivity].
  cbn [option_map] in E. injection E as E. rewrite E.
  destruct k; reflexivity.
Qed.

Lemma page_isValidMove_mirror (pb : list (list (option TrackedPiece))) (b : Board)
        (from to : Position) (piece : SimplePiece) :
  mirrors pb b -> wfBoard b -> onBoard from -> onBoard to ->
  Page.isValidMove from to (SimplePiece.letter piece) pb
  = Ok (negb (isKingAt b to) && isValidMove b from to (Some piece) false).
Proof.
  intros Hm Hwf Hf Ht.
  destruct (page_target_king pb b to Hm Hwf Ht) as (row & Hrow & Hking).
  unfold Page.isValidMove. rewrite Hrow, Hking.
  destruct (isKingAt b to); [reflexivity|]. cbn [negb andb].
  replace (Z.abs (Position.y from - Position.y to))
    with (Z.abs (Position.y to - Position.y from)) by lia.
  destruct (sightGuard from to (Some piece)) eqn:Hg.
  - pose proof (sightGuard_aligned _ _ _ Hg) as Hal.
    rewrite (page_hasLineOfSight_mirror pb b from to Hm Hwf Hf Ht Hal).
    unfold sightGuard in Hg. unfold isValidMove.
    destruct piece; try discriminate; cbn [SimplePiece.letter Ascii.eqb Bool.eqb];
      cbv iota; rewrite Hg; reflexivity.
  - unfold sightGuard in Hg. unfold isValidMove.
    destruct piece; cbn [SimplePiece.letter Ascii.eqb Bool.eqb]; cbv iota;
      try rewrite Hg; try rewrite !andb_false_l; reflexivity.
Qed.

(** X17.  On a page board that shows the kinds of a generator board of
    8 by 8, the page's [isValidMove] between squares of the board accepts
    exactly the forward moves of the generator's [isValidMove] whose
    target is not a king, and never raises. *)
Theorem X17_page_move_rule (pb : list (list (option TrackedPiece))) (b : Board)
        (from to : Position) (piece : SimplePiece) :
  mirrors pb b -> wfBoard b -> onBoard from -> onBoard to ->
  Page.isValidMove from to (SimplePiece.letter piece) pb
  = Ok (negb (isKingAt b to) && isValidMove b from to (Some piece) false).
Proof. exact (page_isValidMove_mirror pb b from to piece). Qed.

Lemma X17_witness :
  Page.isValidMove (Position.mk 4 5) (Position.mk 3 4)
                   (SimplePiece.letter SimplePiece.K) (GameState.board samplePage)
  = Ok (negb (isKingAt (board samplePuzzle) (Position.mk 3 4))
        && isValidMove (board samplePuzzle) (Position.mk 4 5) (Position.mk 3 4)
                       (Some SimplePiece.K) false).
Proof.
  apply (X17_page_move_rule (GameState.board samplePage) (board samplePuzzle)
           (Position.mk 4 5) (Position.mk 3 4) SimplePiece.K).
  - vm_compute. reflexivity.
  - vm_compute. split; [reflexivity|repeat constructor].
  - unfold onBoard. simpl. lia.
  - unfold onBoard. simpl. lia.
Defined.

(** ** Dropping a piece *)

Lemma map_setNth {A B : Type} (f : A -> B) (l : list A) (i : nat) (v : A) :
  map f (setNth l i v) = setNth (map f l) i (f v).
Proof.
  revert i; induction l as [|h t IH]; intros [|i]; cbn [setNth map];
    try reflexivity. rewrite IH. reflexivity.
Qed.

Lemma lookup_pageCell pb x y :
  Page.lookup pb (Some x, Some y)
  = match index pb y with
    | None => Page.RowMissing
    | Some _ =>
        match pageCell pb (Position.mk x y) with
        | Some cell => Page.Found (Position.mk x y) cell
        | None => Page.Undefined
        end
    end.
Proof.
  unfold Page.lookup, pageCell. cbn [fst snd Position.x Position.y].
  destruct (index pb y) as [row|]; [|reflexivity].
  destruct (index row x); reflexivity.
Qed.

Lemma lookup_Found pb p pos cell :
  Page.lookup pb p = Page.Found pos cell ->
  p = (Some (Position.x pos), Some (Position.y pos))
  /\ pageCell pb pos = Some cell.
Proof.
  unfold Page.lookup, pageCell. destruct p as [[x|] [y|]]; cbn [fst snd];
    try discriminate.
  - destruct (index pb y) as [row|] eqn:Hrow; [|discriminate].
    destruct (index row x) as [c|] eqn:Hc; [|discriminate].
    intros [= <- <-]. cbn [Position.x Position.y]. rewrite Hrow. auto.
  - destruct (index pb y); discriminate.
Qed.

Lemma pageCell_nth pb pos cell :
  pageCell pb pos = Some cell ->
  0 <= Position.x pos /\ 0 <= Position.y pos
  /\ exists row, nth_error pb (Z.to_nat (Position.y pos)) = Some row
                 /\ nth_error row (Z.to_nat (Position.x pos)) = Some cell.
Proof.
  unfold pageCell. destruct (index pb (Position.y pos)) as [row|] eqn:Hrow;
    [|discriminate].
  intros Hc. pose proof (index_Some _ _ _ Hrow). pose proof (index_Some _ _ _ Hc).
  rewrite index_nth_error in Hrow by lia. rewrite index_nth_error in Hc by lia.
  split; [lia|]. split; [lia|]. eauto.
Qed.

Lemma pageCell_store_same pb pos v old :
  pageCell pb pos = Some old -> pageCell (Page.store pb pos v) pos = Some v.
Proof.
  intros H. destruct (pageCell_nth _ _ _ H) as (Hx & Hy & row & Hrow & Hc).
  unfold Page.store. rewrite Hrow. unfold pageCell.
  rewrite index_nth_error by lia.
  rewrite nth_error_setNth_eq by (apply nth_error_Some; congruence).
  rewrite index_nth_error by lia.
  apply nth_error_setNth_eq. apply nth_error_Some. congruence.
Qed.

Lemma pageCell_store_other pb pos v q :
  0 <= Position.x pos -> 0 <= Position.y pos -> q <> pos ->
  pageCell (Page.store pb pos v) q = pageCell pb q.
Proof.
  intros Hx Hy Hne. unfold Page.store.
  destruct (nth_error pb (Z.to_nat (Position.y pos))) as [row|] eqn:Hrow;
    [|reflexivity].
  unfold pageCell, index.
  destruct (Z.ltb_spec (Position.y q) 0); [reflexivity|].
  destruct (Nat.eq_dec (Z.to_nat (Position.y pos)) (Z.to_nat (Position.y q)))
    as [Heq|Hny].
  - rewrite <- Heq, nth_error_setNth_eq, Hrow
      by (apply nth_error_Some; congruence).
    destruct (Z.ltb_spec (Position.x q) 0); [reflexivity|].
    apply nth_error_setNth_neq. intros Hxq. apply Hne.
    destruct q as [qx qy], pos as [px py]; cbn [Position.x Position.y] in *.
    f_equal; lia.
  - rewrite nth_error_setNth_neq by exact Hny. reflexivity.
Qed.

Lemma count_store (f : option TrackedPiece -> bool) pb pos v old :
  pageCell pb pos = Some old ->
  countIf f (concat (Page.store pb pos v))
  = countIf f (concat pb) - Z.b2z (f old) + Z.b2z (f v).
Proof.
  intros H. destruct (pageCell_nth _ _ _ H) as (Hx & Hy & row & Hrow & Hc).
  unfold Page.store. rewrite Hrow.
  rewrite (countIf_concat_setNth _ _ _ _ _ Hrow).
  rewrite (countIf_setNth _ _ _ _ _ Hc). lia.
Qed.

Lemma remainingPieces_count gs :
  Page.remainingPieces gs = countIf isPiece (concat (GameState.board gs)).
Proof. reflexivity. Qed.

Lemma page_get_set_same m k v : Page.get (Page.set m k v) k = Some v.
Proof.
  induction m as [|[k' v'] rest IH]; cbn [Page.set Page.get].
  - rewrite String.eqb_refl. reflexivity.
  - destruct (String.eqb_spec k' k) as [->|Hne]; cbn [Page.get].
    + rewrite String.eqb_refl. reflexivity.
    + destruct (String.eqb_spec k' k); [contradiction|exact IH].
Qed.

Lemma page_get_set_other m k k0 v : k0 <> k -> Page.get (Page.set m k v) k0 = Page.get m k0.
Proof.
  intros Hne. induction m as [|[k' v'] rest IH]; cbn [Page.set Page.get].
  - destruct (String.eqb_spec k k0); [congruence|reflexivity].
  - destruct (String.eqb_spec k' k) as [->|Hk]; cbn [Page.get].
    + destruct (String.eqb_spec k k0); [congruence|reflexivity].
    + destruct (String.eqb_spec k' k0); [reflexivity|exact IH].
Qed.

Lemma pieceToSimplePiece_kind (piece : Piece) :
  pieceToSimplePiece piece = SimplePiece.letter (Piece.kind piece).
Proof. destruct piece as [c []]; reflexivity. Qed.

Lemma page_isValidMove_true from to piece pb :
  Page.isValidMove from to piece pb = Ok true ->
  forall target, pageCell pb to = Some (Some target) ->
                 TrackedPiece.type target <> "K"%char.
Proof.
  unfold Page.isValidMove, pageCell.
  destruct (index pb (Position.y to)) as [row|]; [|discriminate].
  intros H target Hc. rewrite Hc in H.
  destruct (Ascii.eqb_spec (TrackedPiece.type target) "K"); [discriminate|assumption].
Qed.

(** What a call of [onPieceDrop] that returns does. *)
Lemma onPieceDrop_cases sourceSquare targetSquare piece gs r gs' :
  Page.onPieceDrop sourceSquare targetSquare piece gs = Ok (r, gs') ->
  (r = false /\ gs' = gs)
  \/ (r = true
      /\ exists from to sourcePiece targetPiece,
           Page.lookup (GameState.board gs) (Page.algebraicToPosition sourceSquare)
           = Page.Found from (Some sourcePiece)
           /\ Page.lookup (GameState.board gs) (Page.algebraicToPosition targetSquare)
              = Page.Found to (Some targetPiece)
           /\ Page.movesOf (GameState.moveCount gs) (TrackedPiece.id sourcePiece) < 2
           /\ Page.isValidMove from to (TrackedPiece.type sourcePiece)
                               (GameState.board gs) = Ok true
           /\ gs' = GameState.mk
                      (Page.store
                         (Page.store (GameState.board gs) to
                            (Some (TrackedPiece.mk (TrackedPiece.id sourcePiece)
                                     (pieceToSimplePiece piece))))
                         from None)
                      (Page.set (GameState.moveCount gs) (TrackedPiece.id sourcePiece)
                         (Page.movesOf (GameState.moveCount gs)
                            (TrackedPiece.id sourcePiece) + 1))).
Proof.
  unfold Page.onPieceDrop.
  destruct (Page.lookup (GameState.board gs) (Page.algebraicToPosition sourceSquare))
    as [| |from [sp|]] eqn:Hs; try discriminate;
  destruct (Page.lookup (GameState.board gs) (Page.algebraicToPosition targetSquare))
    as [| |to [tp|]] eqn:Ht; try discriminate;
    try (intros [= <- <-]; left; split; reflexivity).
  destruct (Z.leb_spec 2 (Page.movesOf (GameState.moveCount gs) (TrackedPiece.id sp)))
    as [Hge|Hlt]; [intros [= <- <-]; left; split; reflexivity|].
  destruct (Page.isValidMove from to (TrackedPiece.type sp) (GameState.board gs))
    as [[|]|e] eqn:Hv; try discriminate;
    [|intros [= <- <-]; left; split; reflexivity].
  intros [= <- <-]. right. split; [reflexivity|].
  exists from, to, sp, tp. repeat split; try assumption.
Qed.

(** X18.  [onPieceDrop] either returns [false] and leaves the game state
    as it is, or returns [true] on a capture: both squares held a piece,
    the target was not a king, the mover had moved fewer than two times;
    its count goes up by one and no other count changes, one piece fewer
    remains, the source square is empty, the target square holds the
    mover's identity with the kind of the dropped piece, and no other cell
    changes. *)
Theorem X18_drop_is_a_capture (sourceSquare targetSquare : string) (piece : Piece)
        (gs gs' : GameState) (r : bool) :
  Page.onPieceDrop sourceSquare targetSquare piece gs = Ok (r, gs') ->
  (r = false -> gs' = gs)
  /\ (r = true ->
      exists from to sourcePiece targetPiece,
        Page.lookup (GameState.board gs) (Page.algebraicToPosition sourceSquare)
        = Page.Found from (Some sourcePiece)
        /\ Page.lookup (GameState.board gs) (Page.algebraicToPosition targetSquare)
           = Page.Found to (Some targetPiece)
        /\ TrackedPiece.type targetPiece <> "K"%char
        /\ Page.movesOf (GameState.moveCount gs) (TrackedPiece.id sourcePiece) < 2
        /\ Page.movesOf (GameState.moveCount gs') (TrackedPiece.id sourcePiece)
           = Page.movesOf (GameState.moveCount gs) (TrackedPiece.id sourcePiece) + 1
        /\ (forall id, id <> TrackedPiece.id sourcePiece ->
              Page.movesOf (GameState.moveCount gs') id
              = Page.movesOf (GameState.moveCount gs) id)
        /\ Page.remainingPieces gs' = Page.remainingPieces gs - 1
        /\ pageCell (GameState.board gs') from = Some None
        /\ (from <> to ->
            pageCell (GameState.board gs') to
            = Some (Some (TrackedPiece.mk (TrackedPiece.id sourcePiece)
                            (SimplePiece.letter (Piece.kind piece)))))
        /\ (forall q, q <> from -> q <> to ->
              pageCell (GameState.board gs') q = pageCell (GameState.board gs) q)).
Proof.
  intros Hrun. apply onPieceDrop_cases in Hrun.
  destruct Hrun as [[-> ->]|(-> & from & to & sp & tp & Hs & Ht & Hlt & Hv & ->)].
  - split; [reflexivity|discriminate].
  - split; [discriminate|]. intros _.
    exists from, to, sp, tp.
    destruct (lookup_Found _ _ _ _ Hs) as [_ Hfrom].
    destruct (lookup_Found _ _ _ _ Ht) as [_ Hto].
    destruct (pageCell_nth _ _ _ Hfrom) as (Hfx & Hfy & _).
    destruct (pageCell_nth _ _ _ Hto) as (Htx & Hty & _).
    cbn [GameState.board GameState.moveCount].
    set (newPiece := TrackedPiece.mk (TrackedPiece.id sp) (pieceToSimplePiece piece)).
    set (b1 := Page.store (GameState.board gs) to (Some newPiece)).
    assert (Hb1to : pageCell b1 to = Some (Some newPiece))
      by (eapply pageCell_store_same; eauto).
    assert (Hb1from : exists c, pageCell b1 from = Some c /\ isPiece c = true).
    { destruct (pos_eqb_spec from to) as [->|Hne].
      - exists (Some newPiece). split; [exact Hb1to|reflexivity].
      - exists (Some sp). split; [|reflexivity].
        unfold b1. rewrite pageCell_store_other by assumption. exact Hfrom. }
    destruct Hb1from as (c & Hb1from & Hc).
    split; [exact Hs|]. split; [exact Ht|].
    split; [eapply page_isValidMove_true; eauto|].
    split; [exact Hlt|].
    split; [unfold Page.movesOf at 1; rewrite page_get_set_same; reflexivity|].
    split; [intros id Hid; unfold Page.movesOf at 1;
            rewrite page_get_set_other by exact Hid; reflexivity|].
    split.
    { rewrite !remainingPieces_count. cbn [GameState.board].
      rewrite (count_store isPiece b1 from None c Hb1from).
      unfold b1. rewrite (count_store isPiece _ to (Some newPiece) (Some tp) Hto).
      rewrite Hc. cbn [isPiece Z.b2z]. lia. }
    split; [eapply pageCell_store_same; eauto|].
    split.
    { intros Hne. rewrite pageCell_store_other by congruence.
      rewrite Hb1to. unfold newPiece. rewrite pieceToSimplePiece_kind. reflexivity. }
    intros q Hq1 Hq2. rewrite pageCell_store_other by assumption.
    unfold b1. apply pageCell_store_other; assumption.
Qed.

Lemma X18_witness :
  (true = false -> afterKingTakesPawn = samplePage)
  /\ (true = true ->
      exists from to sourcePiece targetPiece,
        Page.lookup (GameState.board samplePage) (Page.algebraicToPosition "e3"%string)
        = Page.Found from (Some sourcePiece)
        /\ Page.lookup (GameState.board samplePage) (Page.algebraicToPosition "d4"%string)
           = Page.Found to (Some targetPiece)
        /\ TrackedPiece.type targetPiece <> "K"%char
        /\ Page.movesOf (GameState.moveCount samplePage) (TrackedPiece.id sourcePiece)
           < 2
        /\ Page.movesOf (GameState.moveCount afterKingTakesPawn)
                        (TrackedPiece.id sourcePiece)
           = Page.movesOf (GameState.moveCount samplePage)
                          (TrackedPiece.id sourcePiece) + 1
        /\ (forall id, id <> TrackedPiece.id sourcePiece ->
              Page.movesOf (GameState.moveCount afterKingTakesPawn) id
              = Page.movesOf (GameState.moveCount samplePage) id)
        /\ Page.remainingPieces afterKingTakesPawn
           = Page.remainingPieces samplePage - 1
        /\ pageCell (GameState.board afterKingTakesPawn) from = Some None
        /\ (from <> to ->
            pageCell (GameState.board afterKingTakesPawn) to
            = Some (Some (TrackedPiece.mk (TrackedPiece.id sourcePiece)
                            (SimplePiece.letter (Piece.kind whiteKing)))))
        /\ (forall q, q <> from -> q <> to ->
              pageCell (GameState.board afterKingTakesPawn) q
              = pageCell (GameState.board samplePage) q)).
Proof.
  apply (X18_drop_is_a_capture "e3"%string "d4"%string whiteKing samplePage afterKingTakesPawn
           true).
  vm_compute. reflexivity.
Defined.

(** ** Playing a validated solution on the page *)

Lemma mirrors_store pb b pos v c old :
  mirrors pb b -> pageCell pb pos = Some old ->
  option_map TrackedPiece.type v = option_map SimplePiece.letter c ->
  mirrors (Page.store pb pos v) (writeCell b pos c).
Proof.
  intros Hm Hcell Hv.
  destruct (pageCell_nth _ _ _ Hcell) as (Hx & Hy & prow & Hprow & Hold).
  pose proof Hm as Hrows. unfold mirrors, typesOf, lettersOf in Hrows.
  pose proof (f_equal (fun l => nth_error l (Z.to_nat (Position.y pos))) Hrows) as Hrow.
  cbv beta in Hrow. rewrite !nth_error_map, Hprow in Hrow. cbn [option_map] in Hrow.
  unfold Board, Cell in *.
  destruct (nth_error b (Z.to_nat (Position.y pos))) as [row|] eqn:Hb;
    [|discriminate]. cbn [option_map] in Hrow. injection Hrow as Hrow.
  assert (Hlen : length row = length prow).
  { apply (f_equal (@length _)) in Hrow. rewrite !length_map in Hrow. lia. }
  assert (Hxlt : (Z.to_nat (Position.x pos) < length prow)%nat)
    by (apply nth_error_Some; congruence).
  unfold mirrors, typesOf, lettersOf, Page.store, writeCell, Board, Cell.
  rewrite Hprow, Hb.
  destruct (Z.ltb_spec (Position.y pos) 0); [lia|].
  destruct (Z.ltb_spec (Position.x pos) 0); [lia|]. cbn [orb].
  destruct (Nat.ltb_spec (Z.to_nat (Position.x pos)) (length row)); [|lia].
  rewrite !map_setNth, Hrows, Hrow, Hv. reflexivity.
Qed.

Lemma lookup_piece pb b pos k :
  mirrors pb b -> readCell b pos = Some (Some k) ->
  exists p, Page.lookup pb (Some (Position.x pos), Some (Position.y pos))
            = Page.Found pos (Some p)
            /\ pageCell pb pos = Some (Some p)
            /\ TrackedPiece.type p = SimplePiece.letter k.
Proof.
  intros Hm Hr. destruct (mirrors_piece pb b pos k Hm Hr) as (p & Hp & Ht).
  exists p. split; [|split; assumption].
  rewrite lookup_pageCell. destruct pos as [x y]. cbn [Position.x Position.y].
  rewrite Hp. unfold pageCell in Hp. cbn [Position.x Position.y] in Hp.
  destruct (index pb y); [reflexivity|discriminate].
Qed.

(** X19.  Each move of a solution [validateSolution] accepts can be
    played on the page: when the page board shows the position reached by
    the moves before it and the mover has moved fewer than two times on
    the page, [onPieceDrop] on the two squares of the move returns [true]
    and the page board shows the position after the move. *)
Theorem X19_page_accepts_validated_move (b : Board) (pre post : list Move) (m : Move)
        (gs : GameState) (color : Piece.Color) :
  wfBoard b -> kingCount b <= 1 ->
  validateBoards b (pre ++ m :: post) = true ->
  mirrors (GameState.board gs) (replay b pre) ->
  (forall mover,
      pageCell (GameState.board gs) (Move.from m) = Some (Some mover) ->
      Page.movesOf (GameState.moveCount gs) (TrackedPiece.id mover) < 2) ->
  exists gs',
    Page.onPieceDrop (positionToAlgebraic (Move.from m))
                     (positionToAlgebraic (Move.to m))
                     (Piece.mk color (Move.piece m)) gs
    = Ok (true, gs')
    /\ mirrors (GameState.board gs') (replay b (pre ++ [m])).
Proof.
  intros Hwf Hone Hv Hm Hlimit.
  destruct (validated_move_playable b pre post m Hwf Hv) as (Hfrom & Hto & Hvalid).
  set (cur := replay b pre) in *.
  pose proof (wfBoard_replay pre b Hwf) as Hwfc. fold cur in Hwfc.
  pose proof (readCell_onBoard _ _ _ Hwfc Hfrom) as Hf.
  pose proof (readCell_onBoard _ _ _ Hwfc Hto) as Ht.
  assert (Hking : isKingAt cur (Move.to m) = false).
  { destruct (isKingAt cur (Move.to m)) eqn:Hk; [|reflexivity].
    rewrite (validateBoards_king_capture b pre m post Hone Hk) in Hv. discriminate. }
  destruct (lookup_piece _ _ _ _ Hm Hfrom) as (sp & Hls & Hcs & Hts).
  destruct (lookup_piece _ _ _ _ Hm Hto) as (tp & Hlt & Hct & Htt).
  unfold Page.onPieceDrop.
  rewrite (algebraicToPosition_square _ Hf), (algebraicToPosition_square _ Ht).
  rewrite Hls, Hlt.
  destruct (Z.leb_spec 2 (Page.movesOf (GameState.moveCount gs) (TrackedPiece.id sp)))
    as [Hge|_]; [specialize (Hlimit sp Hcs); lia|].
  rewrite Hts, (page_isValidMove_mirror _ _ _ _ _ Hm Hwfc Hf Ht), Hking, Hvalid.
  cbn [negb andb]. eexists. split; [reflexivity|].
  cbn [GameState.board]. rewrite replay_snoc. fold cur. unfold applyMove.
  assert (H1 : mirrors (Page.store (GameState.board gs) (Move.to m)
                          (Some (TrackedPiece.mk (TrackedPiece.id sp)
                                   (pieceToSimplePiece (Piece.mk color (Move.piece m))))))
                       (writeCell cur (Move.to m) (Some (Move.piece m)))).
  { eapply mirrors_store; [exact Hm|exact Hct|].
    cbn [option_map TrackedPiece.type]. rewrite pieceToSimplePiece_kind. reflexivity. }
  destruct (pos_eqb_spec (Move.from m) (Move.to m)) as [Heq|Hne].
  - rewrite Heq in *. eapply mirrors_store; [exact H1| |reflexivity].
    eapply pageCell_store_same; eauto.
  - eapply mirrors_store; [exact H1| |reflexivity].
    destruct (pageCell_nth _ _ _ Hct) as (Hx & Hy & _).
    rewrite pageCell_store_other by assumption. exact Hcs.
Qed.

Lemma X19_witness :
  exists gs',
    Page.onPieceDrop (positionToAlgebraic (Move.from kingTakesBishop))
                     (positionToAlgebraic (Move.to kingTakesBishop))
                     (Piece.mk Piece.White (Move.piece kingTakesBishop))
                     afterKingTakesPawn
    = Ok (true, gs')
    /\ mirrors (GameState.board gs')
               (replay (board samplePuzzle) ([kingTakesPawn] ++ [kingTakesBishop])).
Proof.
  apply (X19_page_accepts_validated_move (board samplePuzzle) [kingTakesPawn] []
           kingTakesBishop afterKingTakesPawn Piece.White).
  - vm_compute. split; [reflexivity|repeat constructor].
  - vm_compute. discriminate.
  - vm_compute. reflexivity.
  - vm_compute. reflexivity.
  - intros mover H. vm_compute in H. injection H as <-. vm_compute. reflexivity.
Defined.

(** ** The clock; draggable pieces *)

Lemma formatTime_table :
  forallb (fun n => String.eqb (Page.formatTime (Z.of_nat n)) (clockText (Z.of_nat n)))
          (seq 0 (Z.to_nat 6000)) = true.
Proof. vm_compute. reflexivity. Qed.

(** X24.  For less than a hundred minutes [formatTime] shows minutes
    and seconds on two digits each, separated by a colon. *)
Theorem X24_formatTime_clock (seconds : Z) :
  0 <= seconds < 6000 -> Page.formatTime seconds = clockText seconds.
Proof.
  intros H. pose proof formatTime_table as T. rewrite forallb_forall in T.
  specialize (T (Z.to_nat seconds)). rewrite Z2Nat.id in T by lia.
  apply String.eqb_eq. apply T. apply in_seq. lia.
Qed.

Lemma X24_witness : Page.formatTime 75 = clockText 75.
Proof. apply (X24_formatTime_clock 75). lia. Defined.

Lemma occupied_count pb pos p :
  pageCell pb pos = Some (Some p) -> 1 <= countIf isPiece (concat pb).
Proof.
  intros H. destruct (pageCell_nth _ _ _ H) as (_ & _ & row & Hrow & Hc).
  assert (Hin : In (Some p) (filter isPiece (concat pb))).
  { apply filter_In. split; [|reflexivity]. apply in_concat. exists row.
    split; eapply nth_error_In; eauto. }
  unfold countIf. destruct (filter isPiece (concat pb)); [destruct Hin|].
  cbn [length]. lia.
Qed.

Lemma two_occupied pb p q a c :
  pageCell pb p = Some (Some a) -> pageCell pb q = Some (Some c) -> p <> q ->
  2 <= countIf isPiece (concat pb).
Proof.
  intros Hp Hq Hne.
  pose proof (count_store isPiece pb p None (Some a) Hp) as Hcount.
  destruct (pageCell_nth _ _ _ Hp) as (Hx & Hy & _).
  assert (Hq' : pageCell (Page.store pb p None) q = Some (Some c))
    by (rewrite pageCell_store_other by congruence; exact Hq).
  apply occupied_count in Hq'. cbn [isPiece Z.b2z] in Hcount. lia.
Qed.

(** X22.  A drop that [onPieceDrop] accepts between two different
    squares moves a piece that [isDraggablePiece] allows to be dragged. *)
Theorem X22_dropped_piece_was_draggable (sourceSquare targetSquare : string)
        (piece : Piece) (gs gs' : GameState) :
  Page.onPieceDrop sourceSquare targetSquare piece gs = Ok (true, gs') ->
  Page.algebraicToPosition sourceSquare <> Page.algebraicToPosition targetSquare ->
  Page.isDraggablePiece sourceSquare gs = Ok true.
Proof.
  intros Hrun Hne. apply onPieceDrop_cases in Hrun.
  destruct Hrun as [[Hr _]|(_ & from & to & sp & tp & Hs & Ht & Hlt & _)];
    [discriminate|].
  destruct (lookup_Found _ _ _ _ Hs) as [Hps Hfrom].
  destruct (lookup_Found _ _ _ _ Ht) as [Hpt Hto].
  assert (Hft : from <> to).
  { intros ->. apply Hne. congruence. }
  pose proof (two_occupied _ _ _ _ _ Hfrom Hto Hft) as H2.
  unfold Page.isDraggablePiece. rewrite remainingPieces_count, Hs.
  destruct (Z.eqb_spec (countIf isPiece (concat (GameState.board gs))) 1); [lia|].
  f_equal. apply Z.ltb_lt. exact Hlt.
Qed.

Lemma X22_witness : Page.isDraggablePiece "e3"%string samplePage = Ok true.
Proof.
  apply (X22_dropped_piece_was_draggable "e3"%string "d4"%string whiteKing samplePage
           afterKingTakesPawn).
  - vm_compute. reflexivity.
  - vm_compute. discriminate.
Defined.

(** ** Promotion on the page *)

Lemma capture_count pb from to sp tp newPiece :
  pageCell pb from = Some (Some sp) -> pageCell pb to = Some (Some tp) ->
  countIf isPiece (concat (Page.store (Page.store pb to (Some newPiece)) from None))
  = countIf isPiece (concat pb) - 1.
Proof.
  intros Hfrom Hto.
  destruct (pageCell_nth _ _ _ Hto) as (Htx & Hty & _).
  set (b1 := Page.store pb to (Some newPiece)).
  assert (Hb1to : pageCell b1 to = Some (Some newPiece))
    by (eapply pageCell_store_same; eauto).
  assert (Hb1from : exists c, pageCell b1 from = Some c /\ isPiece c = true).
  { destruct (pos_eqb_spec from to) as [->|Hne].
    - exists (Some newPiece). split; [exact Hb1to|reflexivity].
    - exists (Some sp). split; [|reflexivity].
      unfold b1. rewrite pageCell_store_other by assumption. exact Hfrom. }
  destruct Hb1from as (c & Hb1from & Hc).
  rewrite (count_store isPiece b1 from None c Hb1from).
  unfold b1. rewrite (count_store isPiece _ to (Some newPiece) (Some tp) Hto).
  rewrite Hc. cbn [isPiece Z.b2z]. lia.
Qed.

Local Open Scope char_scope.

Lemma rankIs_rank (square : string) (c : ascii) (n : Z) :
  Page.rankIs square c = true -> parseInt c = Some n ->
  snd (Page.algebraicToPosition square) = Some (8 - n).
Proof.
  unfold Page.rankIs, Page.algebraicToPosition. cbn [snd].
  destruct (String.get 1 square) as [r|]; [|discriminate].
  intros Hr Hn. apply Ascii.eqb_eq in Hr. subst r. rewrite Hn. reflexivity.
Qed.

Local Close Scope char_scope.

(** X23.  When [onPromotionCheck] returns [true], the source square
    holds a piece on the seventh rank and the target square a piece on the
    eighth rank, one file apart, and [onPromotionPieceSelect] performs the
    capture.  Neither callback looks at the kind of the piece on the source
    square or tests for a king on the target: when the mover is a pawn and
    the target is not a king the outcome is that of [onPieceDrop], and when
    the target is a king the promotion captures it where [onPieceDrop]
    refuses. *)
Theorem X23_promotion_is_an_unchecked_capture (sourceSquare targetSquare : string)
        (piece promoted : Piece) (gs : GameState) :
  Page.onPromotionCheck sourceSquare targetSquare piece gs = Ok true ->
  exists from to sourcePiece targetPiece gs',
    Page.lookup (GameState.board gs) (Page.algebraicToPosition sourceSquare)
    = Page.Found from (Some sourcePiece)
    /\ Page.lookup (GameState.board gs) (Page.algebraicToPosition targetSquare)
       = Page.Found to (Some targetPiece)
    /\ Position.y from = 1 /\ Position.y to = 0
    /\ Z.abs (Position.x from - Position.x to) = 1
    /\ Page.onPromotionPieceSelect (Some promoted) (Some sourceSquare)
                                    (Some targetSquare) gs
       = Some (Ok (true, gs'))
    /\ Page.remainingPieces gs' = Page.remainingPieces gs - 1
    /\ (TrackedPiece.type sourcePiece = "P"%char ->
        TrackedPiece.type targetPiece <> "K"%char ->
        Page.onPieceDrop sourceSquare targetSquare promoted gs = Ok (true, gs'))
    /\ (TrackedPiece.type targetPiece = "K"%char ->
        Page.onPieceDrop sourceSquare targetSquare promoted gs = Ok (false, gs)).
Proof.
  unfold Page.onPromotionCheck.
  destruct (Page.isEmptyString sourceSquare || Page.isEmptyString targetSquare) eqn:Hempty;
    [discriminate|].
  destruct (Page.lookup (GameState.board gs) (Page.algebraicToPosition targetSquare))
    as [| |to [tp|]] eqn:Ht; try discriminate.
  destruct (Page.lookup (GameState.board gs) (Page.algebraicToPosition sourceSquare))
    as [| |from [sp|]] eqn:Hs; try discriminate.
  destruct (Z.leb_spec 2 (Page.movesOf (GameState.moveCount gs) (TrackedPiece.id sp)))
    as [Hge|Hlt]; [discriminate|].
  destruct (Z.eqb_spec (Z.abs (Position.x from - Position.x to)) 1) as [Hdx|];
    [|discriminate]. cbn [negb].
  destruct (Page.isWhitePawn piece && Page.rankIs sourceSquare "7"
            && Page.rankIs targetSquare "8") eqn:Hpawn; [|discriminate].
  intros _. apply andb_true_iff in Hpawn. destruct Hpawn as [Hpawn H8].
  apply andb_true_iff in Hpawn. destruct Hpawn as [_ H7].
  destruct (lookup_Found _ _ _ _ Hs) as [Hps Hfrom].
  destruct (lookup_Found _ _ _ _ Ht) as [Hpt Hto].
  pose proof (rankIs_rank _ _ 7 H7 eq_refl) as Hy7. rewrite Hps in Hy7.
  pose proof (rankIs_rank _ _ 8 H8 eq_refl) as Hy8. rewrite Hpt in Hy8.
  cbn [snd] in Hy7, Hy8. injection Hy7 as Hy7. injection Hy8 as Hy8.
  set (newPiece := TrackedPiece.mk (TrackedPiece.id sp) (pieceToSimplePiece promoted)).
  set (gs' := GameState.mk
                (Page.store (Page.store (GameState.board gs) to (Some newPiece)) from None)
                (Page.set (GameState.moveCount gs) (TrackedPiece.id sp)
                   (Page.movesOf (GameState.moveCount gs) (TrackedPiece.id sp) + 1))).
  exists from, to, sp, tp, gs'.
  split; [reflexivity|]. split; [reflexivity|].
  split; [lia|]. split; [lia|]. split; [exact Hdx|].
  assert (Hrow : exists row, index (GameState.board gs) (Position.y to) = Some row
                             /\ index row (Position.x to) = Some (Some tp)).
  { unfold pageCell in Hto.
    destruct (index (GameState.board gs) (Position.y to)) as [row|]; [|discriminate].
    eauto. }
  destruct Hrow as (row & Hrow & Hcell).
  split.
  { unfold Page.onPromotionPieceSelect. rewrite Hempty, Hs.
    unfold Page.storeAt. rewrite Hpt. cbn [fst snd]. rewrite Hrow, Hcell.
    destruct to as [tx ty]. reflexivity. }
  split.
  { rewrite !remainingPieces_count. cbn [GameState.board].
    eapply capture_count; eauto. }
  split.
  - intros HP HK. unfold Page.onPieceDrop. rewrite Hs, Ht.
    destruct (Z.leb_spec 2 (Page.movesOf (GameState.moveCount gs) (TrackedPiece.id sp)));
      [lia|].
    unfold Page.isValidMove. rewrite Hrow, Hcell, HP.
    destruct (Ascii.eqb_spec (TrackedPiece.type tp) "K"); [contradiction|].
    cbn [Ascii.eqb Bool.eqb]. cbv iota.
    replace (Z.abs (Position.x from - Position.x to) =? 1) with true
      by (symmetry; apply Z.eqb_eq; exact Hdx).
    replace (Position.y to - Position.y from =? -1) with true
      by (symmetry; apply Z.eqb_eq; lia).
    reflexivity.
  - intros HK. unfold Page.onPieceDrop. rewrite Hs, Ht.
    destruct (Z.leb_spec 2 (Page.movesOf (GameState.moveCount gs) (TrackedPiece.id sp)));
      [lia|].
    unfold Page.isValidMove. rewrite Hrow, Hcell, HK. reflexivity.
Qed.

Lemma X23_witness :
  exists from to sourcePiece targetPiece gs',
    Page.lookup (GameState.board promotionPage) (Page.algebraicToPosition "a7"%string)
    = Page.Found from (Some sourcePiece)
    /\ Page.lookup (GameState.board promotionPage) (Page.algebraicToPosition "b8"%string)
       = Page.Found to (Some targetPiece)
    /\ Position.y from = 1 /\ Position.y to = 0
    /\ Z.abs (Position.x from - Position.x to) = 1
    /\ Page.onPromotionPieceSelect (Some whiteQueen) (Some "a7"%string) (Some "b8"%string)
                                   promotionPage
       = Some (Ok (true, gs'))
    /\ Page.remainingPieces gs' = Page.remainingPieces promotionPage - 1
    /\ (TrackedPiece.type sourcePiece = "P"%char ->
        TrackedPiece.type targetPiece <> "K"%char ->
        Page.onPieceDrop "a7"%string "b8"%string whiteQueen promotionPage = Ok (true, gs'))
    /\ (TrackedPiece.type targetPiece = "K"%char ->
        Page.onPieceDrop "a7"%string "b8"%string whiteQueen promotionPage
        = Ok (false, promotionPage)).
Proof.
  apply (X23_promotion_is_an_unchecked_capture "a7"%string "b8"%string whitePawn whiteQueen
           promotionPage).
  vm_compute. reflexivity.
Defined.

(** ** A new puzzle *)

Local Open Scope string_scope.

Lemma remainingPieces_generated (g : Generator) :
  wfBoard (board g) ->
  Page.remainingPieces (GameState.mk (fenToBoard (getFEN g ++ " w - - 0 1")) [])
  = countPieces (board g).
Proof.
  intros Hwf. change (Page.remainingPieces _)
    with (decodedCount (fenToBoard (getFEN g ++ " w - - 0 1"))).
  rewrite <- (decodedCount_map TrackedPiece.type).
  fold (typesOf (fenToBoard (getFEN g ++ " w - - 0 1"))).
  rewrite (fenToBoard_generated g Hwf). unfold lettersOf.
  rewrite decodedCount_map. apply decodedCount_board.
Qed.

(** X25.  When [generateNewPuzzle] obtains a puzzle, with samples in the
    unit interval and a range whose ends are in order: the new FEN passes
    [isValidFen], the new board has eight rows of eight cells, the number
    of pieces on it lies in the range, the solution has one move fewer than
    there are pieces, and the position shown is the one generated. *)
Theorem X25_new_puzzle (random : N -> number) (lo hi : Z) (newFen : string)
        (newSolution : list string) (gs : GameState) :
  inUnitInterval random -> lo <= hi ->
  Page.generateNewPuzzle random (lo, hi) = Some (newFen, newSolution, gs) ->
  Page.isValidFen newFen = true
  /\ wfGrid (GameState.board gs)
  /\ lo <= Page.remainingPieces gs <= hi
  /\ Z.of_nat (length newSolution) = Page.remainingPieces gs - 1
  /\ Page.positionFen gs ++ " w - - 0 1" = newFen.
Proof.
  intros Hr Hle. unfold Page.generateNewPuzzle.
  set (gen := construct random None).
  set (n := Page.randomPieceCount (random (draws gen)) (lo, hi)).
  pose proof (generate_outcome random n (withDraws (N.succ (draws gen)) gen)) as H.
  destruct (generate random n (withDraws (N.succ (draws gen)) gen))
    as [[[]|e] g'] eqn:Hrun; [|discriminate].
  intros Hgen. injection Hgen as <- <- <-.
  destruct H as (_ & HI & [Hpc Hv] & HC & _).
  destruct (HC Hr) as [Hwf Hcount].
  pose proof (isValidFen_generated g' Hwf) as Hvalid.
  split; [exact Hvalid|].
  split; [apply fenToBoard_wfGrid; exact Hvalid|].
  rewrite (remainingPieces_generated g' Hwf), <- Hcount, Hpc.
  split.
  { subst n. apply randomPieceCount_range; [apply Hr|apply Hr|exact Hle]. }
  split.
  { unfold getSolution. rewrite length_map.
    apply (generate_success_length random n _ g' Hr Hrun). }
  rewrite (positionFen_generated g' Hwf). reflexivity.
Qed.

Lemma X25_witness :
  exists newFen newSolution gs,
    Page.generateNewPuzzle sampleStream (3, 6) = Some (newFen, newSolution, gs)
    /\ Page.isValidFen newFen = true
    /\ wfGrid (GameState.board gs)
    /\ 3 <= Page.remainingPieces gs <= 6
    /\ Z.of_nat (length newSolution) = Page.remainingPieces gs - 1
    /\ Page.positionFen gs ++ " w - - 0 1" = newFen.
Proof.
  destruct (Page.generateNewPuzzle sampleStream (3, 6))
    as [[[newFen newSolution] gs]|] eqn:Hnew; [|vm_compute in Hnew; discriminate].
  exists newFen, newSolution, gs. split; [reflexivity|].
  apply (X25_new_puzzle sampleStream 3 6 newFen newSolution gs).
  - exact sampleStream_range.
  - lia.
  - exact Hnew.
Defined.

Local Close Scope string_scope.

(** ** The callbacks on a board of 8 by 8 *)

Lemma shadow_cell pb pos :
  option_map (option_map (fun _ => tt)) (pageCell pb pos)
  = option_map (option_map (fun _ => tt)) (readCell (shadow pb) pos).
Proof.
  unfold pageCell, readCell, shadow, Board, Cell. rewrite index_map.
  destruct (index pb (Position.y pos)) as [row|]; cbn [option_map]; [|reflexivity].
  rewrite index_map. destruct (index row (Position.x pos)) as [[p|]|]; reflexivity.
Qed.

Lemma wfBoard_shadow pb : wfGrid pb -> wfBoard (shadow pb).
Proof.
  intros [Hl Hr]. split; unfold shadow.
  - rewrite length_map. exact Hl.
  - apply Forall_map. eapply Forall_impl; [|exact Hr].
    intros row H. cbv beta. rewrite length_map. exact H.
Qed.

(** The page's scan depends on which cells are empty only: where the
    generator's scan of the shadow gives a boolean, the page's scan gives
    the same. *)
Lemma sightLoop_shadow pb :
  forall fuel fuel' x y sx sy tx ty r cells,
    (fuel <= fuel')%nat ->
    sightLoop fuel (shadow pb) x y sx sy tx ty = (Seen r, cells) ->
    Page.sightLoop fuel' pb x y sx sy tx ty = Seen r.
Proof.
  induction fuel as [|fuel IH];
    intros fuel' x y sx sy tx ty r cells Hle Hrun;
    rewrite sightLoop_unfold in Hrun; rewrite page_sightLoop_unfold;
    destruct (negb (x =? tx) || negb (y =? ty)).
  - discriminate.
  - injection Hrun as <- _. reflexivity.
  - destruct fuel' as [|fuel']; [lia|].
    pose proof (shadow_cell pb (Position.mk x y)) as E.
    destruct (readCell (shadow pb) (Position.mk x y)) as [[k|]|]; try discriminate.
    + injection Hrun as <- _.
      destruct (pageCell pb (Position.mk x y)) as [[p|]|]; try discriminate.
      reflexivity.
    + destruct (pageCell pb (Position.mk x y)) as [[p|]|]; try discriminate.
      destruct (sightLoop fuel (shadow pb) (x + sx) (y + sy) sx sy tx ty)
        as [r' seen] eqn:Hrec.
      injection Hrun as -> _. eapply IH; [|exact Hrec]. lia.
  - injection Hrun as <- _. reflexivity.
Qed.

Lemma page_scan_aligned pb from to :
  wfGrid pb -> onBoard from -> onBoard to -> aligned from to ->
  exists r, Page.hasLineOfSight from to pb = Seen r.
Proof.
  intros Hwf Hf Ht Hal. destruct (pos_eqb_spec from to) as [->|Hne].
  - exists true. unfold Page.hasLineOfSight.
    rewrite !Z.sub_diag. change (stepOf 0) with 0. rewrite !Z.add_0_r.
    rewrite page_sightLoop_unfold, !Z.eqb_refl. reflexivity.
  - destruct (sightTrace_spec (shadow pb) from to (wfBoard_shadow pb Hwf) Hf Ht Hne Hal)
      as (r & cells & Hrun & _).
    exists r. unfold Page.hasLineOfSight. unfold sightTrace in Hrun.
    eapply (sightLoop_shadow pb 7); [|exact Hrun].
    unfold Page.scanBound. destruct Hwf as [Hl _]. rewrite Hl. lia.
Qed.

Lemma wfGrid_cell (pb : list (list (option TrackedPiece))) (pos : Position) :
  wfGrid pb -> onBoard pos ->
  exists row cell, index pb (Position.y pos) = Some row
                   /\ index row (Position.x pos) = Some cell.
Proof.
  intros [Hl Hr] [Hx Hy].
  rewrite index_nth_error by lia.
  destruct (nth_error pb (Z.to_nat (Position.y pos))) as [row|] eqn:Hrow.
  - exists row. rewrite index_nth_error by lia.
    rewrite Forall_forall in Hr. pose proof (Hr row (nth_error_In _ _ Hrow)) as Hlen.
    destruct (nth_error row (Z.to_nat (Position.x pos))) as [c|] eqn:Hc; eauto.
    apply nth_error_None in Hc. lia.
  - apply nth_error_None in Hrow. lia.
Qed.

Lemma page_isValidMove_returns pb from to piece :
  wfGrid pb -> onBoard from -> onBoard to ->
  exists r, Page.isValidMove from to piece pb = Ok r.
Proof.
  intros Hwf Hf Ht. unfold Page.isValidMove.
  destruct (wfGrid_cell pb to Hwf Ht) as (row & cell & Hrow & Hcell).
  rewrite Hrow, Hcell.
  assert (Hscan : aligned from to ->
                  exists r, Page.scanned (Page.hasLineOfSight from to pb) = Ok r).
  { intros Hal. destruct (page_scan_aligned pb from to Hwf Hf Ht Hal) as (r & ->).
    exists r. reflexivity. }
  destruct (match cell with
            | Some targetPiece => Ascii.eqb (TrackedPiece.type targetPiece) "K"
            | None => false
            end); [eauto|].
  destruct (Ascii.eqb piece "P"); [eauto|].
  destruct (Ascii.eqb piece "N"); [eauto|].
  destruct (Ascii.eqb piece "B").
  { destruct (Z.eqb_spec (Z.abs (Position.x from - Position.x to))
                         (Z.abs (Position.y from - Position.y to))); [|eauto].
    apply Hscan. unfold aligned. cbv zeta. lia. }
  destruct (Ascii.eqb piece "R").
  { destruct (Z.eqb_spec (Z.abs (Position.x from - Position.x to)) 0);
      [apply Hscan; unfold aligned; cbv zeta; lia|].
    destruct (Z.eqb_spec (Z.abs (Position.y from - Position.y to)) 0);
      [apply Hscan; unfold aligned; cbv zeta; lia|].
    cbn [orb]. eauto. }
  destruct (Ascii.eqb piece "Q").
  { destruct (Z.eqb_spec (Z.abs (Position.x from - Position.x to))
                         (Z.abs (Position.y from - Position.y to)));
      [apply Hscan; unfold aligned; cbv zeta; lia|].
    destruct (Z.eqb_spec (Z.abs (Position.x from - Position.x to)) 0);
      [apply Hscan; unfold aligned; cbv zeta; lia|].
    destruct (Z.eqb_spec (Z.abs (Position.y from - Position.y to)) 0);
      [apply Hscan; unfold aligned; cbv zeta; lia|].
    cbn [orb]. eauto. }
  destruct (Ascii.eqb piece "K"); eauto.
Qed.

Lemma wfGrid_store (pb : list (list (option TrackedPiece))) pos v :
  wfGrid pb -> wfGrid (Page.store pb pos v).
Proof.
  intros [Hl Hr]. unfold Page.store.
  destruct (nth_error pb (Z.to_nat (Position.y pos))) as [row|] eqn:Hrow;
    [|split; assumption].
  split.
  - rewrite setNth_length. exact Hl.
  - apply setNth_Forall; [exact Hr|]. rewrite setNth_length.
    rewrite Forall_forall in Hr. exact (Hr row (nth_error_In _ _ Hrow)).
Qed.

Lemma lookup_onBoard pb pos :
  wfGrid pb -> onBoard pos ->
  exists cell, Page.lookup pb (Page.algebraicToPosition (positionToAlgebraic pos))
               = Page.Found pos cell
               /\ pageCell pb pos = Some cell.
Proof.
  intros Hwf Hon. rewrite (algebraicToPosition_square pos Hon).
  destruct (wfGrid_cell pb pos Hwf Hon) as (row & cell & Hrow & Hcell).
  exists cell. unfold Page.lookup, pageCell. cbn [fst snd]. rewrite Hrow, Hcell.
  destruct pos; split; reflexivity.
Qed.

(** What a call of [onPromotionPieceSelect] that returns does. *)
Lemma onPromotionPieceSelect_cases piece sourceSquare targetSquare gs r gs' :
  Page.onPromotionPieceSelect piece sourceSquare targetSquare gs = Some (Ok (r, gs')) ->
  (r = false /\ gs' = gs)
  \/ (r = true
      /\ exists promoted from to sourcePiece old,
           piece = Some promoted
           /\ pageCell (GameState.board gs) from = Some (Some sourcePiece)
           /\ pageCell (GameState.board gs) to = Some old
           /\ gs' = GameState.mk
                      (Page.store
                         (Page.store (GameState.board gs) to
                            (Some (TrackedPiece.mk (TrackedPiece.id sourcePiece)
                                     (pieceToSimplePiece promoted))))
                         from None)
                      (Page.set (GameState.moveCount gs) (TrackedPiece.id sourcePiece)
                         (Page.movesOf (GameState.moveCount gs)
                            (TrackedPiece.id sourcePiece) + 1))).
Proof.
  unfold Page.onPromotionPieceSelect.
  destruct piece as [promoted|], sourceSquare as [s|], targetSquare as [t|];
    try (intros [= <- <-]; left; split; reflexivity).
  destruct (Page.isEmptyString s || Page.isEmptyString t);
    [intros [= <- <-]; left; split; reflexivity|].
  destruct (Page.lookup (GameState.board gs) (Page.algebraicToPosition s))
    as [| |from [sp|]] eqn:Hs; try discriminate;
    try (intros [= <- <-]; left; split; reflexivity).
  destruct (lookup_Found _ _ _ _ Hs) as [_ Hfrom].
  unfold Page.storeAt.
  destruct (snd (Page.algebraicToPosition t)) as [y|]; [|discriminate].
  destruct (index (GameState.board gs) y) as [row|] eqn:Hrow; [|discriminate].
  destruct (fst (Page.algebraicToPosition t)) as [x|]; [|discriminate].
  destruct (index row x) as [old|] eqn:Hcell; [|discriminate].
  intros [= <- <-]. right. split; [reflexivity|].
  exists promoted, from, (Position.mk x y), sp, old.
  split; [reflexivity|]. split; [exact Hfrom|]. split; [|reflexivity].
  unfold pageCell. cbn [Position.x Position.y]. rewrite Hrow. exact Hcell.
Qed.

Lemma played_wfGrid fen gs :
  Page.isValidFen fen = true -> played fen gs -> wfGrid (GameState.board gs).
Proof.
  intros Hv H.
  induction H as [|s t piece gs gs' r _ IH _ _ Hrun|piece s t gs gs' r _ IH _ _ Hrun].
  - apply fenToBoard_wfGrid. exact Hv.
  - destruct (onPieceDrop_cases _ _ _ _ _ _ Hrun)
      as [[_ ->]|(_ & from & to & sp & tp & _ & _ & _ & _ & ->)]; [exact IH|].
    cbn [GameState.board]. apply wfGrid_store, wfGrid_store, IH.
  - destruct (onPromotionPieceSelect_cases _ _ _ _ _ _ Hrun)
      as [[_ ->]|(_ & promoted & from & to & sp & old & _ & _ & _ & ->)]; [exact IH|].
    cbn [GameState.board]. apply wfGrid_store, wfGrid_store, IH.
Qed.

(** A square of the chessboard is the name of a square of the board. *)
Lemma isSquare_position (square : string) :
  isSquare square = true ->
  exists pos, onBoard pos /\ square = positionToAlgebraic pos.
Proof.
  destruct square as [|file [|rank [|c rest]]]; try discriminate.
  unfold isSquare, Page.inRange.
  change (N_of_ascii "a") with 97%N. change (N_of_ascii "h") with 104%N.
  change (N_of_ascii "1") with 49%N. change (N_of_ascii "8") with 56%N.
  rewrite !andb_true_iff, !N.leb_le. intros [[Hf1 Hf2] [Hr1 Hr2]].
  rewrite <- (ascii_N_embedding file), <- (ascii_N_embedding rank).
  generalize dependent (N_of_ascii rank). generalize dependent (N_of_ascii file).
  intros nf Hf1 Hf2 nr Hr1 Hr2.
  exists (Position.mk (Z.of_N nf - 97) (56 - Z.of_N nr)).
  assert (Hnf : (nf = 97 \/ nf = 98 \/ nf = 99 \/ nf = 100 \/ nf = 101 \/ nf = 102
                 \/ nf = 103 \/ nf = 104)%N) by lia.
  assert (Hnr : (nr = 49 \/ nr = 50 \/ nr = 51 \/ nr = 52 \/ nr = 53 \/ nr = 54
                 \/ nr = 55 \/ nr = 56)%N) by lia.
  clear Hf1 Hf2 Hr1 Hr2.
  repeat (destruct Hnf as [->|Hnf]); try subst nf;
    repeat (destruct Hnr as [->|Hnr]); try subst nr;
    (split; [unfold onBoard; cbn; lia|reflexivity]).
Qed.

(** On a board of 8 by 8 the callbacks return for the squares of the
    board. *)
Lemma callbacks_return (gs : GameState) (from to : Position) (piece : Piece) :
  wfGrid (GameState.board gs) -> onBoard from -> onBoard to ->
  (exists r gs',
      Page.onPieceDrop (positionToAlgebraic from) (positionToAlgebraic to) piece gs
      = Ok (r, gs'))
  /\ (exists r,
        Page.onPromotionCheck (positionToAlgebraic from) (positionToAlgebraic to)
                              piece gs = Ok r)
  /\ (exists r gs',
        Page.onPromotionPieceSelect (Some piece) (Some (positionToAlgebraic from))
                                    (Some (positionToAlgebraic to)) gs
        = Some (Ok (r, gs')))
  /\ (exists r, Page.isDraggablePiece (positionToAlgebraic from) gs = Ok r).
Proof.
  intros Hwf Hf Ht.
  destruct (lookup_onBoard _ from Hwf Hf) as (sc & Hs & Hsc).
  destruct (lookup_onBoard _ to Hwf Ht) as (tc & Htl & Htc).
  split; [|split; [|split]].
  - unfold Page.onPieceDrop. rewrite Hs, Htl.
    destruct tc as [tp|], sc as [sp|]; eauto.
    destruct (2 <=? Page.movesOf (GameState.moveCount gs) (TrackedPiece.id sp)); eauto.
    destruct (page_isValidMove_returns (GameState.board gs) from to
                (TrackedPiece.type sp) Hwf Hf Ht) as ([|] & ->); eauto.
  - unfold Page.onPromotionCheck.
    destruct (Page.isEmptyString (positionToAlgebraic from)
              || Page.isEmptyString (positionToAlgebraic to)); eauto.
    rewrite Hs, Htl. destruct tc as [tp|], sc as [sp|]; eauto.
    destruct (2 <=? Page.movesOf (GameState.moveCount gs) (TrackedPiece.id sp)); eauto.
    destruct (negb (Z.abs (Position.x from - Position.x to) =? 1)); eauto.
    destruct (Page.isWhitePawn piece && Page.rankIs (positionToAlgebraic from) "7"
              && Page.rankIs (positionToAlgebraic to) "8"); eauto.
  - unfold Page.onPromotionPieceSelect.
    destruct (Page.isEmptyString (positionToAlgebraic from)
              || Page.isEmptyString (positionToAlgebraic to)); eauto.
    rewrite Hs. destruct sc as [sp|]; eauto.
    unfold Page.storeAt. rewrite (algebraicToPosition_square to Ht). cbn [fst snd].
    destruct (wfGrid_cell _ to Hwf Ht) as (row & cell & Hrow & Hcell).
    rewrite Hrow, Hcell. eauto.
  - unfold Page.isDraggablePiece.
    destruct (Page.remainingPieces gs =? 1); eauto.
    rewrite Hs. destruct sc as [sp|]; eauto.
Qed.

(** X26.  After a FEN that [isValidFen] accepts has been loaded, whatever
    has been played since on the squares of the chessboard, the board has
    eight rows of eight cells and the callbacks return without raising for
    every pair of squares a1 to h8: [onPieceDrop], [onPromotionCheck],
    [onPromotionPieceSelect], which writes inside the rows, and
    [isDraggablePiece]. *)
Theorem X26_page_never_raises (fen : string) (gs : GameState)
        (sourceSquare targetSquare : string) (piece : Piece) :
  Page.isValidFen fen = true -> played fen gs ->
  isSquare sourceSquare = true -> isSquare targetSquare = true ->
  wfGrid (GameState.board gs)
  /\ (exists r gs',
        Page.onPieceDrop sourceSquare targetSquare piece gs = Ok (r, gs'))
  /\ (exists r, Page.onPromotionCheck sourceSquare targetSquare piece gs = Ok r)
  /\ (exists r gs',
        Page.onPromotionPieceSelect (Some piece) (Some sourceSquare)
                                    (Some targetSquare) gs
        = Some (Ok (r, gs')))
  /\ (exists r, Page.isDraggablePiece sourceSquare gs = Ok r).
Proof.
  intros Hv Hplayed Hs Ht.
  pose proof (played_wfGrid fen gs Hv Hplayed) as Hwf.
  destruct (isSquare_position _ Hs) as (from & Hf & ->).
  destruct (isSquare_position _ Ht) as (to & Hto & ->).
  split; [exact Hwf|]. apply callbacks_return; assumption.
Qed.

Lemma X26_witness :
  wfGrid (GameState.board afterKingTakesPawn)
  /\ (exists r gs',
        Page.onPieceDrop "d4" "e4" whiteKing afterKingTakesPawn = Ok (r, gs'))
  /\ (exists r,
        Page.onPromotionCheck "d4" "e4" whiteKing afterKingTakesPawn = Ok r)
  /\ (exists r gs',
        Page.onPromotionPieceSelect (Some whiteKing) (Some "d4"%string)
                                    (Some "e4"%string) afterKingTakesPawn
        = Some (Ok (r, gs')))
  /\ (exists r, Page.isDraggablePiece "d4" afterKingTakesPawn = Ok r).
Proof.
  apply (X26_page_never_raises (getFEN samplePuzzle ++ " w - - 0 1")%string
           afterKingTakesPawn "d4" "e4" whiteKing).
  - vm_compute. reflexivity.
  - apply (played_drop _ "e3"%string "d4"%string whiteKing samplePage
             afterKingTakesPawn true).
    + apply played_start.
    + reflexivity.
    + reflexivity.
    + vm_compute. reflexivity.
  - reflexivity.
  - reflexivity.
Defined.

(** ** Identities on the page *)

Lemma index_cons_zero {A : Type} (h : A) (t : list A) : index (h :: t) 0 = Some h.
Proof. reflexivity. Qed.

Lemma index_cons_pos {A : Type} (h : A) (t : list A) (i : Z) :
  0 < i -> index (h :: t) i = index t (i - 1).
Proof.
  intros H. rewrite !index_nth_error by lia.
  replace (Z.to_nat i) with (S (Z.to_nat (i - 1))) by lia. reflexivity.
Qed.

Lemma idsIn_In (cells : list (option TrackedPiece)) (x : Z) (a : TrackedPiece) :
  index cells x = Some (Some a) -> In (TrackedPiece.id a) (idsIn cells).
Proof.
  intros H. apply index_In in H. unfold idsIn. apply in_flat_map.
  exists (Some a). split; [exact H|left; reflexivity].
Qed.

Lemma idsOf_In (pb : list (list (option TrackedPiece))) (p : Position) (a : TrackedPiece) :
  pageCell pb p = Some (Some a) -> In (TrackedPiece.id a) (idsOf pb).
Proof.
  unfold pageCell. destruct (index pb (Position.y p)) as [row|] eqn:Hrow; [|discriminate].
  intros H. unfold idsOf. apply in_flat_map. exists (Some a).
  split; [|left; reflexivity].
  apply in_concat. exists row. split; [eapply index_In; eauto|eapply index_In; eauto].
Qed.

Lemma idsOf_cons (row : list (option TrackedPiece)) (rest : list (list (option TrackedPiece))) :
  idsOf (row :: rest) = idsIn row ++ idsOf rest.
Proof. unfold idsOf, idsIn. cbn [concat]. apply flat_map_app. Qed.

Lemma idsIn_distinct (cells : list (option TrackedPiece)) :
  NoDup (idsIn cells) ->
  forall x x' a c,
    index cells x = Some (Some a) -> index cells x' = Some (Some c) ->
    TrackedPiece.id a = TrackedPiece.id c -> x = x'.
Proof.
  induction cells as [|cell rest IH]; intros Hnd x x' a c Ha Hc Hid.
  - apply index_Some in Ha. cbn [length] in Ha. lia.
  - assert (Hrest : NoDup (idsIn rest)).
    { change (idsIn (cell :: rest))
        with (match cell with
              | Some piece => [TrackedPiece.id piece]
              | None => []
              end ++ idsIn rest) in Hnd.
      apply NoDup_app_remove_l in Hnd. exact Hnd. }
    assert (Hhead : forall b, cell = Some b -> ~ In (TrackedPiece.id b) (idsIn rest)).
    { intros b ->. change (idsIn (Some b :: rest)) with (TrackedPiece.id b :: idsIn rest) in Hnd.
      inversion Hnd; assumption. }
    pose proof (index_Some _ _ _ Ha) as [Hx _].
    pose proof (index_Some _ _ _ Hc) as [Hx' _].
    destruct (Z.eq_dec x 0) as [->|Hx0], (Z.eq_dec x' 0) as [->|Hx'0].
    + reflexivity.
    + rewrite index_cons_zero in Ha. injection Ha as Ha.
      rewrite index_cons_pos in Hc by lia.
      exfalso. apply (Hhead a Ha). rewrite Hid. eapply idsIn_In; eauto.
    + rewrite index_cons_zero in Hc. injection Hc as Hc.
      rewrite index_cons_pos in Ha by lia.
      exfalso. apply (Hhead c Hc). rewrite <- Hid. eapply idsIn_In; eauto.
    + rewrite index_cons_pos in Ha, Hc by lia.
      pose proof (IH Hrest _ _ _ _ Ha Hc Hid). lia.
Qed.

(** Identities that are pairwise different in reading order are pairwise
    different cell by cell. *)
Lemma NoDup_distinctIds (pb : list (list (option TrackedPiece))) :
  NoDup (idsOf pb) -> distinctIds pb.
Proof.
  induction pb as [|row rest IH]; intros Hnd [px py] [qx qy] a c Ha Hc Hid.
  - unfold pageCell in Ha.
    destruct (index [] (Position.y (Position.mk px py))) eqn:E; [|discriminate].
    apply index_Some in E. cbn [length] in E. lia.
  - rewrite idsOf_cons in Hnd.
    pose proof (NoDup_app_remove_l _ _ Hnd) as Hrest.
    pose proof (NoDup_app_remove_r _ _ Hnd) as Hrow.
    assert (Hdisj : forall id, In id (idsIn row) -> ~ In id (idsOf rest)).
    { intros id H1 H2. revert Hnd H1 H2. clear.
      induction (idsIn row) as [|h t IHt]; intros Hnd H1 H2; [destruct H1|].
      cbn [app] in Hnd. inversion Hnd as [|? ? Hnot Hnd']; subst.
      destruct H1 as [->|H1]; [apply Hnot, in_or_app; right; exact H2|].
      exact (IHt Hnd' H1 H2). }
    unfold pageCell in Ha, Hc. cbn [Position.x Position.y] in Ha, Hc.
    assert (Hpy : 0 <= py).
    { destruct (index (row :: rest) py) eqn:E; [|discriminate].
      apply index_Some in E. lia. }
    assert (Hqy : 0 <= qy).
    { destruct (index (row :: rest) qy) eqn:E; [|discriminate].
      apply index_Some in E. lia. }
    destruct (Z.eq_dec py 0) as [->|Hp0], (Z.eq_dec qy 0) as [->|Hq0].
    + rewrite index_cons_zero in Ha, Hc.
      f_equal. eapply idsIn_distinct; eauto.
    + rewrite index_cons_zero in Ha. rewrite index_cons_pos in Hc by lia.
      exfalso. apply (Hdisj (TrackedPiece.id a)); [eapply idsIn_In; eauto|].
      rewrite Hid. apply (idsOf_In rest (Position.mk qx (qy - 1))). exact Hc.
    + rewrite index_cons_zero in Hc. rewrite index_cons_pos in Ha by lia.
      exfalso. apply (Hdisj (TrackedPiece.id c)); [eapply idsIn_In; eauto|].
      rewrite <- Hid. apply (idsOf_In rest (Position.mk px (py - 1))). exact Ha.
    + rewrite index_cons_pos in Ha, Hc by lia.
      pose proof (IH Hrest (Position.mk px (py - 1)) (Position.mk qx (qy - 1)) a c
                    Ha Hc Hid) as E.
      injection E as -> E. f_equal. lia.
Qed.

Lemma distinctIds_decoded (fen : string) : distinctIds (fenToBoard fen).
Proof.
  apply NoDup_distinctIds. unfold fenToBoard.
  destruct (rowsCells_ids (split "/" (hd EmptyString (split " " fen))) 0) as (k & Hk).
  change (Z.of_nat 0) with 0 in Hk. rewrite Hk.
  apply Injective_map_NoDup; [exact pieceName_inj|apply seq_NoDup].
Qed.

(** Moving an identity from one cell to another keeps the identities
    different. *)
Lemma distinctIds_move pb from to sp old v :
  distinctIds pb ->
  pageCell pb from = Some (Some sp) -> pageCell pb to = Some old ->
  TrackedPiece.id v = TrackedPiece.id sp ->
  distinctIds (Page.store (Page.store pb to (Some v)) from None).
Proof.
  intros Hd Hfrom Hto Hv.
  destruct (pageCell_nth _ _ _ Hfrom) as (Hfx & Hfy & _).
  destruct (pageCell_nth _ _ _ Hto) as (Htx & Hty & _).
  set (pb1 := Page.store pb to (Some v)).
  assert (H1to : pageCell pb1 to = Some (Some v))
    by (eapply pageCell_store_same; eauto).
  assert (H1other : forall p, p <> to -> pageCell pb1 p = pageCell pb p)
    by (intros p Hp; apply pageCell_store_other; assumption).
  assert (H1from : exists cell, pageCell pb1 from = Some cell).
  { destruct (pos_eqb_spec from to) as [->|Hne]; [eauto|].
    rewrite (H1other from Hne). eauto. }
  destruct H1from as (cell & H1from).
  assert (H2from : pageCell (Page.store pb1 from None) from = Some None)
    by (eapply pageCell_store_same; eauto).
  assert (H2other : forall p, p <> from ->
                              pageCell (Page.store pb1 from None) p = pageCell pb1 p)
    by (intros p Hp; apply pageCell_store_other; assumption).
  assert (Hin : forall p a, pageCell (Page.store pb1 from None) p = Some (Some a) ->
                            p <> from
                            /\ ((p = to /\ a = v) \/ (p <> to /\ pageCell pb p = Some (Some a)))).
  { intros p a Hp. destruct (pos_eqb_spec p from) as [->|Hne].
    - rewrite H2from in Hp. discriminate.
    - split; [exact Hne|]. rewrite (H2other p Hne) in Hp.
      destruct (pos_eqb_spec p to) as [->|Hnt].
      + left. rewrite H1to in Hp. injection Hp as <-. auto.
      + right. rewrite (H1other p Hnt) in Hp. auto. }
  intros p q a c Hp Hq Hid.
  destruct (Hin p a Hp) as [Hpf [[-> ->]|[Hpt Hpa]]];
    destruct (Hin q c Hq) as [Hqf [[-> ->]|[Hqt Hqc]]].
  - reflexivity.
  - exfalso. apply Hqf. apply (Hd q from c sp Hqc Hfrom). congruence.
  - exfalso. apply Hpf. apply (Hd p from a sp Hpa Hfrom). congruence.
  - exact (Hd p q a c Hpa Hqc Hid).
Qed.

(** X27.  In every game state the page goes through after loading a FEN
    that [isValidFen] accepts, by calls on the squares of the chessboard,
    no two cells hold the same identity: the move counts of the page are
    counts per piece. *)
Theorem X27_identities_stay_distinct (fen : string) (gs : GameState) :
  Page.isValidFen fen = true -> played fen gs -> distinctIds (GameState.board gs).
Proof.
  intros _ H.
  induction H as [|s t piece gs gs' r _ IH _ _ Hrun|piece s t gs gs' r _ IH _ _ Hrun].
  - apply distinctIds_decoded.
  - destruct (onPieceDrop_cases _ _ _ _ _ _ Hrun)
      as [[_ ->]|(_ & from & to & sp & tp & Hs & Ht & _ & _ & ->)]; [exact IH|].
    destruct (lookup_Found _ _ _ _ Hs) as [_ Hfrom].
    destruct (lookup_Found _ _ _ _ Ht) as [_ Hto].
    cbn [GameState.board]. eapply distinctIds_move; eauto.
  - destruct (onPromotionPieceSelect_cases _ _ _ _ _ _ Hrun)
      as [[_ ->]|(_ & promoted & from & to & sp & old & _ & Hfrom & Hto & ->)];
      [exact IH|].
    cbn [GameState.board]. eapply distinctIds_move; eauto.
Qed.

Lemma X27_witness : distinctIds (GameState.board afterKingTakesPawn).
Proof.
  apply (X27_identities_stay_distinct (getFEN samplePuzzle ++ " w - - 0 1")%string
           afterKingTakesPawn).
  - vm_compute. reflexivity.
  - apply (played_drop _ "e3"%string "d4"%string whiteKing samplePage
             afterKingTakesPawn true).
    + apply played_start.
    + reflexivity.
    + reflexivity.
    + vm_compute. reflexivity.
Defined.

(** ** The FEN box *)

Local Open Scope string_scope.

(** X28.  When [handleFenChange] changes the state, the FEN it keeps
    passes [isValidFen] and is the text entered, or that text followed by
    " w - - 0 1" when the text has no space; the new state is the decoded
    FEN with no move counted, a board of eight rows of eight cells. *)
Theorem X28_fen_box_loads_8x8 (newFen kept : string) (gs : GameState) :
  Page.handleFenChange newFen = Some (kept, gs) ->
  Page.isValidFen kept = true
  /\ (kept = newFen
      \/ (kept = newFen ++ " w - - 0 1" /\ length (split " " newFen) = 1%nat))
  /\ gs = GameState.mk (fenToBoard kept) []
  /\ wfGrid (GameState.board gs).
Proof.
  unfold Page.handleFenChange.
  destruct (Nat.eqb_spec (length (split " " newFen)) 1) as [Hone|Hmore].
  - destruct (Page.isValidFen (newFen ++ " w - - 0 1")) eqn:Hv; [|discriminate].
    intros [= <- <-]. split; [exact Hv|]. split; [right; split; [reflexivity|exact Hone]|].
    split; [reflexivity|]. apply fenToBoard_wfGrid. exact Hv.
  - destruct (Page.isValidFen newFen) eqn:Hv; [|discriminate].
    intros [= <- <-]. split; [exact Hv|]. split; [left; reflexivity|].
    split; [reflexivity|]. apply fenToBoard_wfGrid. exact Hv.
Qed.

Lemma X28_witness :
  Page.isValidFen (getFEN samplePuzzle ++ " w - - 0 1") = true
  /\ (getFEN samplePuzzle ++ " w - - 0 1" = getFEN samplePuzzle
      \/ (getFEN samplePuzzle ++ " w - - 0 1" = getFEN samplePuzzle ++ " w - - 0 1"
          /\ length (split " " (getFEN samplePuzzle)) = 1%nat))
  /\ samplePage = GameState.mk (fenToBoard (getFEN samplePuzzle ++ " w - - 0 1")) []
  /\ wfGrid (GameState.board samplePage).
Proof.
  apply (X28_fen_box_loads_8x8 (getFEN samplePuzzle)
           (getFEN samplePuzzle ++ " w - - 0 1") samplePage).
  vm_compute. reflexivity.
Defined.

(** X29.  [handleFenChange] accepts the placement [getFEN] gives for a
    generator board of 8 by 8 as it is, completes it with " w - - 0 1",
    and loads the state it loads for the completed FEN: a board that shows
    the kinds of the generator's board. *)
Theorem X29_bare_placement_is_completed (g : Generator) :
  wfBoard (board g) ->
  Page.handleFenChange (getFEN g)
  = Some (getFEN g ++ " w - - 0 1",
          GameState.mk (fenToBoard (getFEN g ++ " w - - 0 1")) [])
  /\ Page.handleFenChange (getFEN g ++ " w - - 0 1")
     = Page.handleFenChange (getFEN g)
  /\ mirrors (fenToBoard (getFEN g ++ " w - - 0 1")) (board g).
Proof.
  intros Hwf. destruct (getFEN_ranks g Hwf) as [_ Hspace].
  pose proof (isValidFen_generated g Hwf) as Hv.
  unfold Page.handleFenChange.
  rewrite (split_without " " _ Hspace), (split_six _ Hspace). cbn [length Nat.eqb].
  rewrite Hv. cbn [negb].
  split; [reflexivity|]. split; [reflexivity|].
  exact (fenToBoard_generated g Hwf).
Qed.

Lemma X29_witness :
  Page.handleFenChange (getFEN samplePuzzle)
  = Some (getFEN samplePuzzle ++ " w - - 0 1", samplePage)
  /\ Page.handleFenChange (getFEN samplePuzzle ++ " w - - 0 1")
     = Page.handleFenChange (getFEN samplePuzzle)
  /\ mirrors (GameState.board samplePage) (board samplePuzzle).
Proof.
  apply (X29_bare_placement_is_completed samplePuzzle).
  vm_compute. split; [reflexivity|repeat constructor].
Defined.

Local Close Scope string_scope.
